(** * TruckedUpFood: proximity ranking and vendor status control

    A shallow embedding of the logic of the front-end:
    - [src/app/search/page.tsx]: [calculateDistance], [fetchVendors] (join,
      distance annotation, sort), [requestLocation], [filteredVendors], the
      filter controls, and the grouping of the menu page;
    - [components/GoLiveButton.tsx]: [fetchStatus], [handleStatusChange],
      [goLiveWithGPS], [goLiveWithSearchedLocation],
      [createLocationAndGoLive], [updateStatus];
    - [components/LocationSearch.tsx] and [app/vendor/onboarding/page.tsx].

    JavaScript numbers are the doubles of the machine ([float]), with their
    rounding, their infinities and [NaN]; what the language leaves to the
    engine ([Math.sin], [Math.cos], [Math.atan2]) is a parameter.  The
    handlers of the button are [async]: each runs up to the point where it
    waits for the data store or for the browser, and goes on when the
    answer arrives, while the page stays open to the user in between. *)

#[local] Set Warnings "-inexact-float".

From Stdlib Require Import ZArith Lia Floats Reals Lra.
From stdpp Require Import base strings gmap list sorting.

Open Scope string_scope.
Open Scope list_scope.

(** ** The format of the doubles *)
Module Binary.

(** The place of a number in the order of the format: its value in units
    of the smallest positive number, an infinity just beyond the largest
    finite one. *)
Definition SFordinal (prec emax : Z) (x : spec_float) : Z :=
  match x with
  | S754_zero _ | S754_nan => 0
  | S754_infinity s => cond_Zopp s (2 ^ (emax - SpecFloat.emin prec emax))
  | S754_finite s m e => cond_Zopp s (Zpos m * 2 ^ (e - SpecFloat.emin prec emax))
  end.

Definition ordinal (x : float) : Z := SFordinal prec emax (Prim2SF x).

(** The number one of a format. *)
Definition SFone_canonical (prec : Z) : spec_float :=
  S754_finite false (Z.to_pos (2 ^ (prec - 1))) (1 - prec).

End Binary.

(** ** Built-ins of the language *)
Module JS.

(** A [number] is a double. *)
Definition number : Type := float.

(** [v < 0]; false on [NaN]. *)
Definition negative (v : number) : bool := (v <? 0)%float.

(** What the engine answers where the language asks only for an
    approximation. *)
Record Math : Type := {
  approx_sin : float -> float;
  approx_cos : float -> float;
  approx_atan2 : float -> float -> float;
}.

Definition Math_PI : float := 0x1.921fb54442d18p+1%float.

(** [Math.sin(x)]: [NaN] for [NaN] and the infinities, a zero for the same
    zero, the engine's approximation elsewhere. *)
Definition Math_sin (m : Math) (x : float) : float :=
  if is_nan x || is_infinity x then nan
  else if is_zero x then x
  else approx_sin m x.

(** [Math.cos(x)]: [NaN] for [NaN] and the infinities, 1 for a zero. *)
Definition Math_cos (m : Math) (x : float) : float :=
  if is_nan x || is_infinity x then nan
  else if is_zero x then 1%float
  else approx_cos m x.

(** [Math.sqrt(x)]: the correctly rounded square root of the processor,
    [NaN] below zero. *)
Definition Math_sqrt (x : float) : float := PrimFloat.sqrt x.

(** [Math.atan2(y, x)]: [NaN] when an argument is [NaN]; the zero [y] when
    [x] is positive or [+0]; the engine's approximation in the other
    cases. *)
Definition Math_atan2 (m : Math) (y x : float) : float :=
  if is_nan y || is_nan x then nan
  else if is_zero y && ((0 <? x)%float || (is_zero x && negb (get_sign x))) then y
  else approx_atan2 m y x.

(** [Math.atan2(y, x)] on real numbers: the angle of the point [(x, y)],
    in (-PI, PI]. *)
Definition atan2 (y x : R) : R :=
  (if Rlt_dec 0 x then atan (y / x)
   else if Rlt_dec x 0 then
     if Rle_dec 0 y then atan (y / x) + PI else atan (y / x) - PI
   else if Rlt_dec 0 y then PI / 2
   else if Rlt_dec y 0 then - PI / 2
   else 0)%R.

(** The operations an arithmetic expression of the code is made of. *)
Record Arithmetic (N : Type) : Type := {
  literal : Z -> N;
  plus : N -> N -> N;
  minus : N -> N -> N;
  times : N -> N -> N;
  divide : N -> N -> N;
  PI : N;
  sqrt : N -> N;
  sin : N -> N;
  cos : N -> N;
  arctan2 : N -> N -> N;
}.
Arguments literal {N} _ _.
Arguments plus {N} _ _ _.
Arguments minus {N} _ _ _.
Arguments times {N} _ _ _.
Arguments divide {N} _ _ _.
Arguments PI {N} _.
Arguments sqrt {N} _ _.
Arguments sin {N} _ _.
Arguments cos {N} _ _.
Arguments arctan2 {N} _ _ _.

(** The arithmetic of the language: doubles, each operation rounded. *)
Definition doubles (m : Math) : Arithmetic float :=
  {| literal := fun z => PrimFloat.of_uint63 (Uint63Axioms.of_Z z);
     plus := PrimFloat.add;
     minus := PrimFloat.sub;
     times := PrimFloat.mul;
     divide := PrimFloat.div;
     PI := Math_PI;
     sqrt := Math_sqrt;
     sin := Math_sin m;
     cos := Math_cos m;
     arctan2 := Math_atan2 m |}.

(** The same operations on real numbers, nothing rounded: the arithmetic
    a formula on paper is read in. *)
Definition exact : Arithmetic R :=
  {| literal := IZR;
     plus := Rplus;
     minus := Rminus;
     times := Rmult;
     divide := Rdiv;
     PI := Rtrigo1.PI;
     sqrt := R_sqrt.sqrt;
     sin := Rtrigo_def.sin;
     cos := Rtrigo_def.cos;
     arctan2 := atan2 |}.

(** [s || undefined] on an optional string: the empty string is falsy. *)
Definition or_undefined (s : option string) : option string :=
  match s with
  | Some "" => None
  | other => other
  end.

(** Truthiness of an optional string, as tested by [if (s)]. *)
Definition truthy (s : option string) : bool :=
  match s with
  | None | Some "" => false
  | Some _ => true
  end.

(** [Array.prototype.sort(comparefn)].  The language fixes the result for a
    consistent comparator: the elements in comparator order, elements that
    compare equal (a zero or [NaN] result) left in their original order.
    Insertion from the right computes that result: an element moves behind
    those that compare strictly below it and no further. *)
Section Sort.
Context {A : Type} (comparefn : A -> A -> number).

Fixpoint insert_sorted (x : A) (l : list A) : list A :=
    match l with
    | [] => [x]
    | y :: l' =>
        if negative (comparefn y x) then y :: insert_sorted x l'
        else x :: y :: l'
    end.

Definition sort (l : list A) : list A := foldr insert_sorted [] l.
End Sort.

(** [navigator.geolocation]: absent, or the outcome of one
    [getCurrentPosition] request. *)
Inductive PositionResult : Type :=
| PositionSuccess (coords_latitude coords_longitude : float)
| PositionFailure (message : string).

Definition Geolocation : Type := option PositionResult.

End JS.

(** ** [types/vendor.ts] *)
Module Types.

Inductive VendorOperationalStatus : Type :=
| offline
| live
| closing_soon.

(** [a === b] on status literals. *)
Definition status_eqb (a b : VendorOperationalStatus) : bool :=
  match a, b with
  | offline, offline | live, live | closing_soon, closing_soon => true
  | _, _ => false
  end.

(** A row of [vendor_status]; [id], [created_at] and [updated_at] are
    never read or written by the code below and are left out. *)
Record VendorStatus : Type := {
  vs_vendor_id : string;
  vs_is_live : bool;
  vs_operational_status : VendorOperationalStatus;
  vs_went_live_at : option string;
  vs_current_location_id : option string;
}.

(** A row of [locations]. *)
Record Location : Type := {
  loc_id : string;
  loc_vendor_id : string;
  loc_latitude : float;
  loc_longitude : float;
  loc_address : option string;
  loc_city : option string;
  loc_state : option string;
  loc_zip : option string;
  loc_notes : option string;
  loc_is_current_location : bool;
}.

End Types.

(** ** Handlers as state transformers that may throw *)
Module Exec.

(** What a [throw] carries: the error object of a store response, or the
    error of reading a property of [null]. *)
Inductive Error : Type :=
| StoreError (message : string)
| TypeError (message : string).

Inductive Result (A : Type) : Type :=
| Ok (a : A)
| Throw (e : Error).
Arguments Ok {A} a.
Arguments Throw {A} e.

(** A computation over the state [S] of a component. *)
Definition M (S A : Type) : Type := S -> Result A * S.

Definition ret {S A} (a : A) : M S A := fun s => (Ok a, s).

Definition bind {S A B} (m : M S A) (k : A -> M S B) : M S B :=
  fun s =>
    match m s with
    | (Ok a, s') => k a s'
    | (Throw e, s') => (Throw e, s')
    end.

Definition throw {S A} (e : Error) : M S A := fun s => (Throw e, s).

Definition modify {S} (f : S -> S) : M S unit := fun s => (Ok tt, f s).

Definition get {S} : M S S := fun s => (Ok s, s).

(** [try { body } catch (error) { handler error }] *)
Definition try_catch {S A} (body : M S A) (handler : Error -> M S A) : M S A :=
  fun s =>
    match body s with
    | (Ok a, s') => (Ok a, s')
    | (Throw e, s') => handler e s'
    end.

(** [try { body } finally { final }] *)
Definition try_finally {S A} (body : M S A) (final : M S unit) : M S A :=
  fun s =>
    match body s with
    | (r, s') =>
        match final s' with
        | (Ok _, s'') => (r, s'')
        | (Throw e, s'') => (Throw e, s'')
        end
    end.

(** [if (error) throw error] *)
Definition throw_if {S} (error : option Error) : M S unit :=
  match error with
  | Some e => throw e
  | None => ret tt
  end.

Declare Scope exec_scope.
Delimit Scope exec_scope with exec.
Notation "'let*' x ':=' m 'in' k" := (bind m (fun x => k))
  (at level 10, x pattern, m at level 100, k at level 200) : exec_scope.
Notation "m >> k" := (bind m (fun _ => k))
  (at level 60, right associativity) : exec_scope.

(** The [{ data, error }] object a store call resolves to. *)
Record Response (A : Type) : Type := {
  data : option A;
  error : option Error;
}.
Arguments data {A} _.
Arguments error {A} _.

End Exec.

(** ** [src/app/search/page.tsx] *)
Module Search.
Import Types Exec.

(** *** The distance

    [toRad] and [calculateDistance] are written once, over the operations
    of an arithmetic: the page computes with [JS.doubles]; [JS.exact] reads
    the same expression over the real numbers. *)
Section Distance.
Context {N : Type} (num : JS.Arithmetic N).

Declare Scope number_scope.
Delimit Scope number_scope with num.
Local Notation "x + y" := (JS.plus num x y) : number_scope.
Local Notation "x - y" := (JS.minus num x y) : number_scope.
Local Notation "x * y" := (JS.times num x y) : number_scope.
Local Notation "x / y" := (JS.divide num x y) : number_scope.
Local Notation "# z" := (JS.literal num z) (at level 1, format "# z") : number_scope.

Definition toRad (degrees : N) : N :=
  (degrees * (JS.PI num / #180))%num.

(** Haversine formula for distance calculation. *)
Definition calculateDistance (lat1 lon1 lat2 lon2 : N) : N :=
  (let R_ := #3959 in
   let dLat := toRad (lat2 - lat1) in
   let dLon := toRad (lon2 - lon1) in
   let a :=
     JS.sin num (dLat / #2) * JS.sin num (dLat / #2) +
     JS.cos num (toRad lat1) * JS.cos num (toRad lat2) *
     JS.sin num (dLon / #2) * JS.sin num (dLon / #2) in
   let c := #2 * JS.arctan2 num (JS.sqrt num a) (JS.sqrt num (#1 - a)) in
   R_ * c)%num.

End Distance.

(** The formula as the specification words it, on real numbers: angles in
    radians, [a = sin²(Δlat/2) + cos(lat1)·cos(lat2)·sin²(Δlon/2)],
    [d = 2·R·atan2(√a, √(1-a))] with [R = 3959]. *)
Definition haversine_spec (lat1 lon1 lat2 lon2 : R) : R :=
  (let phi1 := lat1 * Rtrigo1.PI / 180 in
   let phi2 := lat2 * Rtrigo1.PI / 180 in
   let lam1 := lon1 * Rtrigo1.PI / 180 in
   let lam2 := lon2 * Rtrigo1.PI / 180 in
   let a := (Rtrigo_def.sin ((phi2 - phi1) / 2))² +
            Rtrigo_def.cos phi1 * Rtrigo_def.cos phi2 *
            (Rtrigo_def.sin ((lam2 - lam1) / 2))² in
   2 * 3959 * JS.atan2 (R_sqrt.sqrt a) (R_sqrt.sqrt (1 - a)))%R.

(** A function that takes the opposite of an argument to the opposite of
    its value there. *)
Definition odd_at (f : float -> float) (x : float) : Prop :=
  f (- x)%float = (- f x)%float.

(** *** Rows as the three queries of [fetchVendors] select them *)

Record VendorRow : Type := {
  vr_id : string;
  vr_business_name : string;
  vr_description : string;
  vr_cuisine_types : option (list string);
  vr_logo_url : option string;
}.

Record StatusRow : Type := {
  sr_vendor_id : string;
  sr_operational_status : VendorOperationalStatus;
  sr_current_location_id : option string;
}.

Record LocationRow : Type := {
  lr_latitude : float;
  lr_longitude : float;
  lr_address : option string;
  lr_notes : option string;
}.

(** What the data store answers to the queries of one [fetchVendors] call:
    the approved vendors, all status rows, and the single location row with
    a given id. *)
Record Store : Type := {
  vendors_select : Response (list VendorRow);
  vendor_status_select : Response (list StatusRow);
  locations_single : string -> Response LocationRow;
}.

Record VendorLocation : Type := {
  latitude : float;
  longitude : float;
  address : option string;
  notes : option string;
}.

Record VendorWithLocation : Type := {
  id : string;
  business_name : string;
  description : string;
  cuisine_types : list string;
  logo_url : option string;
  operational_status : VendorOperationalStatus;
  location : option VendorLocation;
  distance_miles : option float;
}.

(** State of [SearchPage], with the lines written to the console. *)
Record Page : Type := {
  vendors : list VendorWithLocation;
  loading : bool;
  userLocation : option (float * float);
  selectedCuisines : list string;
  showLiveOnly : bool;
  console : list string;
}.

Definition setVendors (v : list VendorWithLocation) : M Page unit :=
  modify (fun p => {| vendors := v; loading := loading p;
                      userLocation := userLocation p;
                      selectedCuisines := selectedCuisines p;
                      showLiveOnly := showLiveOnly p; console := console p |}).

Definition setLoading (b : bool) : M Page unit :=
  modify (fun p => {| vendors := vendors p; loading := b;
                      userLocation := userLocation p;
                      selectedCuisines := selectedCuisines p;
                      showLiveOnly := showLiveOnly p; console := console p |}).

Definition setUserLocation (l : float * float) : M Page unit :=
  modify (fun p => {| vendors := vendors p; loading := loading p;
                      userLocation := Some l;
                      selectedCuisines := selectedCuisines p;
                      showLiveOnly := showLiveOnly p; console := console p |}).

Definition console_error (line : string) : M Page unit :=
  modify (fun p => {| vendors := vendors p; loading := loading p;
                      userLocation := userLocation p;
                      selectedCuisines := selectedCuisines p;
                      showLiveOnly := showLiveOnly p;
                      console := console p ++ [line] |}).

(** [new Map(entries)]: entries are set in order, a later one replaces an
    earlier one with the same key. *)
Definition new_Map (entries : list (string * StatusRow)) : gmap string StatusRow :=
  fold_left (fun m e => <[fst e := snd e]> m) entries ∅.

(** The comparator passed to [sort]. *)
Definition compareVendors (a b : VendorWithLocation) : JS.number :=
  let aIsLive := negb (status_eqb (operational_status a) offline) in
  let bIsLive := negb (status_eqb (operational_status b) offline) in
  if aIsLive && negb bIsLive then (-1)%float
  else if negb aIsLive && bIsLive then 1%float
  else
    let aDist := default infinity (distance_miles a) in
    let bDist := default infinity (distance_miles b) in
    (aDist - bDist)%float.

Section Engine.
(** The engine the page runs on. *)
Context (math : JS.Math).

(** The location and distance of one vendor, from its status row. *)
Definition locate (store : Store) (userLat userLng : float) (status : StatusRow)
  : option VendorLocation * option float :=
  if JS.truthy (sr_current_location_id status) then
    match data (locations_single store (default "" (sr_current_location_id status))) with
    | Some locationData =>
        (Some {| latitude := lr_latitude locationData;
                 longitude := lr_longitude locationData;
                 address := JS.or_undefined (lr_address locationData);
                 notes := JS.or_undefined (lr_notes locationData) |},
         Some (calculateDistance (JS.doubles math) userLat userLng
                 (lr_latitude locationData) (lr_longitude locationData)))
    | None => (None, None)
    end
  else (None, None).

(** The [for (const vendor of vendorsData || [])] loop: the list the
    [push] calls build. *)
Fixpoint collectVendors (store : Store) (userLat userLng : float)
    (statusMap : gmap string StatusRow) (vendorsData : list VendorRow)
  : list VendorWithLocation :=
  match vendorsData with
  | [] => []
  | vendor :: rest =>
      match statusMap !! vr_id vendor with
      | None => collectVendors store userLat userLng statusMap rest
      | Some status =>
          let '(location, distance) := locate store userLat userLng status in
          {| id := vr_id vendor;
             business_name := vr_business_name vendor;
             description := vr_description vendor;
             cuisine_types := default [] (vr_cuisine_types vendor);
             logo_url := JS.or_undefined (vr_logo_url vendor);
             operational_status := sr_operational_status status;
             location := location;
             distance_miles := distance |}
          :: collectVendors store userLat userLng statusMap rest
      end
  end.

(** The list the loop of [fetchVendors] has built when the sort starts. *)
Definition candidates (store : Store) (userLat userLng : float)
    (vendorsData : option (list VendorRow)) (statusData : option (list StatusRow))
  : list VendorWithLocation :=
  collectVendors store userLat userLng
    (new_Map (map (fun status => (sr_vendor_id status, status)) (default [] statusData)))
    (default [] vendorsData).

(** The list [fetchVendors] hands to [setVendors] once both queries have
    answered without error. *)
Definition rankVendors (store : Store) (userLat userLng : float)
    (vendorsData : option (list VendorRow)) (statusData : option (list StatusRow))
  : list VendorWithLocation :=
  let statusMap :=
    new_Map (map (fun status => (sr_vendor_id status, status)) (default [] statusData)) in
  let vendorsWithLocation :=
    collectVendors store userLat userLng statusMap (default [] vendorsData) in
  JS.sort compareVendors vendorsWithLocation.

Definition fetchVendors (store : Store) (userLat userLng : float) : M Page unit :=
  (setLoading true >>
   try_finally
     (try_catch
        (throw_if (error (vendors_select store)) >>
         throw_if (error (vendor_status_select store)) >>
         setVendors (rankVendors store userLat userLng
                       (data (vendors_select store))
                       (data (vendor_status_select store))))
        (fun _ => console_error "Error fetching vendors:"))
     (setLoading false))%exec.

Definition requestLocation (geolocation : JS.Geolocation) (store : Store) : M Page unit :=
  match geolocation with
  | Some (JS.PositionSuccess lat lng) =>
      (setUserLocation (lat, lng) >> fetchVendors store lat lng)%exec
  | Some (JS.PositionFailure _) =>
      let defaultLocation := (39.7684, -86.1581)%float in
      (console_error "Geolocation error:" >>
       setUserLocation defaultLocation >>
       fetchVendors store (fst defaultLocation) (snd defaultLocation))%exec
  | None =>
      let defaultLocation := (39.7684, -86.1581)%float in
      (setUserLocation defaultLocation >>
       fetchVendors store (fst defaultLocation) (snd defaultLocation))%exec
  end.

End Engine.

(** [selectedCuisines.includes(type)] *)
Definition includes (l : list string) (x : string) : bool :=
  existsb (String.eqb x) l.

(** The predicate of [vendors.filter(...)]. *)
Definition keepVendor (showLiveOnly_ : bool) (selectedCuisines_ : list string)
    (vendor : VendorWithLocation) : bool :=
  if showLiveOnly_ && status_eqb (operational_status vendor) offline then false
  else if (0 <? length selectedCuisines_)%nat then
    let hasMatchingCuisine :=
      existsb (fun type => includes selectedCuisines_ type) (cuisine_types vendor) in
    if negb hasMatchingCuisine then false else true
  else true.

Definition filteredVendors (p : Page) : list VendorWithLocation :=
  List.filter (keepVendor (showLiveOnly p) (selectedCuisines p)) (vendors p).

(** *** The order the ranking is meant to realise *)

Definition isLive (v : VendorWithLocation) : bool :=
  negb (status_eqb (operational_status v) offline).

(** Ascending distance, an absent distance counting as [Infinity], which
    is what the comparator reads for it. *)
Definition distance_le (a b : option float) : Prop :=
  (default infinity a <=? default infinity b)%float = true.

(** [a] may stand before [b]: a serving vendor before an offline one, and
    in the same bucket the nearer one first. *)
Definition ranks_before (a b : VendorWithLocation) : Prop :=
  (isLive a = true /\ isLive b = false) \/
  (isLive a = isLive b /\ distance_le (distance_miles a) (distance_miles b)).



(** The distance of a vendor is absent or a number: it is not [NaN]. *)
Definition distance_is_number (v : VendorWithLocation) : bool :=
  negb (is_nan (default infinity (distance_miles v))).

(** A candidate vendor has a row in the status query's answer. *)
Definition has_status_row (statusData : option (list StatusRow))
    (vendor : VendorRow) : bool :=
  bool_decide (vr_id vendor ∈ map sr_vendor_id (default [] statusData)).

End Search.

(** ** [components/GoLiveButton.tsx] *)
Module GoLiveButton.
Import Types Exec.

Record SelectedLocation : Type := {
  sel_address : string;
  sel_latitude : float;
  sel_longitude : float;
  sel_city : option string;
  sel_state : option string;
  sel_zip : option string;
}.

(** The [useState] cells of the component. *)
Record Component : Type := {
  status : VendorOperationalStatus;
  loading : bool;
  locationNotes : string;
  showLocationInput : bool;
  useManualLocation : bool;
  selectedLocation : option SelectedLocation;
}.

(** The object given to [.from('locations').insert(...)]. *)
Record LocationInsert : Type := {
  ins_vendor_id : string;
  ins_latitude : float;
  ins_longitude : float;
  ins_address : option string;
  ins_city : option string;
  ins_state : option string;
  ins_zip : option string;
  ins_notes : option string;
  ins_is_current_location : bool;
}.

(** The object given to [.from('vendor_status').update(...)]: a field
    that is not set is [None]; a field set to [null] is [Some None]. *)
Record StatusUpdate : Type := {
  u_operational_status : VendorOperationalStatus;
  u_went_live_at : option (option string);
  u_current_location_id : option (option string);
}.

(** The two tables the component writes. *)
Record Database : Type := {
  vendor_status : gmap string VendorStatus;
  locations : list Location;
}.

(** Requests the data store has handled, oldest first. *)
Inductive StoreCall : Type :=
| SelectStatus (vendor_id : string)
| InsertLocation (row : LocationInsert)
| UpdateStatus (vendor_id : string) (updates : StatusUpdate).

(** The component, the data store behind it, and what the user was shown. *)
Record World : Type := {
  ui : Component;
  database : Database;
  calls : list StoreCall;
  alerts : list string;
  console : list string;
}.

(** What the outside answers: whether a store call goes through (an
    insert is answered with the id of the new row), and the clock. *)
Inductive Outcome (A : Type) : Type :=
| Done (a : A)
| Failed (e : Error).
Arguments Done {A} a.
Arguments Failed {A} e.

Record Env : Type := {
  select_outcome : Outcome unit;
  insert_outcome : Outcome string;
  update_outcome : Outcome unit;
  now : string;
}.

(** *** What the code of the component does at once *)

(** A state setter, an [alert], a line on the console. *)
Inductive Action : Type :=
| SetStatus (s : VendorOperationalStatus)
| SetLoading (b : bool)
| SetLocationNotes (s : string)
| SetShowLocationInput (b : bool)
| SetUseManualLocation (b : bool)
| SetSelectedLocation (l : option SelectedLocation)
| Alert (message : string)
| ConsoleError (line : string).

Definition with_ui (f : Component -> Component) (w : World) : World :=
  {| ui := f (ui w); database := database w; calls := calls w;
     alerts := alerts w; console := console w |}.

Definition perform (a : Action) (w : World) : World :=
  match a with
  | SetStatus s =>
      with_ui (fun c => {| status := s; loading := loading c;
                           locationNotes := locationNotes c;
                           showLocationInput := showLocationInput c;
                           useManualLocation := useManualLocation c;
                           selectedLocation := selectedLocation c |}) w
  | SetLoading b =>
      with_ui (fun c => {| status := status c; loading := b;
                           locationNotes := locationNotes c;
                           showLocationInput := showLocationInput c;
                           useManualLocation := useManualLocation c;
                           selectedLocation := selectedLocation c |}) w
  | SetLocationNotes s =>
      with_ui (fun c => {| status := status c; loading := loading c;
                           locationNotes := s;
                           showLocationInput := showLocationInput c;
                           useManualLocation := useManualLocation c;
                           selectedLocation := selectedLocation c |}) w
  | SetShowLocationInput b =>
      with_ui (fun c => {| status := status c; loading := loading c;
                           locationNotes := locationNotes c;
                           showLocationInput := b;
                           useManualLocation := useManualLocation c;
                           selectedLocation := selectedLocation c |}) w
  | SetUseManualLocation b =>
      with_ui (fun c => {| status := status c; loading := loading c;
                           locationNotes := locationNotes c;
                           showLocationInput := showLocationInput c;
                           useManualLocation := b;
                           selectedLocation := selectedLocation c |}) w
  | SetSelectedLocation l =>
      with_ui (fun c => {| status := status c; loading := loading c;
                           locationNotes := locationNotes c;
                           showLocationInput := showLocationInput c;
                           useManualLocation := useManualLocation c;
                           selectedLocation := l |}) w
  | Alert message =>
      {| ui := ui w; database := database w; calls := calls w;
         alerts := alerts w ++ [message]; console := console w |}
  | ConsoleError line =>
      {| ui := ui w; database := database w; calls := calls w;
         alerts := alerts w; console := console w ++ [line] |}
  end.

(** *** The code of a handler

    An [async] function as the tree of what it does: it returns or
    throws, performs an action and goes on, reads the clock, sends a call
    to the data store and goes on with the answer ([await]), or hands two
    callbacks to [navigator.geolocation.getCurrentPosition] and goes on
    at once. *)
Inductive Prog : Type :=
| Return
| Raise (e : Error)
| Do (a : Action) (k : Prog)
| Now (k : string -> Prog)
| AwaitSelect (vendorId : string) (k : Response VendorOperationalStatus -> Prog)
| AwaitInsert (row : LocationInsert) (k : Response Location -> Prog)
| AwaitUpdate (vendorId : string) (updates : StatusUpdate) (k : option Error -> Prog)
| GetCurrentPosition (success : float -> float -> Prog) (failure : string -> Prog)
    (k : Prog).

(** [first; second] *)
Fixpoint seq (first second : Prog) : Prog :=
  match first with
  | Return => second
  | Raise e => Raise e
  | Do a k => Do a (seq k second)
  | Now k => Now (fun t => seq (k t) second)
  | AwaitSelect vendorId k => AwaitSelect vendorId (fun r => seq (k r) second)
  | AwaitInsert row k => AwaitInsert row (fun r => seq (k r) second)
  | AwaitUpdate vendorId updates k =>
      AwaitUpdate vendorId updates (fun r => seq (k r) second)
  | GetCurrentPosition success failure k =>
      GetCurrentPosition success failure (seq k second)
  end.

(** [try { body } catch (error) { handler error }]: what a callback handed
    to the browser throws is not caught. *)
Fixpoint try_catch (body : Prog) (handler : Error -> Prog) : Prog :=
  match body with
  | Return => Return
  | Raise e => handler e
  | Do a k => Do a (try_catch k handler)
  | Now k => Now (fun t => try_catch (k t) handler)
  | AwaitSelect vendorId k => AwaitSelect vendorId (fun r => try_catch (k r) handler)
  | AwaitInsert row k => AwaitInsert row (fun r => try_catch (k r) handler)
  | AwaitUpdate vendorId updates k =>
      AwaitUpdate vendorId updates (fun r => try_catch (k r) handler)
  | GetCurrentPosition success failure k =>
      GetCurrentPosition success failure (try_catch k handler)
  end.

(** [try { body } finally { final }] *)
Fixpoint try_finally (body final : Prog) : Prog :=
  match body with
  | Return => final
  | Raise e => seq final (Raise e)
  | Do a k => Do a (try_finally k final)
  | Now k => Now (fun t => try_finally (k t) final)
  | AwaitSelect vendorId k => AwaitSelect vendorId (fun r => try_finally (k r) final)
  | AwaitInsert row k => AwaitInsert row (fun r => try_finally (k r) final)
  | AwaitUpdate vendorId updates k =>
      AwaitUpdate vendorId updates (fun r => try_finally (k r) final)
  | GetCurrentPosition success failure k =>
      GetCurrentPosition success failure (try_finally k final)
  end.

(** [if (error) throw error] *)
Definition throw_if (error : option Error) : Prog :=
  match error with
  | Some e => Raise e
  | None => Return
  end.

Declare Scope prog_scope.
Delimit Scope prog_scope with prog.
Notation "'let*' x ':=' m 'in' k" := (m (fun x => k))
  (at level 10, x pattern, m at level 100, k at level 200) : prog_scope.
Notation "m >> k" := (seq m k)
  (at level 60, right associativity) : prog_scope.

Definition setStatus (s : VendorOperationalStatus) : Prog := Do (SetStatus s) Return.
Definition setLoading (b : bool) : Prog := Do (SetLoading b) Return.
Definition setLocationNotes (s : string) : Prog := Do (SetLocationNotes s) Return.
Definition setShowLocationInput (b : bool) : Prog := Do (SetShowLocationInput b) Return.
Definition setUseManualLocation (b : bool) : Prog := Do (SetUseManualLocation b) Return.
Definition setSelectedLocation (l : option SelectedLocation) : Prog :=
  Do (SetSelectedLocation l) Return.
Definition alert (message : string) : Prog := Do (Alert message) Return.
Definition console_error (line : string) : Prog := Do (ConsoleError line) Return.

(** *** The data store: each call is atomic; a failed call changes nothing *)

Definition record_call (c : StoreCall) (db : Database) (w : World) : World :=
  {| ui := ui w; database := db; calls := calls w ++ [c];
     alerts := alerts w; console := console w |}.

Definition inserted_row (new_id : string) (row : LocationInsert) : Location :=
  {| loc_id := new_id;
     loc_vendor_id := ins_vendor_id row;
     loc_latitude := ins_latitude row;
     loc_longitude := ins_longitude row;
     loc_address := ins_address row;
     loc_city := ins_city row;
     loc_state := ins_state row;
     loc_zip := ins_zip row;
     loc_notes := ins_notes row;
     loc_is_current_location := ins_is_current_location row |}.

(** [.from('locations').insert(row).select().single()] *)
Definition locations_insert (env : Env) (row : LocationInsert) (w : World)
  : Response Location * World :=
  match insert_outcome env with
  | Done new_id =>
      let l := inserted_row new_id row in
      ({| data := Some l; error := None |},
       record_call (InsertLocation row)
         {| vendor_status := vendor_status (database w);
            locations := locations (database w) ++ [l] |} w)
  | Failed e =>
      ({| data := None; error := Some e |},
       record_call (InsertLocation row) (database w) w)
  end.

Definition apply_update (u : StatusUpdate) (row : VendorStatus) : VendorStatus :=
  {| vs_vendor_id := vs_vendor_id row;
     vs_is_live := vs_is_live row;
     vs_operational_status := u_operational_status u;
     vs_went_live_at := default (vs_went_live_at row) (u_went_live_at u);
     vs_current_location_id :=
       default (vs_current_location_id row) (u_current_location_id u) |}.

(** [.from('vendor_status').update(updates).eq('vendor_id', vendorId)] *)
Definition vendor_status_update (env : Env) (vendorId : string)
    (updates : StatusUpdate) (w : World) : option Error * World :=
  match update_outcome env with
  | Done _ =>
      (None,
       record_call (UpdateStatus vendorId updates)
         {| vendor_status := alter (apply_update updates) vendorId
                               (vendor_status (database w));
            locations := locations (database w) |} w)
  | Failed e =>
      (Some e, record_call (UpdateStatus vendorId updates) (database w) w)
  end.

(** [.from('vendor_status').select('operational_status')
      .eq('vendor_id', vendorId).single()]: no row is an error. *)
Definition vendor_status_select (env : Env) (vendorId : string) (w : World)
  : Response VendorOperationalStatus * World :=
  (match select_outcome env with
   | Done _ =>
       match vendor_status (database w) !! vendorId with
       | Some row => {| data := Some (vs_operational_status row); error := None |}
       | None => {| data := None; error := Some (StoreError "PGRST116") |}
       end
   | Failed e => {| data := None; error := Some e |}
   end,
   record_call (SelectStatus vendorId) (database w) w).

(** *** The handlers

    A handler belongs to a render of the component: where its code names
    a state cell ([status], [locationNotes], [selectedLocation]) it means
    the value the cell had at that render, which is an argument here. *)

Definition fetchStatus (vendorId : string) : Prog :=
  (let* r := AwaitSelect vendorId in
   match data r, error r with
   | Some operational_status, None => setStatus operational_status
   | _, _ => Return
   end)%prog.

Definition updateStatus (vendorId : string) (newStatus : VendorOperationalStatus)
  : Prog :=
  (setLoading true >>
   try_finally
     (try_catch
        (let updates :=
           if status_eqb newStatus offline then
             {| u_operational_status := newStatus;
                u_went_live_at := Some None;
                u_current_location_id := Some None |}
           else
             {| u_operational_status := newStatus;
                u_went_live_at := None;
                u_current_location_id := None |} in
         let* error := AwaitUpdate vendorId updates in
         throw_if error >>
         setStatus newStatus >>
         if status_eqb newStatus closing_soon then
           alert "Status updated to Closing Soon 🟡"
         else if status_eqb newStatus offline then
           alert "You are now offline. See you next time! 👋"
         else Return)
        (fun _ =>
           console_error "Error updating status:" >>
           alert "Failed to update status. Please try again."))
     (setLoading false))%prog.

Definition createLocationAndGoLive (vendorId : string) (locationNotes : string)
    (latitude longitude : float) (address city state zip : option string)
  : Prog :=
  (try_finally
     (try_catch
        (let* r :=
           AwaitInsert
             {| ins_vendor_id := vendorId;
                ins_latitude := latitude;
                ins_longitude := longitude;
                ins_address := JS.or_undefined address;
                ins_city := JS.or_undefined city;
                ins_state := JS.or_undefined state;
                ins_zip := JS.or_undefined zip;
                ins_notes := JS.or_undefined (Some locationNotes);
                ins_is_current_location := true |} in
         throw_if (error r) >>
         match data r with
         | None => Raise (TypeError "location is null")
         | Some location =>
             let* clock := Now in
             let* statusError :=
               AwaitUpdate vendorId
                 {| u_operational_status := live;
                    u_went_live_at := Some (Some clock);
                    u_current_location_id := Some (Some (loc_id location)) |} in
             throw_if statusError >>
             setStatus live >>
             setShowLocationInput false >>
             setUseManualLocation false >>
             setLocationNotes "" >>
             setSelectedLocation None >>
             alert "You are now live! 🎉"
         end)
        (fun _ =>
           console_error "Error going live:" >>
           alert "Failed to go live. Please try again."))
     (setLoading false))%prog.

Definition handleStatusChange (vendorId : string) (status : VendorOperationalStatus)
  : Prog :=
  if status_eqb status offline then setShowLocationInput true
  else if status_eqb status live then updateStatus vendorId closing_soon
  else if status_eqb status closing_soon then updateStatus vendorId offline
  else Return.

(** [geolocation] tells whether the browser has [navigator.geolocation]. *)
Definition goLiveWithGPS (vendorId : string) (locationNotes : string)
    (geolocation : bool) : Prog :=
  (setLoading true >>
   try_catch
     (if negb geolocation then
        alert "Geolocation is not supported by your browser. Please use manual location entry." >>
        setUseManualLocation true >>
        setLoading false
      else
        GetCurrentPosition
          (fun latitude longitude =>
             createLocationAndGoLive vendorId locationNotes latitude longitude
               None None None None)
          (fun _ =>
             console_error "Geolocation error:" >>
             alert "Could not get your location. Please search for it manually." >>
             setUseManualLocation true >>
             setLoading false)
          Return)
     (fun _ =>
        console_error "Error going live:" >>
        alert "Failed to go live. Please try again." >>
        setLoading false))%prog.

Definition goLiveWithSearchedLocation (vendorId : string) (locationNotes : string)
    (selectedLocation : option SelectedLocation) : Prog :=
  match selectedLocation with
  | None => alert "Please search and select a location first"
  | Some selected =>
      (setLoading true >>
       createLocationAndGoLive vendorId locationNotes
         (sel_latitude selected) (sel_longitude selected)
         (Some (sel_address selected)) (sel_city selected)
         (sel_state selected) (sel_zip selected))%prog
  end.

(** *** Running the code *)

(** A call of a handler with nothing in between: the data store handles
    each call when it is sent and the handler goes on with the answer at
    once; the callbacks handed to the browser stay with the browser. *)
Fixpoint complete (env : Env) (p : Prog) (w : World) : Result unit * World :=
  match p with
  | Return => (Ok tt, w)
  | Raise e => (Throw e, w)
  | Do a k => complete env k (perform a w)
  | Now k => complete env (k (now env)) w
  | AwaitSelect vendorId k =>
      let '(r, w') := vendor_status_select env vendorId w in complete env (k r) w'
  | AwaitInsert row k =>
      let '(r, w') := locations_insert env row w in complete env (k r) w'
  | AwaitUpdate vendorId updates k =>
      let '(r, w') := vendor_status_update env vendorId updates w in
      complete env (k r) w'
  | GetCurrentPosition _ _ k => complete env k w
  end.

(** What the page is waiting for: a call on its way to the data store,
    with the code that sent it; the answer of a call the store has
    handled, with the code that goes on from it; a position. *)
Inductive Task : Type :=
| Requested (p : Prog)
| Answered (p : Prog)
| Locating (success : float -> float -> Prog) (failure : string -> Prog).

(** The code runs up to the point where it waits. *)
Fixpoint advance (clock : string) (p : Prog) (w : World) : World * list Task :=
  match p with
  | Return | Raise _ => (w, [])
  | Do a k => advance clock k (perform a w)
  | Now k => advance clock (k clock) w
  | AwaitSelect _ _ | AwaitInsert _ _ | AwaitUpdate _ _ _ => (w, [Requested p])
  | GetCurrentPosition success failure k =>
      let '(w', waiting) := advance clock k w in
      (w', Locating success failure :: waiting)
  end.

(** The data store handles the call a piece of code waits on. *)
Definition store_handles (env : Env) (p : Prog) (w : World) : Task * World :=
  match p with
  | AwaitSelect vendorId k =>
      let '(r, w') := vendor_status_select env vendorId w in (Answered (k r), w')
  | AwaitInsert row k =>
      let '(r, w') := locations_insert env row w in (Answered (k r), w')
  | AwaitUpdate vendorId updates k =>
      let '(r, w') := vendor_status_update env vendorId updates w in
      (Answered (k r), w')
  | _ => (Requested p, w)
  end.

(** *** The component over time *)

(** [useState] initial values. *)
Definition initial_component : Component :=
  {| status := offline; loading := false; locationNotes := "";
     showLocationInput := false; useManualLocation := false;
     selectedLocation := None |}.

(** A page with its clock and what it is waiting for, oldest first. *)
Record Session : Type := {
  world : World;
  clock : string;
  tasks : list Task;
}.

(** What can happen: the page is loaded (a new page: the code of the old
    one runs no further and what it was waiting for is dropped; a write
    that was still on its way to the store is taken not to arrive, and
    the theorems on the stored row leave such loads out, see
    [loaded_when_idle]); time passes; the store handles the call of the
    [i]-th task; the answer of the [i]-th task, or the position it asked
    for, reaches the page; the user works one of the controls the page
    renders. *)
Inductive Event : Type :=
| Mount
| Tick (clock : string)
| StoreHandles (i : nat) (env : Env)
| AnswerArrives (i : nat)
| PositionArrives (i : nat) (position : JS.PositionResult)
| ClickStatusButton
| ClickUseGPS (geolocation : bool)
| ClickSearchForLocation
| ClickCancel
| TypeNotes (text : string)
| SelectLocation (l : SelectedLocation)
| ClickGoLiveHere
| ClickBackToGPS.

(** The controls the returned markup holds and does not disable. *)
Definition enabled (c : Component) (e : Event) : bool :=
  match e with
  | Mount | Tick _ | StoreHandles _ _ | AnswerArrives _ | PositionArrives _ _ => true
  | ClickStatusButton => negb (showLocationInput c) && negb (loading c)
  | ClickUseGPS _ =>
      showLocationInput c && negb (useManualLocation c) && negb (loading c)
  | ClickSearchForLocation | ClickCancel =>
      showLocationInput c && negb (useManualLocation c)
  | TypeNotes _ => showLocationInput c
  | SelectLocation _ | ClickBackToGPS =>
      showLocationInput c && useManualLocation c
  | ClickGoLiveHere =>
      showLocationInput c && useManualLocation c &&
      negb (loading c || negb (bool_decide (is_Some (selectedLocation c))))
  end.

(** A piece of code starts to run on the page. *)
Definition begin (p : Prog) (s : Session) : Session :=
  let '(w, waiting) := advance (clock s) p (world s) in
  {| world := w; clock := clock s; tasks := tasks s ++ waiting |}.

(** The [i]-th task is taken off the list. *)
Definition without (i : nat) (s : Session) : Session :=
  {| world := world s; clock := clock s; tasks := delete i (tasks s) |}.

(** The code of the [onClick], [onChange] and [onLocationSelect]
    attributes, at the render the user sees. *)
Definition handler (vendorId : string) (c : Component) (e : Event) : Prog :=
  match e with
  | ClickStatusButton => handleStatusChange vendorId (status c)
  | ClickUseGPS geolocation => goLiveWithGPS vendorId (locationNotes c) geolocation
  | ClickSearchForLocation => setUseManualLocation true
  | ClickCancel => (setShowLocationInput false >> setLocationNotes "")%prog
  | TypeNotes text => setLocationNotes text
  | SelectLocation l => setSelectedLocation (Some l)
  | ClickGoLiveHere =>
      goLiveWithSearchedLocation vendorId (locationNotes c) (selectedLocation c)
  | ClickBackToGPS => (setUseManualLocation false >> setSelectedLocation None)%prog
  | Mount | Tick _ | StoreHandles _ _ | AnswerArrives _ | PositionArrives _ _ => Return
  end.

Definition session_step (vendorId : string) (s : Session) (e : Event) : Session :=
  if enabled (ui (world s)) e then
    match e with
    | Mount =>
        begin (fetchStatus vendorId)
          {| world := with_ui (fun _ => initial_component) (world s);
             clock := clock s; tasks := [] |}
    | Tick t => {| world := world s; clock := t; tasks := tasks s |}
    | StoreHandles i env =>
        match tasks s !! i with
        | Some (Requested p) =>
            let '(task, w) := store_handles env p (world s) in
            {| world := w; clock := clock s; tasks := <[i := task]> (tasks s) |}
        | _ => s
        end
    | AnswerArrives i =>
        match tasks s !! i with
        | Some (Answered p) => begin p (without i s)
        | _ => s
        end
    | PositionArrives i position =>
        match tasks s !! i with
        | Some (Locating success failure) =>
            begin
              match position with
              | JS.PositionSuccess latitude longitude => success latitude longitude
              | JS.PositionFailure message => failure message
              end
              (without i s)
        | _ => s
        end
    | _ => begin (handler vendorId (ui (world s)) e) s
    end
  else s.

Definition session_run (vendorId : string) (s : Session) (events : list Event)
  : Session :=
  fold_left (session_step vendorId) events s.

(** A page that waits for nothing. *)
Definition at_rest (w : World) : Session :=
  {| world := w; clock := ""; tasks := [] |}.

(** The world after the events, from a page that waits for nothing. *)
Definition run (vendorId : string) (w : World) (events : list Event) : World :=
  world (session_run vendorId (at_rest w) events).

(** *** The calls in progress

    A page waits for at most two things: the answer to the status query
    of its load, and one call of a handler that writes or asks for the
    position.  A [Phase] names where each of the two is, [session_of]
    gives the session a phase stands for, and [phase_step] tells the step
    of a session from one phase to the next. *)

Inductive Query : Type :=
| Asked
| Told (r : Response VendorOperationalStatus).

Inductive Call : Type :=
| UpdateSent (newStatus : VendorOperationalStatus)
| UpdateTold (newStatus : VendorOperationalStatus) (error : option Error)
| InsertSent (locationNotes : string) (latitude longitude : float)
    (address city state zip : option string)
| InsertTold (locationNotes : string) (latitude longitude : float)
    (address city state zip : option string) (r : Response Location)
| GoLiveSent (clock : string) (location : Location)
| GoLiveTold (clock : string) (location : Location) (error : option Error)
| PositionAsked (locationNotes : string).

Record Phase : Type := {
  page : World;
  time : string;
  query : option Query;
  call : option Call;
}.

(** The code after the actions it starts with. *)
Fixpoint pending (p : Prog) : Prog :=
  match p with
  | Do _ k => pending k
  | _ => p
  end.

(** The code that goes on from an answer, and from the clock. *)
Definition answer_select (p : Prog) (r : Response VendorOperationalStatus) : Prog :=
  match p with AwaitSelect _ k => k r | _ => p end.

Definition answer_insert (p : Prog) (r : Response Location) : Prog :=
  match p with AwaitInsert _ k => k r | _ => p end.

Definition answer_update (p : Prog) (error : option Error) : Prog :=
  match p with AwaitUpdate _ _ k => k error | _ => p end.

Definition at_clock (clock : string) (p : Prog) : Prog :=
  match p with Now k => k clock | _ => p end.

(** The code of [createLocationAndGoLive] from the answer of an insert
    that went through; it no longer depends on the arguments of the
    call. *)
Definition go_live_code (vendorId : string) (location : Location) : Prog :=
  answer_insert (createLocationAndGoLive vendorId "" 0 0 None None None None)
    {| data := Some location; error := None |}.

Definition query_code (vendorId : string) (q : Query) : Prog :=
  match q with
  | Asked => fetchStatus vendorId
  | Told r => answer_select (fetchStatus vendorId) r
  end.

Definition call_code (vendorId : string) (c : Call) : Prog :=
  match c with
  | UpdateSent newStatus => pending (updateStatus vendorId newStatus)
  | UpdateTold newStatus error =>
      answer_update (pending (updateStatus vendorId newStatus)) error
  | InsertSent locationNotes latitude longitude address city state zip =>
      createLocationAndGoLive vendorId locationNotes latitude longitude
        address city state zip
  | InsertTold locationNotes latitude longitude address city state zip r =>
      answer_insert
        (createLocationAndGoLive vendorId locationNotes latitude longitude
           address city state zip) r
  | GoLiveSent clock location => at_clock clock (go_live_code vendorId location)
  | GoLiveTold clock location error =>
      answer_update (at_clock clock (go_live_code vendorId location)) error
  | PositionAsked locationNotes => pending (goLiveWithGPS vendorId locationNotes true)
  end.

Definition query_task (vendorId : string) (q : Query) : Task :=
  match q with
  | Asked => Requested (query_code vendorId q)
  | Told _ => Answered (query_code vendorId q)
  end.

Definition call_task (vendorId : string) (c : Call) : Task :=
  match c with
  | UpdateSent _ | InsertSent _ _ _ _ _ _ _ | GoLiveSent _ _ =>
      Requested (call_code vendorId c)
  | UpdateTold _ _ | InsertTold _ _ _ _ _ _ _ _ | GoLiveTold _ _ _ =>
      Answered (call_code vendorId c)
  | PositionAsked _ =>
      match call_code vendorId c with
      | GetCurrentPosition success failure _ => Locating success failure
      | p => Requested p
      end
  end.

Definition session_of (vendorId : string) (a : Phase) : Session :=
  {| world := page a;
     clock := time a;
     tasks := option_list (query_task vendorId <$> query a) ++
              option_list (call_task vendorId <$> call a) |}.

(** The task an index names. *)
Inductive Slot : Type := QuerySlot | CallSlot | NoSlot.

Definition slot (a : Phase) (i : nat) : Slot :=
  match query a, call a, i with
  | Some _, _, O => QuerySlot
  | Some _, Some _, S O => CallSlot
  | None, Some _, O => CallSlot
  | _, _, _ => NoSlot
  end.

(** The call a control starts, at the render the user sees. *)
Definition started (c : Component) (e : Event) : option Call :=
  match e with
  | ClickStatusButton =>
      match status c with
      | offline => None
      | live => Some (UpdateSent closing_soon)
      | closing_soon => Some (UpdateSent offline)
      end
  | ClickUseGPS geolocation =>
      if geolocation then Some (PositionAsked (locationNotes c)) else None
  | ClickGoLiveHere =>
      match selectedLocation c with
      | Some selected =>
          Some (InsertSent (locationNotes c)
                  (sel_latitude selected) (sel_longitude selected)
                  (Some (sel_address selected)) (sel_city selected)
                  (sel_state selected) (sel_zip selected))
      | None => None
      end
  | _ => None
  end.

(** The row [createLocationAndGoLive] inserts. *)
Definition go_live_row (vendorId : string) (locationNotes : string)
    (latitude longitude : float) (address city state zip : option string)
  : LocationInsert :=
  {| ins_vendor_id := vendorId;
     ins_latitude := latitude;
     ins_longitude := longitude;
     ins_address := JS.or_undefined address;
     ins_city := JS.or_undefined city;
     ins_state := JS.or_undefined state;
     ins_zip := JS.or_undefined zip;
     ins_notes := JS.or_undefined (Some locationNotes);
     ins_is_current_location := true |}.

(** The [updates] object of [updateStatus]. *)
Definition updates_for (newStatus : VendorOperationalStatus) : StatusUpdate :=
  if status_eqb newStatus offline then
    {| u_operational_status := newStatus;
       u_went_live_at := Some None;
       u_current_location_id := Some None |}
  else
    {| u_operational_status := newStatus;
       u_went_live_at := None;
       u_current_location_id := None |}.

(** The update [createLocationAndGoLive] sends at [clock] for the new row
    [new_id]. *)
Definition go_live_update (clock : string) (new_id : string) : StatusUpdate :=
  {| u_operational_status := live;
     u_went_live_at := Some (Some clock);
     u_current_location_id := Some (Some new_id) |}.

(** The store handles the call of the phase [c]. *)
Definition call_handled (env : Env) (vendorId : string) (c : Call) (w : World)
  : Call * World :=
  match c with
  | UpdateSent newStatus =>
      let '(error, w') :=
        vendor_status_update env vendorId (updates_for newStatus) w in
      (UpdateTold newStatus error, w')
  | InsertSent locationNotes latitude longitude address city state zip =>
      let '(r, w') :=
        locations_insert env
          (go_live_row vendorId locationNotes latitude longitude
             address city state zip) w in
      (InsertTold locationNotes latitude longitude address city state zip r, w')
  | GoLiveSent clock location =>
      let '(error, w') :=
        vendor_status_update env vendorId
          (go_live_update clock (loc_id location)) w in
      (GoLiveTold clock location error, w')
  | _ => (c, w)
  end.

(** The phase a call is in once its answer has reached the page. *)
Definition call_resumed (clock : string) (c : Call) : option Call :=
  match c with
  | InsertTold _ _ _ _ _ _ _ r =>
      match error r, data r with
      | None, Some location => Some (GoLiveSent clock location)
      | _, _ => None
      end
  | _ => None
  end.

Definition phase_step (vendorId : string) (a : Phase) (e : Event) : Phase :=
  if enabled (ui (page a)) e then
    match e with
    | Mount =>
        {| page := with_ui (fun _ => initial_component) (page a);
           time := time a; query := Some Asked; call := None |}
    | Tick t =>
        {| page := page a; time := t; query := query a; call := call a |}
    | StoreHandles i env =>
        match slot a i, query a, call a with
        | QuerySlot, Some Asked, _ =>
            let '(r, w) := vendor_status_select env vendorId (page a) in
            {| page := w; time := time a; query := Some (Told r); call := call a |}
        | CallSlot, _, Some (PositionAsked _) => a
        | CallSlot, _, Some (UpdateTold _ _) => a
        | CallSlot, _, Some (InsertTold _ _ _ _ _ _ _ _) => a
        | CallSlot, _, Some (GoLiveTold _ _ _) => a
        | CallSlot, _, Some c =>
            let '(c', w) := call_handled env vendorId c (page a) in
            {| page := w; time := time a; query := query a; call := Some c' |}
        | _, _, _ => a
        end
    | AnswerArrives i =>
        match slot a i, query a, call a with
        | QuerySlot, Some (Told r), _ =>
            {| page := fst (advance (time a) (query_code vendorId (Told r)) (page a));
               time := time a; query := None; call := call a |}
        | CallSlot, _, Some (PositionAsked _) => a
        | CallSlot, _, Some (UpdateSent _) => a
        | CallSlot, _, Some (InsertSent _ _ _ _ _ _ _) => a
        | CallSlot, _, Some (GoLiveSent _ _) => a
        | CallSlot, _, Some c =>
            {| page := fst (advance (time a) (call_code vendorId c) (page a));
               time := time a; query := query a;
               call := call_resumed (time a) c |}
        | _, _, _ => a
        end
    | PositionArrives i position =>
        match slot a i, call a with
        | CallSlot, Some (PositionAsked locationNotes) =>
            match position with
            | JS.PositionSuccess latitude longitude =>
                {| page := page a; time := time a; query := query a;
                   call := Some (InsertSent locationNotes latitude longitude
                                   None None None None) |}
            | JS.PositionFailure message =>
                {| page :=
                     fst (advance (time a)
                            (match call_code vendorId (PositionAsked locationNotes) with
                             | GetCurrentPosition _ failure _ => failure message
                             | p => p
                             end) (page a));
                   time := time a; query := query a; call := None |}
            end
        | _, _ => a
        end
    | _ =>
        {| page := fst (advance (time a) (handler vendorId (ui (page a)) e) (page a));
           time := time a; query := query a;
           call := match started (ui (page a)) e with
                   | Some c => Some c
                   | None => call a
                   end |}
    end
  else a.

(** A handler that writes is in progress only while the component is
    [loading]. *)
Definition one_call (a : Phase) : Prop :=
  is_Some (call a) -> loading (ui (page a)) = true.

(** The phase of a page that waits for nothing. *)
Definition resting (w : World) : Phase :=
  {| page := w; time := ""; query := None; call := None |}.

Definition phase_run (vendorId : string) (a : Phase) (events : list Event) : Phase :=
  fold_left (phase_step vendorId) events a.

(** The row the onboarding form inserts into [vendor_status]. *)
Definition onboarding_row (vendorId : string) : VendorStatus :=
  {| vs_vendor_id := vendorId;
     vs_is_live := false;
     vs_operational_status := offline;
     vs_went_live_at := None;
     vs_current_location_id := None |}.

(** *** Vocabulary of the properties *)

(** The vendor's row of [vendor_status]. *)
Definition stored (vendorId : string) (w : World) : option VendorStatus :=
  vendor_status (database w) !! vendorId.

(** The three edges of the status cycle. *)
Definition cycle_next (s : VendorOperationalStatus) : VendorOperationalStatus :=
  match s with
  | offline => live
  | live => closing_soon
  | closing_soon => offline
  end.

Definition is_serving (s : VendorOperationalStatus) : bool :=
  negb (status_eqb s offline).

(** The stored status of the vendor is [s]. *)
Definition stored_status_is (vendorId : string) (w : World)
    (s : VendorOperationalStatus) : bool :=
  match stored vendorId w with
  | Some row => status_eqb (vs_operational_status row) s
  | None => false
  end.

(** The test [ok] passes at every event of the list, each taken at the
    session the events before it lead to. *)
Fixpoint throughout (ok : Session -> Event -> bool) (vendorId : string)
    (s : Session) (events : list Event) : bool :=
  match events with
  | [] => true
  | e :: rest => ok s e && throughout ok vendorId (session_step vendorId s e) rest
  end.

(** A press of the status button finds the display showing the stored
    status. *)
Definition pressed_in_sync (vendorId : string) (s : Session) (e : Event) : bool :=
  match e with
  | ClickStatusButton =>
      negb (enabled (ui (world s)) e) ||
      stored_status_is vendorId (world s) (status (ui (world s)))
  | _ => true
  end.

(** A press of the status button on a display that shows [live] does not
    find [offline] stored. *)
Definition closes_a_serving_row (vendorId : string) (s : Session) (e : Event) : bool :=
  match e with
  | ClickStatusButton =>
      negb (enabled (ui (world s)) e) ||
      negb (status_eqb (status (ui (world s))) live) ||
      negb (stored_status_is vendorId (world s) offline)
  | _ => true
  end.

(** The page is not loaded anew while a handler that writes is in
    progress (whether the store still handles a call that was on its way
    when the page went is not the page's to tell). *)
Definition loaded_when_idle (s : Session) (e : Event) : bool :=
  match e with
  | Mount => negb (loading (ui (world s)))
  | _ => true
  end.

(** Both tests pass. *)
Definition both (ok1 ok2 : Session -> Event -> bool) (s : Session) (e : Event)
  : bool :=
  ok1 s e && ok2 s e.

(** No page load and no position among the events. *)
Definition keeps_waiting (e : Event) : bool :=
  match e with
  | Mount | PositionArrives _ _ => false
  | _ => true
  end.

(** The call in progress fits the stored status [stored_status] and the
    state [prompt] of the location prompt: a status update that is on its
    way writes the next status of the cycle; a go-live is in progress, or
    can be started from the open prompt, only over a stored [offline]. *)
Definition call_fits (stored_status : VendorOperationalStatus) (prompt : bool)
    (c : option Call) : Prop :=
  match c with
  | None => prompt = true -> stored_status = offline
  | Some (UpdateSent newStatus) =>
      newStatus = cycle_next stored_status /\ prompt = false
  | Some (UpdateTold _ _) => prompt = false
  | Some (GoLiveTold _ _ error) => is_Some error -> stored_status = offline
  | Some _ => stored_status = offline
  end.

(** A status update that is on its way and keeps the location is on its
    way to a row that has one. *)
Definition call_keeps_location (stored_status : VendorOperationalStatus)
    (c : option Call) : Prop :=
  match c with
  | Some (UpdateSent newStatus) =>
      newStatus <> offline -> stored_status <> offline
  | _ => True
  end.

(** The location row a go-live in progress has been answered with is a
    row of [locations] and belongs to the vendor. *)
Definition call_located (vendorId : string) (rows : list Location)
    (c : option Call) : Prop :=
  match c with
  | Some (GoLiveSent _ location) | Some (GoLiveTold _ location _) =>
      location ∈ rows /\ loc_vendor_id location = vendorId
  | Some (InsertTold _ _ _ _ _ _ _ r) =>
      forall location, data r = Some location ->
                       location ∈ rows /\ loc_vendor_id location = vendorId
  | _ => True
  end.

(** [current_location_id] and [went_live_at] are set exactly in the states
    [live] and [closing_soon]. *)
Definition row_consistent (row : VendorStatus) : bool :=
  Bool.eqb (bool_decide (is_Some (vs_current_location_id row)))
           (is_serving (vs_operational_status row)) &&
  Bool.eqb (bool_decide (is_Some (vs_went_live_at row)))
           (is_serving (vs_operational_status row)).

End GoLiveButton.

(** ** [src/app/search/page.tsx]: the filter controls *)
Module SearchControls.
Import Types Exec Search.

Definition cuisineOptions : list string :=
  ["American"; "Mexican"; "Italian"; "Asian"; "BBQ";
   "Seafood"; "Vegetarian"; "Vegan"; "Desserts"; "Coffee/Beverages"].

Definition setSelectedCuisines (l : list string) : M Page unit :=
  modify (fun p => {| vendors := vendors p; loading := loading p;
                      userLocation := userLocation p;
                      selectedCuisines := l;
                      showLiveOnly := showLiveOnly p; console := console p |}).

Definition setShowLiveOnly (b : bool) : M Page unit :=
  modify (fun p => {| vendors := vendors p; loading := loading p;
                      userLocation := userLocation p;
                      selectedCuisines := selectedCuisines p;
                      showLiveOnly := b; console := console p |}).

Definition toggleCuisine (cuisine : string) : M Page unit :=
  (let* p := get in
   if includes (selectedCuisines p) cuisine then
     setSelectedCuisines
       (List.filter (fun c => negb (String.eqb c cuisine)) (selectedCuisines p))
   else
     setSelectedCuisines (selectedCuisines p ++ [cuisine]))%exec.

(** The cuisine buttons pressed one after the other. *)
Definition toggleAll (cuisines : list string) (p : Page) : Page :=
  fold_left (fun q cuisine => snd (toggleCuisine cuisine q)) cuisines p.

End SearchControls.

(** ** [components/LocationSearch.tsx] *)
Module LocationSearch.
Import Types Exec.

(** A place as the autocomplete widget reports it, with the three fields
    the component asks for. *)
Record AddressComponent : Type := {
  long_name : string;
  short_name : string;
  types : list string;
}.

Record Geometry : Type := {
  location : option (float * float);
}.

Record PlaceResult : Type := {
  geometry : option Geometry;
  address_components : option (list AddressComponent);
  formatted_address : option string;
}.

(** [LocationResult] has the shape of the button's [SelectedLocation]; the
    button passes its [setSelectedLocation] as [onLocationSelect]. *)
Definition LocationResult : Type := GoLiveButton.SelectedLocation.

(** One round of the [forEach] over the address components, on the
    variables [city], [state] and [zip]. *)
Definition read_component (acc : string * string * string)
    (component : AddressComponent) : string * string * string :=
  let '(city, state, zip) := acc in
  let city :=
    if Search.includes (types component) "locality"
    then long_name component else city in
  let state :=
    if Search.includes (types component) "administrative_area_level_1"
    then short_name component else state in
  let zip :=
    if Search.includes (types component) "postal_code"
    then long_name component else zip in
  (city, state, zip).

Definition read_components (components : option (list AddressComponent))
  : string * string * string :=
  fold_left read_component (default [] components) ("", "", "").

(** The [place_changed] listener. *)
Definition place_changed
    (onLocationSelect : LocationResult -> GoLiveButton.Prog)
    (place : PlaceResult) : GoLiveButton.Prog :=
  match geometry place with
  | None => GoLiveButton.alert "No details available for this location"
  | Some g =>
      match location g with
      | None => GoLiveButton.alert "No details available for this location"
      | Some (lat, lng) =>
          let '(city, state, zip) := read_components (address_components place) in
          onLocationSelect
            {| GoLiveButton.sel_address := default "" (formatted_address place);
               GoLiveButton.sel_latitude := lat;
               GoLiveButton.sel_longitude := lng;
               GoLiveButton.sel_city := Some city;
               GoLiveButton.sel_state := Some state;
               GoLiveButton.sel_zip := Some zip |}
      end
  end.

(** The listener as mounted in the search form of the button. *)
Definition selectPlace (place : PlaceResult) : GoLiveButton.Prog :=
  place_changed (fun l => GoLiveButton.setSelectedLocation (Some l)) place.

(** The name a list of components gives for a type: that of the last
    component of the type, the empty string when there is none. *)
Definition last_of_type (name : AddressComponent -> string) (type : string)
    (components : list AddressComponent) : string :=
  default "" (name <$> last (List.filter (fun c => Search.includes (types c) type)
                               components)).

(** *** Loading the widget's script *)

(** The module's three globals, what the browser holds, and the
    [isReady] and [autocompleteRef] cells of the mounted components, which
    are numbered.  A script element remembers the component that appended
    it: its [onload] and [onerror] close over that component.
    [places_available] stands for [window.google] and for
    [window.google.maps.places] alike, which the script defines together;
    the input element of a component is in the page whenever one of its
    callbacks runs. *)
Record Loader : Type := {
  places_available : bool;
  isScriptLoaded : bool;
  isScriptLoading : bool;
  scriptCallbacks : list nat;
  pending_scripts : list nat;
  isReady : gset nat;
  autocompleteRef : gset nat;
  loader_console : list string;
}.

Definition setIsReady (i : nat) (s : Loader) : Loader :=
  {| places_available := places_available s;
     isScriptLoaded := isScriptLoaded s;
     isScriptLoading := isScriptLoading s;
     scriptCallbacks := scriptCallbacks s;
     pending_scripts := pending_scripts s;
     isReady := {[i]} ∪ isReady s;
     autocompleteRef := autocompleteRef s;
     loader_console := loader_console s |}.

(** [initAutocomplete]: nothing without the library or when the widget is
    already there. *)
Definition initAutocomplete (i : nat) (s : Loader) : Loader :=
  if negb (places_available s) || bool_decide (i ∈ autocompleteRef s) then s
  else
    {| places_available := places_available s;
       isScriptLoaded := isScriptLoaded s;
       isScriptLoading := isScriptLoading s;
       scriptCallbacks := scriptCallbacks s;
       pending_scripts := pending_scripts s;
       isReady := isReady s;
       autocompleteRef := {[i]} ∪ autocompleteRef s;
       loader_console := loader_console s |}.

Definition loader_error (line : string) (s : Loader) : Loader :=
  {| places_available := places_available s;
     isScriptLoaded := isScriptLoaded s;
     isScriptLoading := isScriptLoading s;
     scriptCallbacks := scriptCallbacks s;
     pending_scripts := pending_scripts s;
     isReady := isReady s;
     autocompleteRef := autocompleteRef s;
     loader_console := loader_console s ++ [line] |}.

(** The effect of a mounting component [i]. *)
Definition loadGoogleMaps (apiKey : option string) (i : nat) (s : Loader) : Loader :=
  if negb (JS.truthy apiKey) then loader_error "Google Maps API key is missing" s
  else if places_available s then initAutocomplete i (setIsReady i s)
  else if isScriptLoading s then
    {| places_available := places_available s;
       isScriptLoaded := isScriptLoaded s;
       isScriptLoading := isScriptLoading s;
       scriptCallbacks := scriptCallbacks s ++ [i];
       pending_scripts := pending_scripts s;
       isReady := isReady s;
       autocompleteRef := autocompleteRef s;
       loader_console := loader_console s |}
  else if negb (isScriptLoaded s) && negb (isScriptLoading s) then
    {| places_available := places_available s;
       isScriptLoaded := isScriptLoaded s;
       isScriptLoading := true;
       scriptCallbacks := scriptCallbacks s;
       pending_scripts := pending_scripts s ++ [i];
       isReady := isReady s;
       autocompleteRef := autocompleteRef s;
       loader_console := loader_console s |}
  else s.

(** [script.onload] of the script appended by [i]: the browser has run the
    script, so the library is there. *)
Definition script_onload (i : nat) (s : Loader) : Loader :=
  let loaded :=
    {| places_available := true;
       isScriptLoaded := true;
       isScriptLoading := false;
       scriptCallbacks := scriptCallbacks s;
       pending_scripts := pending_scripts s;
       isReady := isReady s;
       autocompleteRef := autocompleteRef s;
       loader_console := loader_console s |} in
  let after_own := initAutocomplete i (setIsReady i loaded) in
  let after_queue :=
    fold_left (fun t j => initAutocomplete j (setIsReady j t))
      (scriptCallbacks after_own) after_own in
  {| places_available := places_available after_queue;
     isScriptLoaded := isScriptLoaded after_queue;
     isScriptLoading := isScriptLoading after_queue;
     scriptCallbacks := [];
     pending_scripts := pending_scripts after_queue;
     isReady := isReady after_queue;
     autocompleteRef := autocompleteRef after_queue;
     loader_console := loader_console after_queue |}.

Definition script_onerror (s : Loader) : Loader :=
  loader_error "Failed to load Google Maps script"
    {| places_available := places_available s;
       isScriptLoaded := isScriptLoaded s;
       isScriptLoading := false;
       scriptCallbacks := scriptCallbacks s;
       pending_scripts := pending_scripts s;
       isReady := isReady s;
       autocompleteRef := autocompleteRef s;
       loader_console := loader_console s |}.

Inductive LoaderEvent : Type :=
| ComponentMounts (apiKey : option string) (i : nat)
| ScriptLoads
| ScriptFails.

(** The browser fires [onload] or [onerror] once for the oldest script
    element still waiting, and takes it off the waiting list. *)
Definition drop_script (s : Loader) : Loader :=
  {| places_available := places_available s;
     isScriptLoaded := isScriptLoaded s;
     isScriptLoading := isScriptLoading s;
     scriptCallbacks := scriptCallbacks s;
     pending_scripts := tl (pending_scripts s);
     isReady := isReady s;
     autocompleteRef := autocompleteRef s;
     loader_console := loader_console s |}.

Definition loader_step (s : Loader) (e : LoaderEvent) : Loader :=
  match e with
  | ComponentMounts apiKey i => loadGoogleMaps apiKey i s
  | ScriptLoads =>
      match pending_scripts s with
      | [] => s
      | i :: _ => script_onload i (drop_script s)
      end
  | ScriptFails =>
      match pending_scripts s with
      | [] => s
      | _ :: _ => script_onerror (drop_script s)
      end
  end.

Definition loader_run (s : Loader) (events : list LoaderEvent) : Loader :=
  fold_left loader_step events s.

(** The module as first evaluated: nothing loaded, nobody waiting. *)
Definition loader_initial : Loader :=
  {| places_available := false; isScriptLoaded := false; isScriptLoading := false;
     scriptCallbacks := []; pending_scripts := []; isReady := ∅;
     autocompleteRef := ∅; loader_console := [] |}.

(** The flags and the waiting list agree, the library is there exactly
    when the script has loaded, nobody waits once it is there, and a
    component is ready exactly when it has its widget. *)
Definition loader_consistent_prop (s : Loader) : Prop :=
  length (pending_scripts s) = (if isScriptLoading s then 1 else 0)%nat /\
  places_available s = isScriptLoaded s /\
  (places_available s = true -> scriptCallbacks s = []) /\
  (places_available s = false -> isReady s = ∅) /\
  isReady s = autocompleteRef s.

End LocationSearch.

(** ** [src/app/vendor/onboarding/page.tsx] *)
Module Onboarding.
Import Types Exec.

(** The signed-in user, as far as the form reads it. *)
Record User : Type := {
  user_id : string;
  user_email : option string;
}.

(** The object given to [.from('vendors').insert(...)]. *)
Record VendorInsert : Type := {
  vi_user_id : string;
  vi_business_name : string;
  vi_description : string;
  vi_cuisine_types : list string;
  vi_phone : string;
  vi_email : option string;
  vi_subscription_tier : string;
  vi_subscription_status : string;
}.

(** The object given to [.from('vendor_status').insert(...)]. *)
Record StatusInsert : Type := {
  si_vendor_id : string;
  si_is_live : bool;
  si_operational_status : VendorOperationalStatus;
}.

Inductive StoreCall : Type :=
| InsertVendor (row : VendorInsert)
| InsertStatus (row : StatusInsert)
| UpdateProfileRole (id role : string).

(** The three tables the form writes: vendors with the id the store gave
    them, status rows by vendor id, and the role column of [profiles]. *)
Record Tables : Type := {
  vendors : list (string * VendorInsert);
  vendor_status : gmap string VendorStatus;
  profile_role : gmap string string;
}.

Record Form : Type := {
  loading : bool;
  error : string;
  businessName : string;
  description : string;
  cuisineTypes : list string;
  phone : string;
  email : string;
}.

Record World : Type := {
  form : Form;
  user : option User;
  tables : Tables;
  calls : list StoreCall;
  alerts : list string;
  console : list string;
  pushed : list string;
}.

(** What the outside answers during one submit: whether each call goes
    through (the vendor insert is answered with the new vendor's id), and
    whether the error objects of the store are instances of [Error]. *)
Record Env : Type := {
  vendor_outcome : GoLiveButton.Outcome string;
  status_outcome : GoLiveButton.Outcome unit;
  profile_outcome : GoLiveButton.Outcome unit;
  store_error_instanceof_Error : bool;
}.

Definition with_form (f : Form -> Form) : M World unit :=
  modify (fun w => {| form := f (form w); user := user w; tables := tables w;
                      calls := calls w; alerts := alerts w; console := console w;
                      pushed := pushed w |}).

Definition setError (s : string) : M World unit :=
  with_form (fun f => {| loading := loading f; error := s;
                         businessName := businessName f;
                         description := description f;
                         cuisineTypes := cuisineTypes f;
                         phone := phone f; email := email f |}).

Definition setLoading (b : bool) : M World unit :=
  with_form (fun f => {| loading := b; error := error f;
                         businessName := businessName f;
                         description := description f;
                         cuisineTypes := cuisineTypes f;
                         phone := phone f; email := email f |}).

Definition alert (message : string) : M World unit :=
  modify (fun w => {| form := form w; user := user w; tables := tables w;
                      calls := calls w; alerts := alerts w ++ [message];
                      console := console w; pushed := pushed w |}).

(** [console.log] and [console.error], by their first argument. *)
Definition console_line (line : string) : M World unit :=
  modify (fun w => {| form := form w; user := user w; tables := tables w;
                      calls := calls w; alerts := alerts w;
                      console := console w ++ [line]; pushed := pushed w |}).

Definition router_push (path : string) : M World unit :=
  modify (fun w => {| form := form w; user := user w; tables := tables w;
                      calls := calls w; alerts := alerts w; console := console w;
                      pushed := pushed w ++ [path] |}).

Definition record_call (c : StoreCall) (t : Tables) : M World unit :=
  modify (fun w => {| form := form w; user := user w; tables := t;
                      calls := calls w ++ [c]; alerts := alerts w;
                      console := console w; pushed := pushed w |}).

(** [.from('vendors').insert(row).select().single()]: answered with the
    id of the new row. *)
Definition vendors_insert (env : Env) (row : VendorInsert)
  : M World (Response string) :=
  (let* w := get in
   match vendor_outcome env with
   | GoLiveButton.Done new_id =>
       record_call (InsertVendor row)
         {| vendors := vendors (tables w) ++ [(new_id, row)];
            vendor_status := vendor_status (tables w);
            profile_role := profile_role (tables w) |} >>
       ret {| data := Some new_id; Exec.error := None |}
   | GoLiveButton.Failed e =>
       record_call (InsertVendor row) (tables w) >>
       ret {| data := None; Exec.error := Some e |}
   end)%exec.

(** The row a status insert creates: the columns the object leaves out
    are [null]. *)
Definition inserted_status (row : StatusInsert) : VendorStatus :=
  {| vs_vendor_id := si_vendor_id row;
     vs_is_live := si_is_live row;
     vs_operational_status := si_operational_status row;
     vs_went_live_at := None;
     vs_current_location_id := None |}.

(** [.from('vendor_status').insert(row)] *)
Definition vendor_status_insert (env : Env) (row : StatusInsert)
  : M World (option Error) :=
  (let* w := get in
   match status_outcome env with
   | GoLiveButton.Done _ =>
       record_call (InsertStatus row)
         {| vendors := vendors (tables w);
            vendor_status :=
              <[si_vendor_id row := inserted_status row]> (vendor_status (tables w));
            profile_role := profile_role (tables w) |} >>
       ret None
   | GoLiveButton.Failed e =>
       record_call (InsertStatus row) (tables w) >> ret (Some e)
   end)%exec.

(** [.from('profiles').update({ role }).eq('id', id)] *)
Definition profiles_update_role (env : Env) (id role : string)
  : M World (option Error) :=
  (let* w := get in
   match profile_outcome env with
   | GoLiveButton.Done _ =>
       record_call (UpdateProfileRole id role)
         {| vendors := vendors (tables w);
            vendor_status := vendor_status (tables w);
            profile_role := alter (fun _ => role) id (profile_role (tables w)) |} >>
       ret None
   | GoLiveButton.Failed e =>
       record_call (UpdateProfileRole id role) (tables w) >> ret (Some e)
   end)%exec.

(** [err instanceof Error ? err.message : 'Failed to create vendor profile'] *)
Definition error_text (env : Env) (err : Error) : string :=
  match err with
  | TypeError m => m
  | StoreError m =>
      if store_error_instanceof_Error env then m
      else "Failed to create vendor profile"
  end.

(** [if (error) { console.error(label, error); throw error }] *)
Definition report_and_throw (label : string) (error : option Error) : M World unit :=
  match error with
  | Some e => (console_line label >> throw e)%exec
  | None => ret tt
  end.

Definition handleSubmit (env : Env) : M World unit :=
  (setError "" >>
   setLoading true >>
   let* w := get in
   match user w with
   | None => setError "You must be logged in" >> setLoading false
   | Some u =>
       if (length (cuisineTypes (form w)) =? 0)%nat then
         setError "Please select at least one cuisine type" >> setLoading false
       else
         try_finally
           (try_catch
              (console_line "Creating vendor profile..." >>
               let* r :=
                 vendors_insert env
                   {| vi_user_id := user_id u;
                      vi_business_name := businessName (form w);
                      vi_description := description (form w);
                      vi_cuisine_types := cuisineTypes (form w);
                      vi_phone := phone (form w);
                      vi_email :=
                        if JS.truthy (Some (email (form w)))
                        then Some (email (form w)) else user_email u;
                      vi_subscription_tier := "basic";
                      vi_subscription_status := "trialing" |} in
               console_line "Vendor creation result:" >>
               report_and_throw "Vendor error details:" (Exec.error r) >>
               match data r with
               | None => throw (TypeError "vendor is null")
               | Some vendor_id =>
                   console_line "Creating vendor status..." >>
                   let* statusError :=
                     vendor_status_insert env
                       {| si_vendor_id := vendor_id;
                          si_is_live := false;
                          si_operational_status := offline |} in
                   console_line "Status creation result:" >>
                   report_and_throw "Status error details:" statusError >>
                   console_line "Updating profile role..." >>
                   let* profileError := profiles_update_role env (user_id u) "vendor" in
                   console_line "Profile update result:" >>
                   report_and_throw "Profile error details:" profileError >>
                   alert "Vendor profile created successfully!" >>
                   router_push "/dashboard"
               end)
              (fun err =>
                 console_line "Caught error:" >>
                 console_line "Error type:" >>
                 console_line "Error keys:" >>
                 setError (error_text env err)))
           (setLoading false)
   end)%exec.

(** The vendor row the form sends for the user [u]. *)
Definition vendor_row (w : World) (u : User) : VendorInsert :=
  {| vi_user_id := user_id u;
     vi_business_name := businessName (form w);
     vi_description := description (form w);
     vi_cuisine_types := cuisineTypes (form w);
     vi_phone := phone (form w);
     vi_email :=
       if JS.truthy (Some (email (form w))) then Some (email (form w))
       else user_email u;
     vi_subscription_tier := "basic";
     vi_subscription_status := "trialing" |}.

Definition status_row (vendor_id : string) : StatusInsert :=
  {| si_vendor_id := vendor_id; si_is_live := false;
     si_operational_status := offline |}.

End Onboarding.

(** ** The menu page: grouping the items for display *)
Module MenuPage.
Import Types Exec.

(** [MenuItem] of [types/vendor.ts], without the timestamps and the
    display order, which the grouping does not read. *)
Record MenuItem : Type := {
  item_id : string;
  item_menu_id : string;
  item_name : string;
  item_description : option string;
  item_price : float;
  item_category : option string;
  item_dietary_tags : option (list string);
  item_is_available : bool;
}.

(** [item.category || 'Other'] *)
Definition category_of (item : MenuItem) : string :=
  default "Other" (JS.or_undefined (item_category item)).

(** The property names an object literal inherits from
    [Object.prototype]; every one of them reads as a function or an object,
    none of which has a [push]. *)
Definition object_prototype_names : list string :=
  ["constructor"; "__defineGetter__"; "__defineSetter__"; "hasOwnProperty";
   "__lookupGetter__"; "__lookupSetter__"; "isPrototypeOf";
   "propertyIsEnumerable"; "toString"; "valueOf"; "__proto__";
   "toLocaleString"].

Section Reduce.
(** The inherited names are a parameter of the grouping. *)
Context (inherited : string -> bool).

(** One round of the [reduce]: [acc] holds the own properties of the
    accumulator object.  Reading [acc[category]] finds an own property, or
    else an inherited one, which is truthy, so that no array is created and
    the [push] that follows throws. *)
Definition group_item (acc : gmap string (list MenuItem)) (item : MenuItem)
  : Result (gmap string (list MenuItem)) :=
  let category := category_of item in
  match acc !! category with
  | Some items => Ok (<[category := items ++ [item]]> acc)
  | None =>
      if inherited category
      then Throw (TypeError "acc[category].push is not a function")
      else Ok (<[category := [item]]> acc)
  end.

Definition itemsByCategory (menuItems : list MenuItem)
  : Result (gmap string (list MenuItem)) :=
  fold_left
    (fun r item =>
       match r with
       | Ok acc => group_item acc item
       | Throw e => Throw e
       end)
    menuItems (Ok ∅).

End Reduce.

(** The items of one category, in the order of the list. *)
Definition items_of (category : string) (menuItems : list MenuItem) : list MenuItem :=
  List.filter (fun item => String.eqb (category_of item) category) menuItems.

End MenuPage.

(** ** Concrete data used to exercise the definitions *)
(** ** Concrete data used to exercise the definitions *)
Module Scenario.
Import Types Exec.
Open Scope float_scope.

(** An engine: the sines, cosines and arc tangents the GNU
    C library returns at the arguments the scenarios below come to, and [NaN]
    elsewhere. *)
Definition sin_table : list (float * float) :=
  [ ((-0x1.921fb54442d18p+0), (-0x1.0000000000000p+0));
    ((-0x1.6e6127ff9d971p+0), (-0x1.fb046a930947ap-1));
    ((-0x1.287a564b64f1bp-14), (-0x1.287a5647408ddp-14));
    ((-0x1.d4821ce8efe44p-17), (-0x1.d4821ce8ae826p-17));
    (0x1.d4821ce8efe44p-17, 0x1.d4821ce8ae826p-17);
    (0x1.287a564b64f1bp-14, 0x1.287a5647408ddp-14);
    (0x1.6e05a695f8e6fp-14, 0x1.6e05a68e2d974p-14);
    (0x1.1df46a2529d39p-7, 0x1.1df37c4954c21p-7);
    (0x1.80f5451ab8dbcp-1, 0x1.5db30f7070dfbp-1);
    (0x1.6e6127ff9d971p+0, 0x1.fb046a930947ap-1);
    (0x1.921fb54442d18p+0, 0x1.0000000000000p+0);
    (0x1.0bde34f16b771p+3, 0x1.bd1c94ea0fb72p-1) ].

Definition cos_table : list (float * float) :=
  [ ((-0x1.6e6127ff9d971p+0), 0x1.1d06c968d9e1ap-3);
    ((-0x1.6e55b7d268e75p+0), 0x1.1d616690291d7p-3);
    ((-0x1.69e9565708efcp+0), 0x1.4060b67a85377p-3);
    (0x1.635fb38ac2e20p-1, 0x1.898ab73f1d0dap-1);
    (0x1.63635c8efcb3dp-1, 0x1.89885fd71b091p-1);
    (0x1.6e6127ff9d971p+0, 0x1.1d06c968d9e1ap-3);
    (0x1.16f9328dc18e2p+4, 0x1.4060b67a8533dp-3) ].

Definition atan2_table : list (float * float * float) :=
  [ (0x1.1df37c4954c21p-7, 0x1.fffb02599c9cdp-1, 0x1.1df46a2529d39p-7);
    (0x1.6e05a68e2d974p-14, 0x1.ffffffdf4abd7p-1, 0x1.6e05a695f8e6fp-14);
    (0x1.d692638708fdep-15, 0x1.fffffff27c089p-1, 0x1.d692638b2cfe6p-15);
    (0x1.cd556379db976p-1, 0x1.bc24272d25ea6p-2, 0x1.1f4648138a632p+0) ].

Fixpoint tabulated (table : list (float * float)) (x : float) : float :=
  match table with
  | [] => nan
  | (argument, value) :: rest =>
      if Leibniz.eqb argument x then value else tabulated rest x
  end.

Fixpoint tabulated2 (table : list (float * float * float)) (y x : float) : float :=
  match table with
  | [] => nan
  | (argument_y, argument_x, value) :: rest =>
      if Leibniz.eqb argument_y y && Leibniz.eqb argument_x x then value
      else tabulated2 rest y x
  end.

Definition libm : JS.Math :=
  {| JS.approx_sin := tabulated sin_table;
     JS.approx_cos := tabulated cos_table;
     JS.approx_atan2 := tabulated2 atan2_table |}.

Definition taco_row : Search.VendorRow :=
  {| Search.vr_id := "v1"; Search.vr_business_name := "Taco Truck";
     Search.vr_description := "Street tacos";
     Search.vr_cuisine_types := Some ["Mexican"; "BBQ"];
     Search.vr_logo_url := None |}.

Definition pasta_row : Search.VendorRow :=
  {| Search.vr_id := "v2"; Search.vr_business_name := "Pasta Cart";
     Search.vr_description := "Fresh pasta";
     Search.vr_cuisine_types := Some ["Italian"];
     Search.vr_logo_url := None |}.


Definition not_found {A} : Response A :=
  {| data := None; error := Some (StoreError "PGRST116") |}.

(** One approved vendor, and no row for it in [vendor_status]. *)
Definition store_without_status : Search.Store :=
  {| Search.vendors_select := {| data := Some [taco_row]; error := None |};
     Search.vendor_status_select := {| data := Some []; error := None |};
     Search.locations_single := fun _ => not_found |}.

(** Two vendors: the first serving at a known place, the second offline
    with a dangling location id. *)
Definition store_two_vendors : Search.Store :=
  {| Search.vendors_select := {| data := Some [pasta_row; taco_row]; error := None |};
     Search.vendor_status_select :=
       {| data := Some [ {| Search.sr_vendor_id := "v1";
                            Search.sr_operational_status := live;
                            Search.sr_current_location_id := Some "l1" |};
                         {| Search.sr_vendor_id := "v2";
                            Search.sr_operational_status := offline;
                            Search.sr_current_location_id := Some "gone" |} ];
          error := None |};
     Search.locations_single := fun location_id =>
       if String.eqb location_id "l1" then
         {| data := Some {| Search.lr_latitude := 39.77;
                            Search.lr_longitude := -86.15;
                            Search.lr_address := Some "";
                            Search.lr_notes := Some "Behind City Hall" |};
            error := None |}
       else not_found |}.

(** One serving vendor whose location row holds 999 as latitude, which is
    no latitude. *)
Definition store_out_of_range : Search.Store :=
  {| Search.vendors_select := {| data := Some [taco_row]; error := None |};
     Search.vendor_status_select :=
       {| data := Some [ {| Search.sr_vendor_id := "v1";
                            Search.sr_operational_status := live;
                            Search.sr_current_location_id := Some "l9" |} ];
          error := None |};
     Search.locations_single := fun _ =>
       {| data := Some {| Search.lr_latitude := 999;
                          Search.lr_longitude := 0;
                          Search.lr_address := None;
                          Search.lr_notes := None |};
          error := None |} |}.

(** A location row with a position and nothing else. *)
Definition place (latitude longitude : float) : Response Search.LocationRow :=
  {| data := Some {| Search.lr_latitude := latitude;
                     Search.lr_longitude := longitude;
                     Search.lr_address := None;
                     Search.lr_notes := None |};
     error := None |}.


Definition blank_page : Search.Page :=
  {| Search.vendors := []; Search.loading := true; Search.userLocation := None;
     Search.selectedCuisines := []; Search.showLiveOnly := false;
     Search.console := [] |}.

Definition vendor (name : string) (tags : list string)
    (s : VendorOperationalStatus) (d : option float) : Search.VendorWithLocation :=
  {| Search.id := name; Search.business_name := name; Search.description := "";
     Search.cuisine_types := tags; Search.logo_url := None;
     Search.operational_status := s; Search.location := None;
     Search.distance_miles := d |}.

(** The cuisine scenario: selection ["Mexican"] over two vendors. *)
Definition mexican_page : Search.Page :=
  {| Search.vendors := [vendor "A" ["Mexican"; "BBQ"] live (Some 2.3);
                        vendor "B" ["Italian"] offline None];
     Search.loading := false; Search.userLocation := Some (39.7684, -86.1581);
     Search.selectedCuisines := ["Mexican"]; Search.showLiveOnly := false;
     Search.console := [] |}.

(** A vendor fresh from onboarding, and a session of the dashboard. *)
Definition onboarded : GoLiveButton.World :=
  {| GoLiveButton.ui := GoLiveButton.initial_component;
     GoLiveButton.database :=
       {| GoLiveButton.vendor_status := {[ "v1" := GoLiveButton.onboarding_row "v1" ]};
          GoLiveButton.locations := [] |};
     GoLiveButton.calls := [];
     GoLiveButton.alerts := [];
     GoLiveButton.console := [] |}.

Definition store_up (new_id clock : string) : GoLiveButton.Env :=
  {| GoLiveButton.select_outcome := GoLiveButton.Done tt;
     GoLiveButton.insert_outcome := GoLiveButton.Done new_id;
     GoLiveButton.update_outcome := GoLiveButton.Done tt;
     GoLiveButton.now := clock |}.

Definition store_down : GoLiveButton.Env :=
  {| GoLiveButton.select_outcome := GoLiveButton.Failed (StoreError "fetch failed");
     GoLiveButton.insert_outcome := GoLiveButton.Failed (StoreError "fetch failed");
     GoLiveButton.update_outcome := GoLiveButton.Failed (StoreError "fetch failed");
     GoLiveButton.now := "2024-05-01T13:00:00.000Z" |}.

Definition city_hall : GoLiveButton.SelectedLocation :=
  {| GoLiveButton.sel_address := "200 E Washington St, Indianapolis, IN 46204, USA";
     GoLiveButton.sel_latitude := 39.7684;
     GoLiveButton.sel_longitude := -86.1581;
     GoLiveButton.sel_city := Some "Indianapolis";
     GoLiveButton.sel_state := Some "IN";
     GoLiveButton.sel_zip := Some "46204" |}.

(** The store handles the call of the [i]-th task and the answer reaches
    the page. *)
Definition answered (i : nat) (new_id : string) : list GoLiveButton.Event :=
  [ GoLiveButton.StoreHandles i (store_up new_id ""); GoLiveButton.AnswerArrives i ].

(** From the open prompt: search a location, select it and go live at it;
    the call is the [i]-th task. *)
Definition go_live_at_city_hall (i : nat) (new_id clock : string)
  : list GoLiveButton.Event :=
  [ GoLiveButton.ClickSearchForLocation;
    GoLiveButton.SelectLocation city_hall;
    GoLiveButton.ClickGoLiveHere;
    GoLiveButton.Tick clock ] ++
  answered i new_id ++ answered i new_id.

(** The page is loaded and shows the stored status; the vendor goes live
    from a searched location, then begins closing up. *)
Definition morning : list GoLiveButton.Event :=
  [ GoLiveButton.Mount ] ++ answered 0 "" ++
  [ GoLiveButton.ClickStatusButton ] ++
  go_live_at_city_hall 0 "l1" "2024-05-01T11:01:00.000Z" ++
  [ GoLiveButton.ClickStatusButton ] ++ answered 0 "".

(** The page is loaded again; before the status query is answered it
    shows [offline], and the vendor opens the location prompt and picks a
    place. *)
Definition reload_and_hurry : list GoLiveButton.Event :=
  [ GoLiveButton.Mount;
    GoLiveButton.ClickStatusButton;
    GoLiveButton.ClickSearchForLocation;
    GoLiveButton.SelectLocation city_hall;
    GoLiveButton.ClickGoLiveHere;
    GoLiveButton.Tick "2024-05-01T13:02:00.000Z";
    GoLiveButton.StoreHandles 1 (store_up "l2" "");
    GoLiveButton.AnswerArrives 1 ].

(** The page is loaded and the vendor goes live before the status query
    has reached the store; the store then reads [live], but the answer
    is held up while the vendor closes up and goes offline; it arrives
    after that, and the page shows [live] over a stored [offline]. *)
Definition late_answer : list GoLiveButton.Event :=
  [ GoLiveButton.Mount; GoLiveButton.ClickStatusButton ] ++
  go_live_at_city_hall 1 "l1" "2024-05-01T11:01:00.000Z" ++
  [ GoLiveButton.StoreHandles 0 (store_up "" "");
    GoLiveButton.ClickStatusButton ] ++ answered 1 "" ++
  [ GoLiveButton.ClickStatusButton ] ++ answered 1 "" ++
  [ GoLiveButton.AnswerArrives 0 ].

(** The ranking scenarios: A serving and far, B offline and near; two
    serving vendors at 2.3 and 0.9 miles. *)
Definition far_live : Search.VendorWithLocation := vendor "A" ["Mexican"] live (Some 50).
Definition near_offline : Search.VendorWithLocation := vendor "B" ["BBQ"] offline (Some 1).
Definition live_2_3 : Search.VendorWithLocation := vendor "C" ["Italian"] live (Some 2.3).
Definition live_0_9 : Search.VendorWithLocation := vendor "D" ["Vegan"] live (Some 0.9).

End Scenario.

(** ** More concrete data *)
Module MoreScenario.
Import Types Exec.
Open Scope float_scope.

(** The vendors query fails. *)
Definition store_unreachable : Search.Store :=
  {| Search.vendors_select :=
       {| data := None; error := Some (StoreError "Failed to fetch") |};
     Search.vendor_status_select := {| data := Some []; error := None |};
     Search.locations_single := fun _ => Scenario.not_found |}.

(** A dashboard whose vendor has no row in [vendor_status]. *)
Definition unregistered : GoLiveButton.World :=
  {| GoLiveButton.ui := GoLiveButton.initial_component;
     GoLiveButton.database :=
       {| GoLiveButton.vendor_status := ∅; GoLiveButton.locations := [] |};
     GoLiveButton.calls := [];
     GoLiveButton.alerts := [];
     GoLiveButton.console := [] |}.

(** A place with a street address in Indianapolis, without a postal
    code. *)
Definition city_hall_place : LocationSearch.PlaceResult :=
  {| LocationSearch.geometry :=
       Some {| LocationSearch.location := Some (39.7684, -86.1581) |};
     LocationSearch.address_components :=
       Some [ {| LocationSearch.long_name := "Indianapolis";
                 LocationSearch.short_name := "Indianapolis";
                 LocationSearch.types := ["locality"; "political"] |};
              {| LocationSearch.long_name := "Indiana";
                 LocationSearch.short_name := "IN";
                 LocationSearch.types := ["administrative_area_level_1"; "political"] |} ];
     LocationSearch.formatted_address := Some "200 E Washington St, Indianapolis, IN, USA" |}.

Definition place_without_position : LocationSearch.PlaceResult :=
  {| LocationSearch.geometry := None;
     LocationSearch.address_components := None;
     LocationSearch.formatted_address := Some "Indianapolis" |}.

(** Component 0 has mounted and asked for the script; component 1 has
    mounted while it was on its way. *)
Definition two_waiting : LocationSearch.Loader :=
  LocationSearch.loader_run LocationSearch.loader_initial
    [ LocationSearch.ComponentMounts (Some "key") 0%nat;
      LocationSearch.ComponentMounts (Some "key") 1%nat ].

(** A signed-in user with the onboarding form filled in. *)
Definition applicant : Onboarding.World :=
  {| Onboarding.form :=
       {| Onboarding.loading := false; Onboarding.error := "";
          Onboarding.businessName := "Taco Truck";
          Onboarding.description := "Street tacos";
          Onboarding.cuisineTypes := ["Mexican"];
          Onboarding.phone := "317-555-0100";
          Onboarding.email := "" |};
     Onboarding.user :=
       Some {| Onboarding.user_id := "u1";
               Onboarding.user_email := Some "owner@example.com" |};
     Onboarding.tables :=
       {| Onboarding.vendors := []; Onboarding.vendor_status := ∅;
          Onboarding.profile_role := {[ "u1" := "customer" ]} |};
     Onboarding.calls := [];
     Onboarding.alerts := [];
     Onboarding.console := [];
     Onboarding.pushed := [] |}.

Definition signed_out : Onboarding.World :=
  {| Onboarding.form := Onboarding.form applicant;
     Onboarding.user := None;
     Onboarding.tables := Onboarding.tables applicant;
     Onboarding.calls := [];
     Onboarding.alerts := [];
     Onboarding.console := [];
     Onboarding.pushed := [] |}.

Definition store_accepts : Onboarding.Env :=
  {| Onboarding.vendor_outcome := GoLiveButton.Done "v1";
     Onboarding.status_outcome := GoLiveButton.Done tt;
     Onboarding.profile_outcome := GoLiveButton.Done tt;
     Onboarding.store_error_instanceof_Error := false |}.

Definition menu_item (name : string) (category : option string) : MenuPage.MenuItem :=
  {| MenuPage.item_id := name; MenuPage.item_menu_id := "m1";
     MenuPage.item_name := name; MenuPage.item_description := None;
     MenuPage.item_price := 5; MenuPage.item_category := category;
     MenuPage.item_dietary_tags := None; MenuPage.item_is_available := true |}.

Definition small_menu : list MenuPage.MenuItem :=
  [ menu_item "Taco" (Some "Entrees"); menu_item "Water" None;
    menu_item "Burrito" (Some "Entrees") ].

End MoreScenario.


(** ** Facts about the doubles *)
Module FloatFacts.
Import Binary.


Section Spec.
Variables prec emax : Z.
Hypothesis prec_gt_0 : (0 < prec)%Z.
Hypothesis prec_lt_emax : (prec < emax)%Z.
Hypothesis emax_ge_3 : (3 <= emax)%Z.

Local Open Scope Z_scope.

Lemma digits2_pos_bounds (m : positive) :
  2 ^ (Zpos (digits2_pos m) - 1) <= Zpos m < 2 ^ Zpos (digits2_pos m).
Proof.
  induction m as [m IH|m IH|]; cbn [digits2_pos].
  - rewrite Pos2Z.inj_succ.
    replace (Z.succ (Zpos (digits2_pos m)) - 1) with (Z.succ (Zpos (digits2_pos m) - 1)) by lia.
    rewrite !Z.pow_succ_r by lia. lia.
  - rewrite Pos2Z.inj_succ.
    replace (Z.succ (Zpos (digits2_pos m)) - 1) with (Z.succ (Zpos (digits2_pos m) - 1)) by lia.
    rewrite !Z.pow_succ_r by lia. lia.
  - cbn. lia.
Qed.

Lemma digits2_pos_le (m : positive) (k : Z) :
  Zpos m < 2 ^ k -> Zpos (digits2_pos m) <= k.
Proof.
  intros H. destruct (Z.le_gt_cases (Zpos (digits2_pos m)) k) as [|Hgt]; [done|].
  exfalso. pose proof (digits2_pos_bounds m) as [Hlo _].
  assert (0 <= k \/ k < 0) as [Hk|Hk] by lia.
  - assert (2 ^ k <= 2 ^ (Zpos (digits2_pos m) - 1)) by (apply Z.pow_le_mono_r; lia). lia.
  - rewrite Z.pow_neg_r in H by done. lia.
Qed.

(** *** Shifting right *)

Lemma shr_1_m mrs : 0 <= shr_m mrs -> shr_m (shr_1 mrs) = shr_m mrs / 2.
Proof.
  destruct mrs as [m r s]. cbn [shr_m shr_1]. intros Hm.
  destruct m as [|[p|p|]|p]; cbn [shr_m]; [done| | |done|lia].
  - apply Z.div_unique with (r := 1); lia.
  - apply Z.div_unique with (r := 0); lia.
Qed.

Lemma pow2_xI (n : positive) : 2 ^ Zpos n~1 = 2 * (2 ^ Zpos n * 2 ^ Zpos n).
Proof.
  replace (Zpos n~1) with (1 + Zpos n + Zpos n) by lia.
  rewrite !Z.pow_add_r by lia. lia.
Qed.

Lemma pow2_xO (n : positive) : 2 ^ Zpos n~0 = 2 ^ Zpos n * 2 ^ Zpos n.
Proof.
  replace (Zpos n~0) with (Zpos n + Zpos n) by lia.
  by rewrite !Z.pow_add_r by lia.
Qed.

Lemma iter_shr_1_m (n : positive) : forall mrs,
  0 <= shr_m mrs -> shr_m (SpecFloat.iter_pos shr_1 n mrs) = shr_m mrs / 2 ^ Zpos n.
Proof.
  induction n as [n IH|n IH|]; intros mrs Hm; cbn [SpecFloat.iter_pos].
  - assert (H1 : 0 <= shr_m (shr_1 mrs)) by (rewrite shr_1_m by done; apply Z.div_pos; lia).
    assert (H2 : 0 <= shr_m (SpecFloat.iter_pos shr_1 n (shr_1 mrs)))
      by (rewrite IH by done; apply Z.div_pos; lia).
    rewrite IH, IH, shr_1_m by done.
    rewrite !Z.div_div by lia. by rewrite pow2_xI.
  - assert (H2 : 0 <= shr_m (SpecFloat.iter_pos shr_1 n mrs))
      by (rewrite IH by done; apply Z.div_pos; lia).
    rewrite IH, IH by done. rewrite Z.div_div by lia. by rewrite pow2_xO.
  - by rewrite shr_1_m.
Qed.

Local Abbreviation emin := (SpecFloat.emin prec emax).

Lemma shr_record_of_loc_m m l : shr_m (shr_record_of_loc m l) = m.
Proof. by destruct l as [|[]]. Qed.

(** One rounding shift of a positive mantissa whose exponent is not below
    [emin]: the mantissa stays positive and comes below [2 ^ prec]. *)
Lemma shr_fexp_spec m e l :
  0 < m -> emin <= e ->
  0 < shr_m (fst (shr_fexp prec emax m e l)) < 2 ^ prec /\
  snd (shr_fexp prec emax m e l) = Z.max e (fexp prec emax (Zdigits2 m + e)).
Proof.
  intros Hm He. destruct m as [|p|p]; [lia| |lia].
  unfold shr_fexp, shr. cbn [Zdigits2].
  pose proof (digits2_pos_bounds p) as [Hlo Hhi].
  set (d := Zpos (digits2_pos p)) in *.
  assert (Hd : 1 <= d) by (unfold d; lia).
  unfold fexp. fold emin.
  destruct (Z.max (d + e - prec) emin - e) as [|n|n] eqn:En; cbn [fst snd].
  - rewrite shr_record_of_loc_m. split; [|lia]. split; [lia|].
    assert (2 ^ d <= 2 ^ prec) by (apply Z.pow_le_mono_r; lia). lia.
  - rewrite iter_shr_1_m by (rewrite shr_record_of_loc_m; lia).
    rewrite shr_record_of_loc_m. split; [|lia]. split.
    + apply Z.div_str_pos. split; [apply Z.pow_pos_nonneg; lia|].
      assert (2 ^ Zpos n <= 2 ^ (d - 1)) by (apply Z.pow_le_mono_r; lia). lia.
    + apply Z.div_lt_upper_bound; [apply Z.pow_pos_nonneg; lia|].
      rewrite <- Z.pow_add_r by lia.
      assert (2 ^ d <= 2 ^ (Zpos n + prec)) by (apply Z.pow_le_mono_r; lia). lia.
  - rewrite shr_record_of_loc_m. split; [|lia]. split; [lia|].
    assert (2 ^ d <= 2 ^ prec) by (apply Z.pow_le_mono_r; lia). lia.
Qed.

Lemma round_nearest_even_bounds m l :
  m <= round_nearest_even m l <= m + 1.
Proof.
  destruct l as [|[]]; cbn [round_nearest_even]; try lia.
  destruct (Z.even m); lia.
Qed.

Lemma Zdigits2_le m k : 0 < m -> m < 2 ^ k -> Zdigits2 m <= k.
Proof.
  intros Hm H. destruct m as [|p|p]; [lia| |lia]. by apply digits2_pos_le.
Qed.

(** Rounding a positive mantissa with an exponent not below [emin] gives a
    number of the given sign that is not a zero, and whose exponent is at
    most one above the exponent the format gives the unrounded value. *)
Lemma binary_round_aux_spec s m e l :
  0 < m -> emin <= e ->
  exists m' e',
    binary_round_aux prec emax s m e l =
      (if e' <=? emax - prec then S754_finite s m' e' else S754_infinity s) /\
    e' <= Z.max e (fexp prec emax (Zdigits2 m + e)) + 1.
Proof.
  intros Hm He. unfold binary_round_aux.
  pose proof (shr_fexp_spec m e l Hm He) as [[H1 H1'] H2].
  destruct (shr_fexp prec emax m e l) as [mrs1 e1]. cbn [fst snd] in H1, H1', H2.
  pose proof (round_nearest_even_bounds (shr_m mrs1) (loc_of_shr_record mrs1)) as Hr.
  set (m2 := round_nearest_even (shr_m mrs1) (loc_of_shr_record mrs1)) in *.
  assert (He1 : emin <= e1) by lia.
  assert (Hm2 : 0 < m2) by lia.
  pose proof (shr_fexp_spec m2 e1 loc_Exact Hm2 He1) as [[H3 _] H4].
  destruct (shr_fexp prec emax m2 e1 loc_Exact) as [mrs2 e2]. cbn [fst snd] in H3, H4.
  destruct (shr_m mrs2) as [|m'|m']; [lia| |lia].
  exists m', e2. split; [done|].
  assert (Hd2 : Zdigits2 m2 <= prec + 1).
  { apply Zdigits2_le; [done|]. rewrite Z.pow_add_r, Z.pow_1_r by lia. lia. }
  unfold fexp in H4. fold emin in H4. lia.
Qed.

(** *** Aligning to a smaller exponent *)

Lemma iter_xO (d m : positive) : Zpos (Pos.iter xO m d) = Zpos m * 2 ^ Zpos d.
Proof.
  induction d as [|d IH] using Pos.peano_ind.
  - cbn. lia.
  - rewrite Pos.iter_succ, Pos2Z.inj_xO, IH, Pos2Z.inj_succ, Z.pow_succ_r by lia. lia.
Qed.

Lemma shl_align_spec m e e' :
  e' <= e ->
  Zpos (fst (shl_align m e e')) = Zpos m * 2 ^ (e - e') /\
  snd (shl_align m e e') = e'.
Proof.
  intros He. unfold shl_align.
  destruct (e' - e) as [|d|d] eqn:Ed; cbn [fst snd]; [| lia |].
  - replace (e - e') with 0 by lia. split; lia.
  - rewrite iter_xO. replace (e - e') with (Zpos d) by lia. done.
Qed.

Lemma shl_align_ge m e e' : e <= e' -> shl_align m e e' = (m, e).
Proof.
  intros He. unfold shl_align. destruct (e' - e) as [|d|d] eqn:Ed; [done|done|lia].
Qed.

(** [binary_round] on an exponent not below [emin]. *)
Lemma binary_round_spec s m e :
  emin <= e ->
  exists m' e',
    binary_round prec emax s m e =
      (if e' <=? emax - prec then S754_finite s m' e' else S754_infinity s).
Proof.
  intros He. unfold binary_round.
  set (e1 := fexp prec emax (Zpos (digits2_pos m) + e)).
  assert (He1 : emin <= e1) by (unfold e1, fexp; lia).
  destruct (Z.le_gt_cases e e1) as [Hle|Hgt].
  - rewrite shl_align_ge by done.
    destruct (binary_round_aux_spec s (Zpos m) e loc_Exact) as (m' & e' & E & _); [lia|done|].
    by exists m', e'.
  - pose proof (shl_align_spec m e e1 ltac:(lia)) as [_ H2].
    destruct (shl_align m e e1) as [mz ez]. cbn [snd] in H2. subst ez.
    destruct (binary_round_aux_spec s (Zpos mz) e1 loc_Exact) as (m' & e' & E & _); [lia|done|].
    by exists m', e'.
Qed.

Lemma SFopp_involutive x : SFopp (SFopp x) = x.
Proof. by destruct x as [[]|[]| |[] m e]. Qed.

(** The sign given to a rounding only tags its result. *)
Lemma binary_round_aux_opp s m e l :
  binary_round_aux prec emax (negb s) m e l = SFopp (binary_round_aux prec emax s m e l).
Proof.
  unfold binary_round_aux.
  destruct (shr_fexp prec emax m e l) as [mrs1 e1].
  destruct (shr_fexp prec emax _ e1 loc_Exact) as [mrs2 e2].
  destruct (shr_m mrs2); [done| |done]. by destruct (e2 <=? emax - prec).
Qed.

Lemma binary_round_opp s m e :
  binary_round prec emax (negb s) m e = SFopp (binary_round prec emax s m e).
Proof.
  unfold binary_round. destruct (shl_align m e _) as [mz ez].
  apply binary_round_aux_opp.
Qed.

Lemma binary_normalize_opp m e :
  m <> 0 ->
  binary_normalize prec emax (- m) e false = SFopp (binary_normalize prec emax m e false).
Proof.
  destruct m as [|p|p]; [done| |]; intros _; cbn [Z.opp binary_normalize].
  - apply (binary_round_opp false).
  - by rewrite (binary_round_opp false), SFopp_involutive.
Qed.

(** *** Valid numbers and their order *)

Lemma valid_finite s m e :
  SpecFloat.valid_binary prec emax (S754_finite s m e) = true ->
  emin <= e <= emax - prec /\
  Zpos (digits2_pos m) <= prec /\
  (emin < e -> Zpos (digits2_pos m) = prec).
Proof.
  cbn [SpecFloat.valid_binary]. unfold SpecFloat.bounded, SpecFloat.canonical_mantissa, SpecFloat.fexp. fold emin.
  intros H. apply andb_prop in H as [H1 H2].
  apply Z.eqb_eq in H1. apply Z.leb_le in H2. lia.
Qed.

Lemma magnitude_bounds s m e :
  SpecFloat.valid_binary prec emax (S754_finite s m e) = true ->
  0 < Zpos m * 2 ^ (e - emin) < 2 ^ (emax - emin).
Proof.
  intros H. apply valid_finite in H as (He & Hd & _).
  pose proof (digits2_pos_bounds m) as [_ Hhi].
  assert (0 < 2 ^ (e - emin)) by (apply Z.pow_pos_nonneg; lia).
  split; [lia|].
  assert (H1 : 2 ^ Zpos (digits2_pos m) <= 2 ^ prec) by (apply Z.pow_le_mono_r; lia).
  assert (H2 : 2 ^ (e - emin) <= 2 ^ (emax - prec - emin)) by (apply Z.pow_le_mono_r; lia).
  replace (emax - emin) with (prec + (emax - prec - emin)) by lia.
  rewrite Z.pow_add_r by lia.
  assert (0 < 2 ^ prec) by (apply Z.pow_pos_nonneg; lia).
  nia.
Qed.

Lemma magnitude_compare s1 m1 e1 s2 m2 e2 :
  SpecFloat.valid_binary prec emax (S754_finite s1 m1 e1) = true ->
  SpecFloat.valid_binary prec emax (S754_finite s2 m2 e2) = true ->
  (Zpos m1 * 2 ^ (e1 - emin) ?= Zpos m2 * 2 ^ (e2 - emin)) =
  match e1 ?= e2 with
  | Lt => Lt
  | Gt => Gt
  | Eq => Pos.compare_cont Eq m1 m2
  end.
Proof.
  intros V1 V2.
  apply valid_finite in V1 as (He1 & Hd1 & Hn1).
  apply valid_finite in V2 as (He2 & Hd2 & Hn2).
  pose proof (digits2_pos_bounds m1) as [Hlo1 Hhi1].
  pose proof (digits2_pos_bounds m2) as [Hlo2 Hhi2].
  assert (Hp : 2 ^ prec = 2 * 2 ^ (prec - 1)).
  { replace prec with (1 + (prec - 1)) at 1 by lia. rewrite Z.pow_add_r by lia. lia. }
  destruct (Z.compare_spec e1 e2) as [->|Hlt|Hgt].
  - rewrite <- Zmult_compare_compat_r by (apply Z.lt_gt, Z.pow_pos_nonneg; lia). done.
  - apply Z.compare_lt_iff.
    rewrite Hn2 in Hlo2 by lia.
    assert (2 ^ Zpos (digits2_pos m1) <= 2 ^ prec) by (apply Z.pow_le_mono_r; lia).
    replace (e2 - emin) with ((e1 - emin) + (e2 - e1)) by lia.
    rewrite Z.pow_add_r by lia.
    assert (HA : 0 < 2 ^ (e1 - emin)) by (apply Z.pow_pos_nonneg; lia).
    assert (HB : 2 ^ 1 <= 2 ^ (e2 - e1)) by (apply Z.pow_le_mono_r; lia).
    rewrite Z.pow_1_r in HB.
    assert (Hm : Zpos m1 < 2 * Zpos m2) by lia.
    apply Z.lt_le_trans with (2 * Zpos m2 * 2 ^ (e1 - emin)).
    + by apply Z.mul_lt_mono_pos_r.
    + rewrite (Z.mul_comm 2), <- !Z.mul_assoc. apply Z.mul_le_mono_nonneg_l; [lia|].
      rewrite (Z.mul_comm 2). apply Z.mul_le_mono_nonneg_l; lia.
  - apply Z.compare_gt_iff.
    rewrite Hn1 in Hlo1 by lia.
    assert (2 ^ Zpos (digits2_pos m2) <= 2 ^ prec) by (apply Z.pow_le_mono_r; lia).
    replace (e1 - emin) with ((e2 - emin) + (e1 - e2)) by lia.
    rewrite Z.pow_add_r by lia.
    assert (HA : 0 < 2 ^ (e2 - emin)) by (apply Z.pow_pos_nonneg; lia).
    assert (HB : 2 ^ 1 <= 2 ^ (e1 - e2)) by (apply Z.pow_le_mono_r; lia).
    rewrite Z.pow_1_r in HB.
    assert (Hm : Zpos m2 < 2 * Zpos m1) by lia.
    apply Z.lt_le_trans with (2 * Zpos m1 * 2 ^ (e2 - emin)).
    + by apply Z.mul_lt_mono_pos_r.
    + rewrite (Z.mul_comm 2), <- !Z.mul_assoc. apply Z.mul_le_mono_nonneg_l; [lia|].
      rewrite (Z.mul_comm 2). apply Z.mul_le_mono_nonneg_l; lia.
Qed.

(** Comparison of valid numbers is comparison of their ordinals. *)
Lemma SFcompare_ordinal x y :
  SpecFloat.valid_binary prec emax x = true -> SpecFloat.valid_binary prec emax y = true ->
  x <> S754_nan -> y <> S754_nan ->
  SFcompare x y = Some (SFordinal prec emax x ?= SFordinal prec emax y).
Proof.
  intros Vx Vy Nx Ny.
  assert (Hinf : 0 < 2 ^ (emax - emin)) by (apply Z.pow_pos_nonneg; unfold SpecFloat.emin; lia).
  destruct x as [sx|sx| |sx mx ex]; [| |done|];
    destruct y as [sy|sy| |sy my ey]; try done; cbn [SFcompare SFordinal].
  - destruct sy; cbn [cond_Zopp]; f_equal; symmetry;
      [apply Z.compare_gt_iff|apply Z.compare_lt_iff]; lia.
  - pose proof (magnitude_bounds _ _ _ Vy).
    destruct sy; cbn [cond_Zopp]; f_equal; symmetry;
      [apply Z.compare_gt_iff|apply Z.compare_lt_iff]; lia.
  - destruct sx; cbn [cond_Zopp]; f_equal; symmetry;
      [apply Z.compare_lt_iff|apply Z.compare_gt_iff]; lia.
  - destruct sx, sy; cbn [cond_Zopp]; f_equal; symmetry;
      first [apply Z.compare_eq_iff|apply Z.compare_lt_iff|apply Z.compare_gt_iff]; lia.
  - pose proof (magnitude_bounds _ _ _ Vy).
    destruct sx; cbn [cond_Zopp]; f_equal; symmetry;
      [apply Z.compare_lt_iff|apply Z.compare_gt_iff]; destruct sy; cbn [cond_Zopp]; lia.
  - pose proof (magnitude_bounds _ _ _ Vx).
    destruct sx; cbn [cond_Zopp]; f_equal; symmetry;
      [apply Z.compare_lt_iff|apply Z.compare_gt_iff]; lia.
  - pose proof (magnitude_bounds _ _ _ Vx).
    destruct sy; cbn [cond_Zopp]; f_equal; symmetry;
      [apply Z.compare_gt_iff|apply Z.compare_lt_iff]; destruct sx; cbn [cond_Zopp]; lia.
  - pose proof (magnitude_bounds _ _ _ Vx). pose proof (magnitude_bounds _ _ _ Vy).
    destruct sx, sy; cbn [cond_Zopp]; f_equal.
    + rewrite Z.compare_opp, (magnitude_compare _ _ _ _ _ _ Vy Vx).
      rewrite (Z.compare_antisym ey ex), (Pos.compare_cont_antisym).
      destruct (ey ?= ex); done.
    + symmetry. apply Z.compare_lt_iff. lia.
    + symmetry. apply Z.compare_gt_iff. lia.
    + by rewrite (magnitude_compare _ _ _ _ _ _ Vx Vy).
Qed.

(** *** The sign of a difference *)

Lemma aligned_difference sx mx ex sy my ey :
  emin <= ex -> emin <= ey ->
  let ez := Z.min ex ey in
  (cond_Zopp sx (Zpos (fst (shl_align mx ex ez))) -
   cond_Zopp sy (Zpos (fst (shl_align my ey ez)))) * 2 ^ (ez - emin) =
  SFordinal prec emax (S754_finite sx mx ex) - SFordinal prec emax (S754_finite sy my ey).
Proof.
  intros Hx Hy ez. cbn [SFordinal].
  destruct (shl_align_spec mx ex ez ltac:(lia)) as [-> _].
  destruct (shl_align_spec my ey ez ltac:(lia)) as [-> _].
  replace (ex - emin) with ((ex - ez) + (ez - emin)) by lia.
  replace (ey - emin) with ((ey - ez) + (ez - emin)) by lia.
  rewrite !Z.pow_add_r by lia.
  destruct sx, sy; cbn [cond_Zopp]; lia.
Qed.

Lemma SFltb_signed s m e e' :
  SFltb (if e' <=? emax - prec then S754_finite s m e else S754_infinity s)
        (S754_zero false) = s.
Proof. by destruct (e' <=? emax - prec), s. Qed.

(** [x - y < 0] exactly when [x] is below [y]: the difference of two
    numbers is never rounded to a zero. *)
Lemma SFsub_negative x y :
  SpecFloat.valid_binary prec emax x = true -> SpecFloat.valid_binary prec emax y = true ->
  x <> S754_nan -> y <> S754_nan ->
  SFltb (SFsub prec emax x y) (S754_zero false) =
  (SFordinal prec emax x <? SFordinal prec emax y).
Proof.
  intros Vx Vy Nx Ny.
  assert (Hinf : 0 < 2 ^ (emax - emin)) by (apply Z.pow_pos_nonneg; unfold SpecFloat.emin; lia).
  destruct x as [sx|sx| |sx mx ex]; [| |done|];
    destruct y as [sy|sy| |sy my ey]; try done.
  - by destruct sx, sy.
  - cbn [SFsub SFordinal]. symmetry. destruct sy; cbn [cond_Zopp negb SFltb SFcompare]; lia.
  - pose proof (magnitude_bounds _ _ _ Vy).
    cbn [SFsub SFordinal]. symmetry. destruct sy; cbn [cond_Zopp negb SFltb SFcompare]; lia.
  - cbn [SFsub SFordinal]. symmetry. destruct sx; cbn [cond_Zopp negb SFltb SFcompare]; lia.
  - cbn [SFsub SFordinal]. symmetry. destruct sx, sy; cbn [cond_Zopp negb SFltb SFcompare]; lia.
  - pose proof (magnitude_bounds _ _ _ Vy).
    cbn [SFsub SFordinal]. symmetry.
    destruct sx, sy; cbn [cond_Zopp negb SFltb SFcompare]; lia.
  - pose proof (magnitude_bounds _ _ _ Vx).
    cbn [SFsub SFordinal]. symmetry. destruct sx; cbn [cond_Zopp negb SFltb SFcompare]; lia.
  - pose proof (magnitude_bounds _ _ _ Vx).
    cbn [SFsub SFordinal]. symmetry.
    destruct sx, sy; cbn [cond_Zopp negb SFltb SFcompare]; lia.
  - pose proof (valid_finite _ _ _ Vx) as (Hex & _).
    pose proof (valid_finite _ _ _ Vy) as (Hey & _).
    pose proof (aligned_difference sx mx ex sy my ey ltac:(lia) ltac:(lia)) as HD.
    cbv zeta in HD. cbn [SFsub]. cbv zeta.
    set (ez := Z.min ex ey) in *.
    set (D := cond_Zopp sx _ - cond_Zopp sy _) in *.
    assert (Hp : 0 < 2 ^ (ez - emin)) by (apply Z.pow_pos_nonneg; lia).
    destruct D as [|p|p] eqn:ED; cbn [binary_normalize].
    + cbn [SFltb SFcompare]. symmetry. apply Z.ltb_ge. lia.
    + destruct (binary_round_spec false p ez ltac:(lia)) as (m' & e' & ->).
      rewrite SFltb_signed. symmetry. apply Z.ltb_ge. nia.
    + destruct (binary_round_spec true p ez ltac:(lia)) as (m' & e' & ->).
      rewrite SFltb_signed. symmetry. apply Z.ltb_lt. nia.
Qed.

(** *** Signs in products, quotients and differences *)

Lemma SFsub_swap x y :
  SFsub prec emax y x = SFopp (SFsub prec emax x y) \/
  (SFsub prec emax y x = S754_zero false /\ SFsub prec emax x y = S754_zero false).
Proof.
  destruct x as [sx|sx| |sx mx ex]; destruct y as [sy|sy| |sy my ey];
    try (left; reflexivity);
    try (destruct sx; try destruct sy; cbn [SFsub SFopp negb]; auto; fail);
    try (destruct sy; cbn [SFsub SFopp negb]; auto; fail).
  cbn [SFsub]. cbv zeta. rewrite (Z.min_comm ey ex).
  set (ez := Z.min ex ey).
  set (A := cond_Zopp sx _). set (B := cond_Zopp sy _).
  destruct (Z.eq_dec (A - B) 0) as [E|E].
  - right. replace (B - A) with 0 by lia. by rewrite E.
  - left. replace (B - A) with (- (A - B)) by lia. by apply binary_normalize_opp.
Qed.

Lemma SFmul_opp_l x y : SFmul prec emax (SFopp x) y = SFopp (SFmul prec emax x y).
Proof.
  destruct x as [sx|sx| |sx mx ex]; destruct y as [sy|sy| |sy my ey];
    cbn [SFmul SFopp]; try done; try (by destruct sx, sy).
  replace (xorb (negb sx) sy) with (negb (xorb sx sy)) by (by destruct sx, sy).
  apply binary_round_aux_opp.
Qed.

Lemma SFmul_comm x y : SFmul prec emax x y = SFmul prec emax y x.
Proof.
  destruct x as [sx|sx| |sx mx ex]; destruct y as [sy|sy| |sy my ey];
    cbn [SFmul]; try done; try (by destruct sx, sy).
  by rewrite xorb_comm, Pos.mul_comm, Z.add_comm.
Qed.

Lemma SFdiv_opp_l x y : SFdiv prec emax (SFopp x) y = SFopp (SFdiv prec emax x y).
Proof.
  destruct x as [sx|sx| |sx mx ex]; destruct y as [sy|sy| |sy my ey];
    cbn [SFdiv SFopp]; try done; try (by destruct sx, sy).
  destruct (SFdiv_core_binary prec emax (Zpos mx) ex (Zpos my) ey) as [[mz ez] lz].
  replace (xorb (negb sx) sy) with (negb (xorb sx sy)) by (by destruct sx, sy).
  apply binary_round_aux_opp.
Qed.

(** *** Products of numbers of magnitude at most one *)

Lemma shr_fexp_bounds m e l :
  0 < m ->
  0 <= shr_m (fst (shr_fexp prec emax m e l)) < 2 ^ prec /\
  snd (shr_fexp prec emax m e l) = Z.max e (fexp prec emax (Zdigits2 m + e)).
Proof.
  intros Hm. destruct m as [|p|p]; [lia| |lia].
  unfold shr_fexp, shr. cbn [Zdigits2].
  pose proof (digits2_pos_bounds p) as [Hlo Hhi].
  set (d := Zpos (digits2_pos p)) in *.
  unfold fexp. fold emin.
  destruct (Z.max (d + e - prec) emin - e) as [|n|n] eqn:En; cbn [fst snd].
  - rewrite shr_record_of_loc_m. split; [|lia]. split; [lia|].
    assert (2 ^ d <= 2 ^ prec) by (apply Z.pow_le_mono_r; lia). lia.
  - rewrite iter_shr_1_m by (rewrite shr_record_of_loc_m; lia).
    rewrite shr_record_of_loc_m. split; [|lia]. split.
    + apply Z.div_pos; [lia|apply Z.pow_pos_nonneg; lia].
    + apply Z.div_lt_upper_bound; [apply Z.pow_pos_nonneg; lia|].
      rewrite <- Z.pow_add_r by lia.
      assert (2 ^ d <= 2 ^ (Zpos n + prec)) by (apply Z.pow_le_mono_r; lia). lia.
  - rewrite shr_record_of_loc_m. split; [|lia]. split; [lia|].
    assert (2 ^ d <= 2 ^ prec) by (apply Z.pow_le_mono_r; lia). lia.
Qed.

Lemma shr_fexp_zero e l : shr_m (fst (shr_fexp prec emax 0 e l)) = 0.
Proof.
  unfold shr_fexp, shr. destruct (_ - e) as [|n|n]; cbn [fst];
    rewrite ?iter_shr_1_m by (rewrite shr_record_of_loc_m; lia);
    by rewrite shr_record_of_loc_m.
Qed.

(** Rounding a positive mantissa, whatever its exponent: a zero or a number
    of the given sign, with the exponent bounded as above. *)
Lemma binary_round_aux_range s m e l :
  0 < m ->
  binary_round_aux prec emax s m e l = S754_zero s \/
  exists m' e',
    binary_round_aux prec emax s m e l =
      (if e' <=? emax - prec then S754_finite s m' e' else S754_infinity s) /\
    e' <= Z.max e (fexp prec emax (Zdigits2 m + e)) + 1.
Proof.
  intros Hm. unfold binary_round_aux.
  pose proof (shr_fexp_bounds m e l Hm) as [[H1 H1'] H2].
  destruct (shr_fexp prec emax m e l) as [mrs1 e1]. cbn [fst snd] in H1, H1', H2.
  pose proof (round_nearest_even_bounds (shr_m mrs1) (loc_of_shr_record mrs1)) as Hr.
  set (m2 := round_nearest_even (shr_m mrs1) (loc_of_shr_record mrs1)) in *.
  assert (He1 : emin <= e1) by (unfold fexp in H2; lia).
  destruct (Z.eq_dec m2 0) as [E|E].
  - left. rewrite E. pose proof (shr_fexp_zero e1 loc_Exact) as H0.
    destruct (shr_fexp prec emax 0 e1 loc_Exact) as [mrs2 e2]. cbn [fst] in H0.
    by rewrite H0.
  - right. assert (Hm2 : 0 < m2) by lia.
    pose proof (shr_fexp_spec m2 e1 loc_Exact Hm2 He1) as [[H3 _] H4].
    destruct (shr_fexp prec emax m2 e1 loc_Exact) as [mrs2 e2]. cbn [fst snd] in H3, H4.
    destruct (shr_m mrs2) as [|m'|m']; [lia| |lia].
    exists m', e2. split; [done|].
    assert (Hd2 : Zdigits2 m2 <= prec + 1).
    { apply Zdigits2_le; [done|]. rewrite Z.pow_add_r, Z.pow_1_r by lia. lia. }
    unfold fexp in H4. fold emin in H4. lia.
Qed.

Lemma at_most_one_exponent s m e :
  SFleb (SFabs (S754_finite s m e)) (SFone_canonical prec) = true -> e <= 1 - prec.
Proof.
  unfold SFleb, SFone_canonical. cbn [SFabs SFcompare].
  destruct (Z.compare_spec e (1 - prec)); [lia|lia|done].
Qed.

(** The product of two numbers of magnitude at most one has not
    overflowed: it is a zero or a finite number, of the sign of the
    product. *)
Lemma SFmul_unit_range x y :
  SpecFloat.valid_binary prec emax x = true -> SpecFloat.valid_binary prec emax y = true ->
  SFleb (SFabs x) (SFone_canonical prec) = true ->
  SFleb (SFabs y) (SFone_canonical prec) = true ->
  exists s,
    (SFmul prec emax x y = S754_zero s \/
     exists m e, SFmul prec emax x y = S754_finite s m e) /\
    (s = match x, y with
         | (S754_zero sx | S754_finite sx _ _), (S754_zero sy | S754_finite sy _ _) =>
             xorb sx sy
         | _, _ => false
         end).
Proof.
  intros Vx Vy Hx Hy.
  destruct x as [sx|sx| |sx mx ex]; [|by destruct sx|done|];
    (destruct y as [sy|sy| |sy my ey]; [|by destruct sy|done|]);
    cbn [SFmul]; try (eexists; split; [by left|done]).
  exists (xorb sx sy). split; [|done].
  pose proof (at_most_one_exponent _ _ _ Hx) as Hex.
  pose proof (at_most_one_exponent _ _ _ Hy) as Hey.
  apply valid_finite in Vx as (_ & Hdx & _). apply valid_finite in Vy as (_ & Hdy & _).
  destruct (binary_round_aux_range (xorb sx sy) (Zpos (mx * my)) (ex + ey) loc_Exact)
    as [E|(m' & e' & E & He')]; [lia|by left|].
  right. exists m', e'. rewrite E.
  assert (Hd : Zdigits2 (Zpos (mx * my)) <= 2 * prec).
  { cbn [Zdigits2]. apply digits2_pos_le.
    pose proof (digits2_pos_bounds mx) as [_ Hx'].
    pose proof (digits2_pos_bounds my) as [_ Hy'].
    assert (2 ^ Zpos (digits2_pos mx) <= 2 ^ prec) by (apply Z.pow_le_mono_r; lia).
    assert (2 ^ Zpos (digits2_pos my) <= 2 ^ prec) by (apply Z.pow_le_mono_r; lia).
    replace (2 * prec) with (prec + prec) by lia. rewrite Z.pow_add_r by lia.
    rewrite Pos2Z.inj_mul.
    assert (0 < 2 ^ prec) by (apply Z.pow_pos_nonneg; lia). nia. }
  unfold fexp, SpecFloat.emin in He'.
  destruct (Z.leb_spec e' (emax - prec)); [done|lia].
Qed.

Lemma SFmul_zero_r x s :
  (exists sx, x = S754_zero sx \/ exists m e, x = S754_finite sx m e) ->
  exists s', SFmul prec emax x (S754_zero s) = S754_zero s'.
Proof. intros (sx & [->|(m & e & ->)]); cbn [SFmul]; eauto. Qed.

Lemma SFsub_diag x :
  x <> S754_nan -> (forall s, x <> S754_infinity s) ->
  SFsub prec emax x x = S754_zero false.
Proof.
  intros Hn Hi. destruct x as [s|s| |s m e]; [by destruct s|by destruct (Hi s)|done|].
  cbn [SFsub]. cbv zeta. by rewrite Z.sub_diag.
Qed.

Lemma SFcompare_refl x : x <> S754_nan -> SFcompare x x = Some Eq.
Proof.
  intros Hn. destruct x as [s|s| |s m e]; [done|by destruct s|done|].
  cbn [SFcompare]. rewrite Z.compare_refl, Pos.compare_cont_refl. by destruct s.
Qed.

End Spec.

(** *** The same facts on the doubles of the machine *)

Local Open Scope float_scope.

Lemma not_nan x : is_nan x = false <-> Prim2SF x <> S754_nan.
Proof.
  unfold is_nan. rewrite FloatAxioms.eqb_spec, negb_false_iff. unfold SFeqb. split.
  - intros H E. by rewrite E in H.
  - intros H. by rewrite SFcompare_refl.
Qed.

Lemma ordinal_compare x y :
  is_nan x = false -> is_nan y = false ->
  SFcompare (Prim2SF x) (Prim2SF y) = Some (ordinal x ?= ordinal y)%Z.
Proof.
  intros Hx Hy. unfold ordinal.
  apply SFcompare_ordinal; try done; try apply Prim2SF_valid; by apply not_nan.
Qed.

Lemma ltb_ordinal x y :
  is_nan x = false -> is_nan y = false -> (x <? y) = (ordinal x <? ordinal y)%Z.
Proof.
  intros Hx Hy. rewrite FloatAxioms.ltb_spec. unfold SFltb. by rewrite ordinal_compare.
Qed.

Lemma leb_ordinal x y :
  is_nan x = false -> is_nan y = false -> (x <=? y) = (ordinal x <=? ordinal y)%Z.
Proof.
  intros Hx Hy. rewrite FloatAxioms.leb_spec. unfold SFleb, Z.leb. rewrite ordinal_compare by done.
  by destruct (ordinal x ?= ordinal y)%Z.
Qed.


(** The sign of [x - y] tells whether [x] is below [y]. *)
Lemma sub_negative x y :
  is_nan x = false -> is_nan y = false ->
  (x - y <? 0) = (ordinal x <? ordinal y)%Z.
Proof.
  intros Hx Hy. rewrite FloatAxioms.ltb_spec, FloatAxioms.sub_spec. unfold ordinal.
  apply SFsub_negative; try done; try apply Prim2SF_valid; by apply not_nan.
Qed.

Lemma opp_involutive x : - - x = x.
Proof. apply Prim2SF_inj. by rewrite !FloatAxioms.opp_spec, SFopp_involutive. Qed.

Lemma sub_swap x y : y - x = - (x - y) \/ (y - x = 0 /\ x - y = 0).
Proof.
  destruct (SFsub_swap prec emax (Prim2SF x) (Prim2SF y)) as [H|[H1 H2]].
  - left. apply Prim2SF_inj. by rewrite FloatAxioms.opp_spec, !FloatAxioms.sub_spec.
  - right. split; apply Prim2SF_inj; by rewrite FloatAxioms.sub_spec.
Qed.

Lemma mul_comm x y : x * y = y * x.
Proof. apply Prim2SF_inj. rewrite !FloatAxioms.mul_spec. apply SFmul_comm. Qed.

Lemma mul_opp_l x y : (- x) * y = - (x * y).
Proof. apply Prim2SF_inj. rewrite FloatAxioms.opp_spec, !FloatAxioms.mul_spec, FloatAxioms.opp_spec. apply SFmul_opp_l. Qed.

Lemma mul_opp_r x y : x * (- y) = - (x * y).
Proof. by rewrite mul_comm, mul_opp_l, mul_comm. Qed.

Lemma mul_opp_opp x y : (- x) * (- y) = x * y.
Proof. by rewrite mul_opp_l, mul_opp_r, opp_involutive. Qed.

Lemma div_opp_l x y : (- x) / y = - (x / y).
Proof. apply Prim2SF_inj. rewrite FloatAxioms.opp_spec, !FloatAxioms.div_spec, FloatAxioms.opp_spec. apply SFdiv_opp_l. Qed.

Lemma sub_diag x : is_finite x = true -> x - x = 0.
Proof.
  unfold is_finite. rewrite negb_true_iff, orb_false_iff. intros [Hn Hi].
  apply Prim2SF_inj. rewrite FloatAxioms.sub_spec. apply SFsub_diag; [by apply not_nan|].
  intros s E. unfold is_infinity in Hi. rewrite FloatAxioms.eqb_spec, FloatAxioms.abs_spec, E in Hi. done.
Qed.

(** The square of a number of magnitude at most one, times zero, is
    zero. *)
Lemma square_times_zero c : (abs c <=? 1) = true -> c * c * 0 = 0.
Proof.
  intros H. rewrite FloatAxioms.leb_spec, FloatAxioms.abs_spec in H.
  edestruct (SFmul_unit_range prec emax) with (x := Prim2SF c) (y := Prim2SF c)
    as (s & Hs & Es); try done; try apply Prim2SF_valid; try exact H.
  assert (s = false) as -> by (rewrite Es; destruct (Prim2SF c) as [[]|[]| |[] m e]; done).
  apply Prim2SF_inj. rewrite !FloatAxioms.mul_spec. unfold SF64mul.
  destruct Hs as [->|(m & e & ->)]; done.
Qed.

Lemma is_nan_true x : is_nan x = true -> Prim2SF x = S754_nan.
Proof.
  intros H. destruct (Prim2SF x) eqn:E; try reflexivity;
    assert (is_nan x = false) by (apply not_nan; by rewrite E); congruence.
Qed.

(** A comparison that holds compares two numbers. *)
Lemma ltb_numbers x y : (x <? y) = true -> is_nan x = false /\ is_nan y = false.
Proof.
  rewrite FloatAxioms.ltb_spec. intros H.
  split; apply not_true_iff_false; intros N; apply is_nan_true in N;
    rewrite N in H; [done|]. by destruct (Prim2SF x) as [[]|[]| |[] m e].
Qed.

Lemma leb_numbers x y : (x <=? y) = true -> is_nan x = false /\ is_nan y = false.
Proof.
  rewrite FloatAxioms.leb_spec. intros H.
  split; apply not_true_iff_false; intros N; apply is_nan_true in N;
    rewrite N in H; [done|]. by destruct (Prim2SF x) as [[]|[]| |[] m e].
Qed.


Lemma eqb_refl x : (x =? x) = negb (is_nan x).
Proof. unfold is_nan. by rewrite negb_involutive. Qed.

(** A difference that is negative is a difference of two numbers. *)
Lemma negative_difference x y :
  (x - y <? 0) = true -> is_nan x = false /\ is_nan y = false.
Proof.
  rewrite FloatAxioms.ltb_spec, FloatAxioms.sub_spec. unfold SF64sub. intros H.
  split; apply not_true_iff_false; intros N; apply is_nan_true in N;
    rewrite N in H; [done|]. by destruct (Prim2SF x) as [[]|[]| |[] m e].
Qed.

Lemma ordinal_infinity_max x :
  is_nan x = false -> (ordinal x <= ordinal infinity)%Z.
Proof.
  intros H. apply Z.leb_le. rewrite <- leb_ordinal by done.
  rewrite FloatAxioms.leb_spec. apply not_nan in H.
  pose proof (Prim2SF_valid x) as V.
  destruct (Prim2SF x) as [[]|[]| |[] m e] eqn:E; try done;
    change (Prim2SF infinity) with (S754_infinity false); reflexivity.
Qed.

Lemma leb_trans x y z : (x <=? y) = true -> (y <=? z) = true -> (x <=? z) = true.
Proof.
  intros H1 H2.
  destruct (leb_numbers _ _ H1) as [Nx Ny], (leb_numbers _ _ H2) as [_ Nz].
  rewrite leb_ordinal in * by done. apply Z.leb_le in H1, H2. apply Z.leb_le. lia.
Qed.


End FloatFacts.


(** ** Facts about the built-in sort *)
Module SortFacts.
Section Consistent.
Context {A : Type} (comparefn : A -> A -> JS.number).
Context (comparable : A -> Prop) (before : A -> A -> Prop) (tie : A -> A -> bool).
Hypothesis before_trans : forall a b c, before a b -> before b c -> before a c.
Hypothesis negative_before :
  forall y x, JS.negative (comparefn y x) = true -> before y x.
Hypothesis not_negative_before :
  forall y x, comparable y -> comparable x ->
              JS.negative (comparefn y x) = false -> before x y.
Hypothesis negative_not_tied :
  forall y x z, JS.negative (comparefn y x) = true ->
                tie z x = true -> tie z y = true -> False.

Lemma insert_sorted_perm x l : JS.insert_sorted comparefn x l ≡ₚ x :: l.
Proof.
  induction l as [|y l IH]; simpl; [reflexivity|].
  destruct (JS.negative (comparefn y x)); [|reflexivity].
  rewrite IH. apply Permutation_swap.
Qed.

Lemma sort_perm l : JS.sort comparefn l ≡ₚ l.
Proof.
  induction l as [|x l IH]; simpl; [reflexivity|].
  rewrite insert_sorted_perm. by rewrite IH.
Qed.

Lemma insert_sorted_sorted x l :
  comparable x -> Forall comparable l ->
  StronglySorted before l -> StronglySorted before (JS.insert_sorted comparefn x l).
Proof.
  intros Hx Hl Hs. induction Hs as [|y l Hs IH Hy]; simpl.
  - repeat constructor.
  - apply Forall_cons in Hl as [Hcy Hl].
    destruct (JS.negative (comparefn y x)) eqn:E.
    + constructor; [by apply IH|].
      rewrite insert_sorted_perm. constructor; [by apply negative_before|exact Hy].
    + constructor; [by constructor|].
      constructor; [by apply not_negative_before|].
      eapply Forall_impl; [exact Hy|].
      intros z Hz. eapply before_trans; [|exact Hz]. by apply not_negative_before.
Qed.

Lemma sort_sorted l :
  Forall comparable l -> StronglySorted before (JS.sort comparefn l).
Proof.
  induction 1 as [|x l Hx Hl IH]; simpl; [constructor|].
  apply insert_sorted_sorted; [done| |done].
  by rewrite sort_perm.
Qed.



End Consistent.


End SortFacts.

(** ** Facts about the search page *)
Module SearchFacts.
Import Types Exec.
Import Search.

(** *** The distance *)

Lemma atan2_0_1 : JS.atan2 0 1 = 0%R.
Proof.
  unfold JS.atan2. destruct (Rlt_dec 0 1) as [_|H]; [|exfalso; lra].
  replace (0 / 1)%R with 0%R by field. apply atan_0.
Qed.

Lemma exact_sin_half_swap x y :
  (Rtrigo_def.sin (toRad JS.exact (x - y) / 2) * Rtrigo_def.sin (toRad JS.exact (x - y) / 2) =
   Rtrigo_def.sin (toRad JS.exact (y - x) / 2) * Rtrigo_def.sin (toRad JS.exact (y - x) / 2))%R.
Proof.
  replace (toRad JS.exact (x - y) / 2)%R with (- (toRad JS.exact (y - x) / 2))%R
    by (unfold toRad; cbn; field).
  rewrite sin_neg. ring.
Qed.

Section Doubles.
Context (m : JS.Math).
Local Open Scope float_scope.

Local Abbreviation rad := (toRad (JS.doubles m)).

Lemma toRad_opp x : rad (- x) = - rad x.
Proof. unfold toRad. cbn. apply FloatFacts.mul_opp_l. Qed.

(** The squared sine of half the difference does not depend on the
    direction of the difference. *)
Lemma sin_half_swap x y (s s' : float) :
  odd_at (JS.Math_sin m) (rad (y - x) / 2) ->
  s = JS.Math_sin m (rad (y - x) / 2) ->
  s' = JS.Math_sin m (rad (x - y) / 2) ->
  s' = - s \/ s' = s.
Proof.
  intros Hodd -> ->.
  destruct (FloatFacts.sub_swap y x) as [E|[E1 E2]].
  - left. rewrite E, toRad_opp, FloatFacts.div_opp_l. exact Hodd.
  - right. by rewrite E1, E2.
Qed.

Lemma calculateDistance_swap lat1 lon1 lat2 lon2 :
  odd_at (JS.Math_sin m) (rad (lat2 - lat1) / 2) ->
  odd_at (JS.Math_sin m) (rad (lon2 - lon1) / 2) ->
  calculateDistance (JS.doubles m) lat2 lon2 lat1 lon1 =
  calculateDistance (JS.doubles m) lat1 lon1 lat2 lon2.
Proof.
  intros H1 H2. unfold calculateDistance.
  cbn [JS.doubles JS.plus JS.minus JS.times JS.divide JS.sqrt JS.sin JS.cos
       JS.arctan2 JS.literal].
  set (two := PrimFloat.of_uint63 (Uint63Axioms.of_Z 2)).
  change (PrimFloat.of_uint63 (Uint63Axioms.of_Z 2)) with 2 in two. subst two.
  set (s1 := JS.Math_sin m (rad (lat2 - lat1) / 2)).
  set (s1' := JS.Math_sin m (rad (lat1 - lat2) / 2)).
  set (s2 := JS.Math_sin m (rad (lon2 - lon1) / 2)).
  set (s2' := JS.Math_sin m (rad (lon1 - lon2) / 2)).
  set (c1 := JS.Math_cos m (rad lat1)). set (c2 := JS.Math_cos m (rad lat2)).
  assert (E : s1' * s1' + c2 * c1 * s2' * s2' = s1 * s1 + c1 * c2 * s2 * s2).
  { rewrite (FloatFacts.mul_comm c2 c1).
    destruct (sin_half_swap lat1 lat2 s1 s1' H1 eq_refl eq_refl) as [->| ->];
      destruct (sin_half_swap lon1 lon2 s2 s2' H2 eq_refl eq_refl) as [->| ->];
      by rewrite ?FloatFacts.mul_opp_l, ?FloatFacts.mul_opp_r,
           ?FloatFacts.mul_opp_l, ?FloatFacts.opp_involutive. }
  by rewrite E.
Qed.

Lemma calculateDistance_diagonal lat lon :
  is_finite lat = true -> is_finite lon = true ->
  (abs (JS.Math_cos m (rad lat)) <=? 1) = true ->
  calculateDistance (JS.doubles m) lat lon lat lon = 0.
Proof.
  intros Hlat Hlon Hc. unfold calculateDistance.
  cbn [JS.doubles JS.plus JS.minus JS.times JS.divide JS.sqrt JS.sin JS.cos
       JS.arctan2 JS.literal].
  rewrite (FloatFacts.sub_diag lat Hlat), (FloatFacts.sub_diag lon Hlon).
  set (c := JS.Math_cos m (rad lat)) in *.
  assert (Z0 : JS.Math_sin m (rad 0 / PrimFloat.of_uint63 (Uint63Axioms.of_Z 2)) = 0)
    by reflexivity.
  rewrite Z0.
  assert (E : 0 * 0 + c * c * 0 * 0 = 0).
  { rewrite (FloatFacts.square_times_zero c Hc). reflexivity. }
  rewrite E. reflexivity.
Qed.

End Doubles.

(** C4 (as amended): the expression of [calculateDistance], read in exact
    arithmetic, is the haversine distance of the specification (radius
    3959 miles, degrees turned into radians), which is symmetric and zero
    from a coordinate to itself.  The function computes that expression in
    doubles.  There the two directions give the same double wherever the
    engine's sine takes the two half differences to opposite values for
    opposite arguments, and [==] holds between them unless that double is
    [NaN]; and the distance from a coordinate to itself is 0 when the
    coordinate is finite and the engine's cosine of its latitude is within
    [-1, 1]. *)
Theorem calculateDistance_haversine :
  (forall lat1 lon1 lat2 lon2,
      calculateDistance JS.exact lat1 lon1 lat2 lon2 =
      haversine_spec lat1 lon1 lat2 lon2) /\
  (forall lat1 lon1 lat2 lon2,
      calculateDistance JS.exact lat1 lon1 lat2 lon2 =
      calculateDistance JS.exact lat2 lon2 lat1 lon1) /\
  (forall lat lon, calculateDistance JS.exact lat lon lat lon = 0%R) /\
  (forall m lat1 lon1 lat2 lon2,
      odd_at (JS.Math_sin m) (toRad (JS.doubles m) (lat2 - lat1) / 2)%float ->
      odd_at (JS.Math_sin m) (toRad (JS.doubles m) (lon2 - lon1) / 2)%float ->
      calculateDistance (JS.doubles m) lat2 lon2 lat1 lon1 =
      calculateDistance (JS.doubles m) lat1 lon1 lat2 lon2 /\
      (calculateDistance (JS.doubles m) lat1 lon1 lat2 lon2 =?
       calculateDistance (JS.doubles m) lat2 lon2 lat1 lon1)%float =
      negb (is_nan (calculateDistance (JS.doubles m) lat1 lon1 lat2 lon2))) /\
  (forall m lat lon,
      is_finite lat = true -> is_finite lon = true ->
      (abs (JS.Math_cos m (toRad (JS.doubles m) lat)) <=? 1)%float = true ->
      calculateDistance (JS.doubles m) lat lon lat lon = 0%float).
Proof.
  split; [|split; [|split; [|split]]].
  - intros. unfold calculateDistance, haversine_spec. cbv zeta.
    cbn [JS.exact JS.plus JS.minus JS.times JS.divide JS.sqrt JS.sin JS.cos
         JS.arctan2 JS.literal JS.PI].
    match goal with
    | |- (_ * (2 * JS.atan2 (R_sqrt.sqrt ?a1) _) = _ * JS.atan2 (R_sqrt.sqrt ?a2) _)%R =>
        assert (E : a1 = a2)
    end.
    { unfold toRad, Rsqr.
      cbn [JS.exact JS.plus JS.minus JS.times JS.divide JS.literal JS.PI].
      replace ((lat2 - lat1) * (Rtrigo1.PI / 180) / 2)%R
        with ((lat2 * Rtrigo1.PI / 180 - lat1 * Rtrigo1.PI / 180) / 2)%R by field.
      replace ((lon2 - lon1) * (Rtrigo1.PI / 180) / 2)%R
        with ((lon2 * Rtrigo1.PI / 180 - lon1 * Rtrigo1.PI / 180) / 2)%R by field.
      replace (lat1 * (Rtrigo1.PI / 180))%R with (lat1 * Rtrigo1.PI / 180)%R by field.
      replace (lat2 * (Rtrigo1.PI / 180))%R with (lat2 * Rtrigo1.PI / 180)%R by field.
      ring. }
    rewrite E. ring.
  - intros. unfold calculateDistance.
    cbn [JS.exact JS.plus JS.minus JS.times JS.divide JS.sqrt JS.sin JS.cos
         JS.arctan2 JS.literal].
    rewrite (exact_sin_half_swap lat2 lat1).
    assert (E : forall s t : R,
               (Rtrigo_def.cos (toRad JS.exact lat1) * Rtrigo_def.cos (toRad JS.exact lat2) * s * t =
                Rtrigo_def.cos (toRad JS.exact lat2) * Rtrigo_def.cos (toRad JS.exact lat1) * s * t)%R)
      by (intros; ring).
    rewrite E.
    assert (F : (Rtrigo_def.cos (toRad JS.exact lat2) * Rtrigo_def.cos (toRad JS.exact lat1) *
                 Rtrigo_def.sin (toRad JS.exact (lon2 - lon1) / 2) *
                 Rtrigo_def.sin (toRad JS.exact (lon2 - lon1) / 2) =
                 Rtrigo_def.cos (toRad JS.exact lat2) * Rtrigo_def.cos (toRad JS.exact lat1) *
                 Rtrigo_def.sin (toRad JS.exact (lon1 - lon2) / 2) *
                 Rtrigo_def.sin (toRad JS.exact (lon1 - lon2) / 2))%R).
    { rewrite !Rmult_assoc. rewrite (exact_sin_half_swap lon2 lon1). reflexivity. }
    rewrite F. reflexivity.
  - intros. unfold calculateDistance.
    cbn [JS.exact JS.plus JS.minus JS.times JS.divide JS.sqrt JS.sin JS.cos
         JS.arctan2 JS.literal].
    replace (lat - lat)%R with 0%R by ring. replace (lon - lon)%R with 0%R by ring.
    replace (toRad JS.exact 0 / 2)%R with 0%R by (unfold toRad; cbn; field).
    rewrite sin_0.
    replace (0 * 0 + Rtrigo_def.cos (toRad JS.exact lat) *
                     Rtrigo_def.cos (toRad JS.exact lat) * 0 * 0)%R with 0%R by ring.
    rewrite Rminus_0_r, sqrt_0, sqrt_1, atan2_0_1. ring.
  - intros m lat1 lon1 lat2 lon2 H1 H2.
    rewrite (calculateDistance_swap m lat1 lon1 lat2 lon2 H1 H2).
    split; [reflexivity|]. apply FloatFacts.eqb_refl.
  - intros m lat lon. apply calculateDistance_diagonal.
Qed.

(** C4 (as stated) fails: from (-82, -179) to the opposite point of the
    globe, (82, 1), rounding takes the term [a] above 1, the square root
    of [1 - a] is [NaN], and so is the distance, in both directions; the
    two are not [==]. *)
Lemma antipodal_distance_is_not_a_number :
  (let sin := JS.Math_sin Scenario.libm in
   let cos := JS.Math_cos Scenario.libm in
   let dLat := toRad (JS.doubles Scenario.libm) (82 - -82) in
   let dLon := toRad (JS.doubles Scenario.libm) (1 - -179) in
   sin (dLat / 2) * sin (dLat / 2) +
   cos (toRad (JS.doubles Scenario.libm) (-82)) *
   cos (toRad (JS.doubles Scenario.libm) 82) * sin (dLon / 2) * sin (dLon / 2) =
   0x1.0000000000001p+0)%float /\
  JS.Math_sqrt (1 - 0x1.0000000000001p+0)%float = nan /\
  is_nan (calculateDistance (JS.doubles Scenario.libm) (-82) (-179) 82 1)%float = true /\
  (calculateDistance (JS.doubles Scenario.libm) (-82) (-179) 82 1 =?
   calculateDistance (JS.doubles Scenario.libm) 82 1 (-82) (-179))%float = false.
Proof. repeat split; vm_compute; reflexivity. Qed.

(** *** The comparator and the two-key order *)

Lemma compareVendors_same_bucket a b :
  isLive a = isLive b ->
  compareVendors a b =
  (default infinity (distance_miles a) - default infinity (distance_miles b))%float.
Proof.
  unfold compareVendors, isLive.
  by destruct (status_eqb (operational_status a) offline),
    (status_eqb (operational_status b) offline).
Qed.

Lemma compareVendors_live_offline a b :
  isLive a = true -> isLive b = false -> compareVendors a b = (-1)%float.
Proof.
  unfold compareVendors, isLive.
  by destruct (status_eqb (operational_status a) offline),
    (status_eqb (operational_status b) offline).
Qed.

Lemma compareVendors_offline_live a b :
  isLive a = false -> isLive b = true -> compareVendors a b = 1%float.
Proof.
  unfold compareVendors, isLive.
  by destruct (status_eqb (operational_status a) offline),
    (status_eqb (operational_status b) offline).
Qed.

Lemma ranks_before_trans a b c :
  ranks_before a b -> ranks_before b c -> ranks_before a c.
Proof.
  unfold ranks_before, distance_le.
  intros [[La Lb]|[Eab Dab]] [[Lb' Lc]|[Ebc Dbc]].
  - congruence.
  - left. split; congruence.
  - left. split; congruence.
  - right. split; [congruence|]. eapply FloatFacts.leb_trans; eauto.
Qed.


Lemma compareVendors_negative y x :
  JS.negative (compareVendors y x) = true -> ranks_before y x.
Proof.
  unfold ranks_before, distance_le.
  destruct (isLive y) eqn:Ly, (isLive x) eqn:Lx.
  - rewrite compareVendors_same_bucket by congruence. unfold JS.negative. intros H.
    destruct (FloatFacts.negative_difference _ _ H) as [Ny Nx].
    rewrite FloatFacts.sub_negative in H by done. apply Z.ltb_lt in H.
    right. split; [done|]. rewrite FloatFacts.leb_ordinal by done. apply Z.leb_le. lia.
  - tauto.
  - by rewrite compareVendors_offline_live.
  - rewrite compareVendors_same_bucket by congruence. unfold JS.negative. intros H.
    destruct (FloatFacts.negative_difference _ _ H) as [Ny Nx].
    rewrite FloatFacts.sub_negative in H by done. apply Z.ltb_lt in H.
    right. split; [done|]. rewrite FloatFacts.leb_ordinal by done. apply Z.leb_le. lia.
Qed.

Lemma compareVendors_not_negative y x :
  distance_is_number y = true -> distance_is_number x = true ->
  JS.negative (compareVendors y x) = false -> ranks_before x y.
Proof.
  unfold ranks_before, distance_le, distance_is_number.
  rewrite !negb_true_iff. intros Ny Nx.
  destruct (isLive y) eqn:Ly, (isLive x) eqn:Lx.
  - rewrite compareVendors_same_bucket by congruence. unfold JS.negative.
    rewrite FloatFacts.sub_negative by done. intros H. apply Z.ltb_ge in H.
    right. split; [done|]. rewrite FloatFacts.leb_ordinal by done. by apply Z.leb_le.
  - by rewrite compareVendors_live_offline.
  - tauto.
  - rewrite compareVendors_same_bucket by congruence. unfold JS.negative.
    rewrite FloatFacts.sub_negative by done. intros H. apply Z.ltb_ge in H.
    right. split; [done|]. rewrite FloatFacts.leb_ordinal by done. by apply Z.leb_le.
Qed.




Local Open Scope float_scope.

(** *** Filtering *)

Lemma includes_spec (l : list string) (x : string) :
  includes l x = true <-> x ∈ l.
Proof.
  unfold includes. rewrite existsb_exists. split.
  - intros (y & Hy & E). apply String.eqb_eq in E. subst. by apply list_elem_of_In.
  - intros H. exists x. split; [by apply list_elem_of_In|apply String.eqb_refl].
Qed.

Lemma keepVendor_spec (liveOnly : bool) (selected : list string) v :
  keepVendor liveOnly selected v = true <->
  (liveOnly = true -> operational_status v <> offline) /\
  (selected <> [] -> exists t, t ∈ cuisine_types v /\ t ∈ selected).
Proof.
  unfold keepVendor.
  assert (Hex : existsb (fun type => includes selected type) (cuisine_types v) = true
                <-> exists t, t ∈ cuisine_types v /\ t ∈ selected).
  { rewrite existsb_exists. split.
    - intros (t & Ht & Hi). exists t. split; [by apply list_elem_of_In|by apply includes_spec].
    - intros (t & Ht & Hi). exists t. split; [by apply list_elem_of_In|by apply includes_spec]. }
  destruct liveOnly, (operational_status v) eqn:Es, selected as [|s0 sel];
    cbn [andb status_eqb length Nat.ltb Nat.leb negb];
    try (split; [discriminate|intros [H _]; exfalso; by apply H]);
    try (split; [intros _; split; [done|by intros []]|done]);
    destruct (existsb _ (cuisine_types v)) eqn:Ee; cbn [negb];
    try (split; [intros _; split; [done|intros _; by apply Hex]|done]);
    split; try discriminate; intros [_ H]; specialize (H ltac:(done));
    apply Hex in H; congruence.
Qed.

Lemma filter_sublist {A} (f : A -> bool) (l : list A) :
  sublist (List.filter f l) l.
Proof.
  induction l as [|x l IH]; simpl; [constructor|].
  destruct (f x); by constructor.
Qed.

Lemma filter_length_removed {A} (f : A -> bool) (l : list A) :
  length (List.filter f l) =
  (length l - length (List.filter (fun x => negb (f x)) l))%nat.
Proof.
  induction l as [|x l IH]; simpl; [done|].
  assert (length (List.filter (fun x => negb (f x)) l) <= length l)%nat
    by apply List.filter_length_le.
  destruct (f x); simpl; lia.
Qed.

(** What [fetchVendors] leaves in [vendors] when both queries answer. *)
Lemma fetchVendors_ok math store userLat userLng p :
  error (vendors_select store) = None ->
  error (vendor_status_select store) = None ->
  fetchVendors math store userLat userLng p =
  (Ok tt,
   {| vendors := rankVendors math store userLat userLng
                   (data (vendors_select store)) (data (vendor_status_select store));
      loading := false;
      userLocation := userLocation p;
      selectedCuisines := selectedCuisines p;
      showLiveOnly := showLiveOnly p;
      console := console p |}).
Proof.
  intros E1 E2. unfold fetchVendors. rewrite E1, E2. reflexivity.
Qed.

(** C5: the displayed list is computed from the stored ranked list and is
    a subsequence of it (kept vendors are the same records, in the same
    order); a vendor is kept iff it passes the live-only test, when that is
    switched on, and shares a tag with the selection, when the selection is
    not empty; with live-only on and no selection exactly the offline
    vendors go, and with nothing switched on every vendor stays. *)
Theorem filteredVendors_narrows (p : Page) :
  sublist (filteredVendors p) (vendors p) /\
  (forall v, v ∈ filteredVendors p <->
             v ∈ vendors p /\
             (showLiveOnly p = true -> operational_status v <> offline) /\
             (selectedCuisines p <> [] ->
              exists t, t ∈ cuisine_types v /\ t ∈ selectedCuisines p)) /\
  (showLiveOnly p = true -> selectedCuisines p = [] ->
   filteredVendors p =
   List.filter (fun v => negb (status_eqb (operational_status v) offline)) (vendors p)) /\
  (showLiveOnly p = false -> selectedCuisines p = [] ->
   filteredVendors p = vendors p) /\
  (forall math store userLat userLng,
      error (vendors_select store) = None ->
      error (vendor_status_select store) = None ->
      sublist (filteredVendors (snd (fetchVendors math store userLat userLng p)))
              (JS.sort compareVendors
                 (collectVendors math store userLat userLng
                    (new_Map (map (fun status => (sr_vendor_id status, status))
                                (default [] (data (vendor_status_select store)))))
                    (default [] (data (vendors_select store)))))).
Proof.
  unfold filteredVendors.
  split; [apply filter_sublist|].
  split; [|split; [|split]].
  - intros v. split.
    + intros H. apply list_elem_of_In, filter_In in H. destruct H as [Hin Hk].
      apply keepVendor_spec in Hk. split; [by apply list_elem_of_In|exact Hk].
    + intros [Hin Hk]. apply list_elem_of_In, filter_In.
      split; [by apply list_elem_of_In|by apply keepVendor_spec].
  - intros -> ->. apply filter_ext. intros v. unfold keepVendor.
    by destruct (operational_status v).
  - intros -> ->. unfold keepVendor. simpl.
    induction (vendors p) as [|x l IH]; simpl; [done|]. by rewrite IH.
  - intros math store userLat userLng E1 E2.
    rewrite (fetchVendors_ok _ _ _ _ _ E1 E2). cbn [snd vendors].
    apply filter_sublist.
Qed.


(** *** What the join keeps *)

Lemma new_Map_lookup_is_Some (entries : list (string * StatusRow)) (k : string) :
  is_Some (new_Map entries !! k) <-> k ∈ map fst entries.
Proof.
  unfold new_Map.
  assert (G : forall m : gmap string StatusRow,
             is_Some (fold_left (fun m e => <[fst e := snd e]> m) entries m !! k) <->
             is_Some (m !! k) \/ k ∈ map fst entries).
  { induction entries as [|[k0 v0] entries IH]; intros m; simpl.
    - rewrite elem_of_nil. tauto.
    - rewrite IH, elem_of_cons. destruct (decide (k0 = k)) as [->|Hne].
      + rewrite lookup_insert_eq. split; [intros _; right; by left|intros _; left; eauto].
      + rewrite lookup_insert_ne by done. split; [tauto|].
        intros [H|[H|H]]; [tauto|congruence|tauto]. }
  rewrite G, lookup_empty. split; [intros [[? ?]|?]; done|tauto].
Qed.

Lemma collectVendors_length math store userLat userLng statusMap vendorsData :
  length (collectVendors math store userLat userLng statusMap vendorsData) =
  length (List.filter (fun v => bool_decide (is_Some (statusMap !! vr_id v))) vendorsData).
Proof.
  induction vendorsData as [|v l IH]; simpl; [done|].
  destruct (statusMap !! vr_id v) as [status|] eqn:E.
  - rewrite bool_decide_true by eauto.
    destruct (locate math store userLat userLng status). simpl. by rewrite IH.
  - rewrite bool_decide_false by (intros [? ?]; done). exact IH.
Qed.

Lemma sort_length {A} (cmp : A -> A -> JS.number) (l : list A) :
  length (JS.sort cmp l) = length l.
Proof. apply Permutation_length, SortFacts.sort_perm. Qed.

(** C8 (as amended): the ranked list holds one entry for every candidate
    vendor that has a status row: candidates without one are skipped by the
    loop, the sort drops nothing; so when every candidate has a status row
    the ranked list is as long as the candidate list; and the displayed
    list is the ranked list less exactly the entries the filters remove. *)
Theorem ranked_length_counts_vendors_with_status
    math store userLat userLng vendorsData statusData :
  length (rankVendors math store userLat userLng vendorsData statusData) =
  length (List.filter (has_status_row statusData) (default [] vendorsData)) /\
  (forall l, length (JS.sort compareVendors l) = length l) /\
  (Forall (fun v => has_status_row statusData v = true) (default [] vendorsData) ->
   length (rankVendors math store userLat userLng vendorsData statusData) =
   length (default [] vendorsData)) /\
  (forall liveOnly selected,
      length (List.filter (keepVendor liveOnly selected)
                (rankVendors math store userLat userLng vendorsData statusData)) =
      (length (rankVendors math store userLat userLng vendorsData statusData) -
       length (List.filter (fun v => negb (keepVendor liveOnly selected v))
                 (rankVendors math store userLat userLng vendorsData statusData)))%nat).
Proof.
  assert (E : length (rankVendors math store userLat userLng vendorsData statusData) =
              length (List.filter (has_status_row statusData) (default [] vendorsData))).
  { unfold rankVendors. rewrite sort_length, collectVendors_length.
    f_equal. apply filter_ext. intros v. unfold has_status_row.
    apply bool_decide_ext. rewrite new_Map_lookup_is_Some.
    by rewrite map_map. }
  split; [exact E|]. split; [intros; apply sort_length|]. split.
  - intros Hall. rewrite E. f_equal. clear E.
    induction Hall as [|v l Hv Hall IH]; cbn [List.filter]; [done|].
    by rewrite Hv, IH.
  - intros. apply filter_length_removed.
Qed.

(** C8 (as stated) fails: one approved vendor without a status row, no
    filter switched on; the candidate list has one entry and the ranked and
    displayed lists have none. *)
Lemma vendor_without_status_row_is_dropped :
  data (vendors_select Scenario.store_without_status) = Some [Scenario.taco_row] /\
  showLiveOnly (snd (fetchVendors Scenario.libm Scenario.store_without_status 39.7684 (-86.1581)
                       Scenario.blank_page)) = false /\
  selectedCuisines (snd (fetchVendors Scenario.libm Scenario.store_without_status 39.7684 (-86.1581)
                           Scenario.blank_page)) = [] /\
  vendors (snd (fetchVendors Scenario.libm Scenario.store_without_status 39.7684 (-86.1581)
                  Scenario.blank_page)) = [] /\
  length (filteredVendors (snd (fetchVendors Scenario.libm Scenario.store_without_status 39.7684
                                  (-86.1581) Scenario.blank_page))) <>
  length [Scenario.taco_row].
Proof.
  rewrite fetchVendors_ok by reflexivity.
  repeat split. simpl. discriminate.
Qed.


(** *** Totality and the default origin *)

Lemma fetchVendors_returns math store userLat userLng p :
  exists vs cs,
    fetchVendors math store userLat userLng p =
    (Ok tt, {| vendors := vs; loading := false;
               userLocation := userLocation p;
               selectedCuisines := selectedCuisines p;
               showLiveOnly := showLiveOnly p;
               console := cs |}).
Proof.
  unfold fetchVendors.
  destruct (error (vendors_select store)) as [e1|] eqn:E1;
    [|destruct (error (vendor_status_select store)) as [e2|] eqn:E2];
    cbv [bind try_finally try_catch throw_if throw ret modify setLoading
         setVendors console_error]; simpl; eauto.
Qed.

Lemma collectVendors_without_location
    math store userLat userLng statusMap vendorsData vendor status :
  vendor ∈ vendorsData ->
  statusMap !! vr_id vendor = Some status ->
  locate math store userLat userLng status = (None, None) ->
  exists v, v ∈ collectVendors math store userLat userLng statusMap vendorsData /\
            id v = vr_id vendor /\
            operational_status v = sr_operational_status status /\
            location v = None /\ distance_miles v = None.
Proof.
  intros Hin Hs Hl. induction vendorsData as [|x l IH]; [by apply elem_of_nil in Hin|].
  apply elem_of_cons in Hin as [<-|Hin].
  - simpl. rewrite Hs, Hl. eexists. split; [by left|]. by simpl.
  - destruct (IH Hin) as (v & Hv & ?). exists v. split; [|done].
    simpl. destruct (statusMap !! vr_id x) as [sx|]; [|done].
    destruct (locate math store userLat userLng sx). by right.
Qed.

(** C9 (as amended): [fetchVendors] always returns normally, with
    [loading] switched off; an empty (or [null]) candidate list is ranked to
    the empty list; a status row with no location id, or whose location row
    cannot be read, gives neither location nor distance, and the vendor is
    still ranked, with its distance absent; a location row that is read is
    used as it is: its coordinates are not checked, and the distance is
    computed from them. *)
Theorem fetchVendors_total math store userLat userLng :
  (forall p, exists p',
      fetchVendors math store userLat userLng p = (Ok tt, p') /\ loading p' = false) /\
  (forall statusData,
      rankVendors math store userLat userLng (Some []) statusData = [] /\
      rankVendors math store userLat userLng None statusData = []) /\
  (forall status,
      JS.truthy (sr_current_location_id status) = false \/
      data (locations_single store (default "" (sr_current_location_id status))) = None ->
      locate math store userLat userLng status = (None, None)) /\
  (forall vendorsData statusData vendor status,
      vendor ∈ default [] vendorsData ->
      new_Map (map (fun s => (sr_vendor_id s, s)) (default [] statusData))
        !! vr_id vendor = Some status ->
      JS.truthy (sr_current_location_id status) = false \/
      data (locations_single store (default "" (sr_current_location_id status))) = None ->
      exists v, v ∈ rankVendors math store userLat userLng vendorsData statusData /\
                id v = vr_id vendor /\
                operational_status v = sr_operational_status status /\
                location v = None /\ distance_miles v = None) /\
  (forall status locationData,
      JS.truthy (sr_current_location_id status) = true ->
      data (locations_single store (default "" (sr_current_location_id status)))
        = Some locationData ->
      locate math store userLat userLng status =
      (Some {| latitude := lr_latitude locationData;
               longitude := lr_longitude locationData;
               address := JS.or_undefined (lr_address locationData);
               notes := JS.or_undefined (lr_notes locationData) |},
       Some (calculateDistance (JS.doubles math) userLat userLng
               (lr_latitude locationData) (lr_longitude locationData)))).
Proof.
  assert (L : forall status,
             JS.truthy (sr_current_location_id status) = false \/
             data (locations_single store (default "" (sr_current_location_id status))) = None ->
             locate math store userLat userLng status = (None, None)).
  { intros status [H|H]; unfold locate; rewrite H; [done|].
    by destruct (JS.truthy _). }
  split; [|split; [|split; [|split]]].
  - intros p. destruct (fetchVendors_returns math store userLat userLng p) as (vs & cs & E).
    eexists. split; [exact E|done].
  - intros. split; reflexivity.
  - exact L.
  - intros vendorsData statusData vendor status Hin Hs Hl.
    destruct (collectVendors_without_location math store userLat userLng _ _ _ _
                Hin Hs (L _ Hl)) as (v & Hv & Hrest).
    exists v. split; [|exact Hrest].
    unfold rankVendors. by rewrite SortFacts.sort_perm.
  - intros status locationData Ht Hd. unfold locate. by rewrite Ht, Hd.
Qed.

(** C9 (as stated) fails: the location row of the vendor holds the
    latitude 999; the vendor is ranked with that location and with the
    distance computed from it, not with an absent distance. *)
Lemma out_of_range_latitude_gets_distance :
  rankVendors Scenario.libm Scenario.store_out_of_range 39.7684 (-86.1581)
    (data (vendors_select Scenario.store_out_of_range))
    (data (vendor_status_select Scenario.store_out_of_range)) =
  [ {| id := "v1"; business_name := "Taco Truck"; description := "Street tacos";
       cuisine_types := ["Mexican"; "BBQ"]; logo_url := None;
       operational_status := live;
       location := Some {| latitude := 999; longitude := 0;
                           address := None; notes := None |};
       distance_miles :=
         Some (calculateDistance (JS.doubles Scenario.libm) 39.7684 (-86.1581) 999 0) |} ] /\
  calculateDistance (JS.doubles Scenario.libm) 39.7684 (-86.1581) 999 0 =
    0x1.15aa7e4a63123p+13 /\
  Some (calculateDistance (JS.doubles Scenario.libm) 39.7684 (-86.1581) 999 0) <> None.
Proof. split; [reflexivity|]. split; [vm_compute; reflexivity|discriminate]. Qed.

(** C10: when the browser has no position sensor, or the position request
    fails or is denied, [requestLocation] records the default coordinate
    (39.7684, -86.1581) as the user's location and runs [fetchVendors] with
    exactly that origin, so that the vendors are ranked by distance from
    it. *)
Theorem requestLocation_default_origin math geolocation store p :
  geolocation = None \/ (exists message, geolocation = Some (JS.PositionFailure message)) ->
  (exists p0,
      userLocation p0 = Some (39.7684, -86.1581) /\
      vendors p0 = vendors p /\
      selectedCuisines p0 = selectedCuisines p /\
      showLiveOnly p0 = showLiveOnly p /\
      requestLocation math geolocation store p =
      fetchVendors math store 39.7684 (-86.1581) p0) /\
  userLocation (snd (requestLocation math geolocation store p)) =
    Some (39.7684, -86.1581) /\
  (error (vendors_select store) = None ->
   error (vendor_status_select store) = None ->
   vendors (snd (requestLocation math geolocation store p)) =
   rankVendors math store 39.7684 (-86.1581)
     (data (vendors_select store)) (data (vendor_status_select store))).
Proof.
  intros Hgeo.
  assert (Hp0 : exists p0,
             userLocation p0 = Some (39.7684, -86.1581) /\
             vendors p0 = vendors p /\
             selectedCuisines p0 = selectedCuisines p /\
             showLiveOnly p0 = showLiveOnly p /\
             requestLocation math geolocation store p =
             fetchVendors math store 39.7684 (-86.1581) p0).
  { destruct Hgeo as [->|[message ->]].
    - exists (snd (setUserLocation (39.7684, -86.1581) p)). by repeat split.
    - exists (snd (setUserLocation (39.7684, -86.1581)
                     (snd (console_error "Geolocation error:" p)))).
      by repeat split. }
  split; [exact Hp0|].
  destruct Hp0 as (p0 & Hu & _ & _ & _ & ->). split.
  - destruct (fetchVendors_returns math store 39.7684 (-86.1581) p0) as (vs & cs & ->).
    exact Hu.
  - intros E1 E2. by rewrite (fetchVendors_ok _ _ _ _ _ E1 E2).
Qed.

(** *** The scenarios of the specification, and the theorems at work *)

Example rank_live_before_offline :
  JS.sort compareVendors [Scenario.near_offline; Scenario.far_live] =
  [Scenario.far_live; Scenario.near_offline].
Proof. vm_compute. reflexivity. Qed.

Example rank_nearer_first :
  JS.sort compareVendors [Scenario.live_2_3; Scenario.live_0_9] =
  [Scenario.live_0_9; Scenario.live_2_3].
Proof. vm_compute. reflexivity. Qed.

Example rank_scenario_from_default_origin :
  map (fun v => (id v, operational_status v, distance_miles v))
    (rankVendors Scenario.libm Scenario.store_two_vendors 39.7684 (-86.1581)
       (data (vendors_select Scenario.store_two_vendors))
       (data (vendor_status_select Scenario.store_two_vendors))) =
  [ ("v1", live, Some 0x1.c6d51e16d54d2p-2); ("v2", offline, None) ].
Proof. vm_compute. reflexivity. Qed.

Example filter_mexican :
  filteredVendors Scenario.mexican_page =
  [Scenario.vendor "A" ["Mexican"; "BBQ"] live (Some 2.3)].
Proof. reflexivity. Qed.

Lemma calculateDistance_haversine_witness :
  calculateDistance (JS.doubles Scenario.libm) 39.77 (-86.15) 39.7684 (-86.1581) =
  calculateDistance (JS.doubles Scenario.libm) 39.7684 (-86.1581) 39.77 (-86.15) /\
  calculateDistance (JS.doubles Scenario.libm) 39.7684 (-86.1581) 39.7684 (-86.1581) = 0.
Proof.
  split.
  - apply (proj1 (proj2 (proj2 (proj2 calculateDistance_haversine)))
             Scenario.libm 39.7684 (-86.1581) 39.77 (-86.15));
      vm_compute; reflexivity.
  - apply (proj2 (proj2 (proj2 (proj2 calculateDistance_haversine)))
             Scenario.libm 39.7684 (-86.1581)); vm_compute; reflexivity.
Defined.


Lemma filteredVendors_narrows_witness :
  error (vendors_select Scenario.store_two_vendors) = None /\
  error (vendor_status_select Scenario.store_two_vendors) = None /\
  sublist
    (filteredVendors (snd (fetchVendors Scenario.libm Scenario.store_two_vendors 39.7684 (-86.1581)
                             Scenario.mexican_page)))
    (JS.sort compareVendors
       (collectVendors Scenario.libm Scenario.store_two_vendors 39.7684 (-86.1581)
          (new_Map (map (fun status => (sr_vendor_id status, status))
                      (default [] (data (vendor_status_select Scenario.store_two_vendors)))))
          (default [] (data (vendors_select Scenario.store_two_vendors))))).
Proof.
  split; [reflexivity|]. split; [reflexivity|].
  apply (proj2 (proj2 (proj2 (proj2 (filteredVendors_narrows Scenario.mexican_page)))));
    reflexivity.
Defined.

Lemma ranked_length_counts_vendors_with_status_witness :
  Forall (fun v => has_status_row (data (vendor_status_select Scenario.store_two_vendors)) v = true)
    [Scenario.pasta_row; Scenario.taco_row] /\
  length (rankVendors Scenario.libm Scenario.store_two_vendors 39.7684 (-86.1581)
            (Some [Scenario.pasta_row; Scenario.taco_row])
            (data (vendor_status_select Scenario.store_two_vendors))) = 2%nat.
Proof.
  assert (H : Forall (fun v => has_status_row
                                 (data (vendor_status_select Scenario.store_two_vendors)) v = true)
                [Scenario.pasta_row; Scenario.taco_row]).
  { repeat constructor. }
  split; [exact H|].
  exact (proj1 (proj2 (proj2
           (ranked_length_counts_vendors_with_status Scenario.libm Scenario.store_two_vendors
              39.7684 (-86.1581) (Some [Scenario.pasta_row; Scenario.taco_row])
              (data (vendor_status_select Scenario.store_two_vendors))))) H).
Defined.

Lemma fetchVendors_total_witness :
  exists v,
    v ∈ rankVendors Scenario.libm Scenario.store_two_vendors 39.7684 (-86.1581)
          (data (vendors_select Scenario.store_two_vendors))
          (data (vendor_status_select Scenario.store_two_vendors)) /\
    id v = "v2" /\ operational_status v = offline /\
    location v = None /\ distance_miles v = None.
Proof.
  apply (proj1 (proj2 (proj2 (proj2 (fetchVendors_total Scenario.libm Scenario.store_two_vendors
                                       39.7684 (-86.1581)))))
           _ _ Scenario.pasta_row
           {| sr_vendor_id := "v2"; sr_operational_status := offline;
              sr_current_location_id := Some "gone" |}).
  - by left.
  - reflexivity.
  - right. reflexivity.
Defined.

Lemma requestLocation_default_origin_witness :
  userLocation (snd (requestLocation Scenario.libm
                       (Some (JS.PositionFailure "User denied Geolocation"))
                       Scenario.store_two_vendors Scenario.blank_page)) =
  Some (39.7684, -86.1581).
Proof.
  apply (requestLocation_default_origin Scenario.libm
           (Some (JS.PositionFailure "User denied Geolocation"))
           Scenario.store_two_vendors Scenario.blank_page).
  right. by eexists.
Defined.

End SearchFacts.


(** ** Facts about the status controller *)
Module GoLiveButtonFacts.
Import Types Exec GoLiveButton.

(** *** Sessions and phases *)

Ltac split_pairs :=
  repeat match goal with
    | |- context [let '(_, _) := ?x in _] => destruct x
    end.

Lemma not_loading_no_call a :
  one_call a -> loading (ui (page a)) = false -> call a = None.
Proof.
  intros H L. destruct (call a) as [c|] eqn:E; [|done].
  unfold one_call in H. rewrite E in H. rewrite H in L by eauto. done.
Qed.

Lemma session_step_phases vendorId a e :
  one_call a ->
  session_step vendorId (session_of vendorId a) e =
  session_of vendorId (phase_step vendorId a e).
Proof.
  intros Hone. unfold session_step, phase_step.
  change (world (session_of vendorId a)) with (page a).
  destruct (enabled (ui (page a)) e) eqn:En; [|done].
  destruct e as [|t|i env|i|i position| |geolocation| | |text|l| |].
  - (* Mount *) reflexivity.
  - (* Tick *) reflexivity.
  - (* StoreHandles *)
    destruct a as [w t q c]. unfold session_of, slot. cbn [page time query call].
    destruct q as [[|r]|], c as [[s|s err|n la lo ad ci st z|n la lo ad ci st z r'|t' l'|t' l' err|n]|],
      i as [|[|i]]; cbn; try reflexivity;
      unfold vendor_status_update, locations_insert;
      try (destruct (update_outcome env)); try (destruct (insert_outcome env));
      reflexivity.
  - (* AnswerArrives *)
    destruct a as [w t q c]. unfold session_of, slot. cbn [page time query call].
    destruct q as [[|r]|], c as [[s|s err|n la lo ad ci st z|n la lo ad ci st z r'|t' l'|t' l' err|n]|],
      i as [|[|i]]; cbn; try reflexivity.
    all: try (destruct r as [[s0|] [e0|]]; reflexivity).
    all: try (destruct s, err as [e0|]; reflexivity).
    all: try (destruct err as [e0|]; reflexivity).
    all: try (destruct r' as [[l0|] [e0|]]; reflexivity).
  - (* PositionArrives *)
    destruct a as [w t q c]. unfold session_of, slot. cbn [page time query call].
    destruct q as [[|r]|], c as [[s|s err|n la lo ad ci st z|n la lo ad ci st z r'|t' l'|t' l' err|n]|],
      i as [|[|i]]; cbn; try reflexivity; destruct position; reflexivity.
  - (* the status button *)
    cbn in En. apply andb_prop in En as [_ L]. apply negb_true_iff in L.
    pose proof (not_loading_no_call a Hone L) as Hc.
    destruct a as [w t q c]. cbn in Hc. subst c.
    unfold session_of, begin. cbn [page time query call world clock tasks handler started].
    destruct q as [[|r]|], (status (ui w)); reflexivity.
  - (* the GPS button *)
    cbn in En. apply andb_prop in En as [_ L]. apply negb_true_iff in L.
    pose proof (not_loading_no_call a Hone L) as Hc.
    destruct a as [w t q c]. cbn in Hc. subst c.
    unfold session_of, begin. cbn [page time query call world clock tasks handler started].
    destruct q as [[|r]|], geolocation; reflexivity.
  - unfold session_of, begin. cbn. by rewrite app_nil_r.
  - unfold session_of, begin. cbn. by rewrite app_nil_r.
  - unfold session_of, begin. cbn. by rewrite app_nil_r.
  - unfold session_of, begin. cbn. by rewrite app_nil_r.
  - (* the go-live button of the search form *)
    cbn in En. apply andb_prop in En as [_ L]. apply negb_true_iff in L.
    apply orb_false_iff in L as [L _].
    pose proof (not_loading_no_call a Hone L) as Hc.
    destruct a as [w t q c]. cbn in Hc. subst c.
    unfold session_of, begin. cbn [page time query call world clock tasks handler started].
    destruct q as [[|r]|], (selectedLocation (ui w)); reflexivity.
  - unfold session_of, begin. cbn. by rewrite app_nil_r.
Qed.


Lemma perform_database a w :
  database (perform a w) = database w /\ calls (perform a w) = calls w.
Proof. by destruct a. Qed.

(** Code that runs on the page changes neither the store nor the log of
    the calls the store has handled. *)
Lemma advance_database p : forall t w,
  database (fst (advance t p w)) = database w /\
  calls (fst (advance t p w)) = calls w.
Proof.
  induction p as [|e|a k IH|k IH|v k IH|row k IH|v u k IH|success IHs failure IHf k IH];
    intros t w; cbn [advance]; try done.
  - destruct (IH t (perform a w)) as [-> ->]. apply perform_database.
  - specialize (IH t w). by destruct (advance t k w).
Qed.

Lemma phase_step_one_call vendorId a e :
  one_call a -> one_call (phase_step vendorId a e).
Proof.
  unfold one_call, phase_step. intros Hone.
  destruct (enabled (ui (page a)) e) eqn:En; [|done].
  destruct e as [|t|i env|i|i position| |geolocation| | |text|l| |].
  - cbn. by intros [? ?].
  - exact Hone.
  - destruct a as [w t q c]. unfold slot. cbn [page time query call] in *.
    destruct q as [[|r]|], c as [[s|s err|n la lo ad ci st z|n la lo ad ci st z r'|t' l'|t' l' err|n]|],
      i as [|[|i]]; cbn; try exact Hone; try (by intros [? ?]);
      unfold vendor_status_update, locations_insert;
      try (destruct (update_outcome env)); try (destruct (insert_outcome env));
      cbn; intros _; apply Hone; eauto.
  - destruct a as [w t q c]. unfold slot. cbn [page time query call] in *.
    destruct q as [[|r]|], c as [[s|s err|n la lo ad ci st z|n la lo ad ci st z r'|t' l'|t' l' err|n]|],
      i as [|[|i]]; cbn; try exact Hone; try (by intros [? ?]);
      try (destruct r as [[s0|] [e0|]]; cbn; intros _; apply Hone; eauto; fail);
      try (destruct r' as [[l0|] [e0|]]; cbn; try (by intros [? ?]);
           intros _; apply Hone; eauto).
  - destruct a as [w t q c]. unfold slot. cbn [page time query call] in *.
    destruct q as [[|r]|], c as [[s|s err|n la lo ad ci st z|n la lo ad ci st z r'|t' l'|t' l' err|n]|],
      i as [|[|i]]; cbn; try exact Hone; try (by intros [? ?]);
      destruct position; cbn; try (by intros [? ?]); intros _; apply Hone; eauto.
  - cbn in En. apply andb_prop in En as [_ L]. apply negb_true_iff in L.
    cbn [handler started page call]. by destruct (status (ui (page a))).
  - cbn in En. apply andb_prop in En as [_ L]. apply negb_true_iff in L.
    cbn [handler started page call]. destruct geolocation; cbn; [done|].
    intros H. rewrite Hone in L by done. done.
  - exact Hone.
  - exact Hone.
  - exact Hone.
  - exact Hone.
  - cbn in En. apply andb_prop in En as [_ L]. apply negb_true_iff in L.
    apply orb_false_iff in L as [L _].
    cbn [handler started page call]. by destruct (selectedLocation (ui (page a))).
  - exact Hone.
Qed.

Lemma session_run_phases vendorId events : forall a,
  one_call a ->
  session_run vendorId (session_of vendorId a) events =
    session_of vendorId (phase_run vendorId a events) /\
  one_call (phase_run vendorId a events).
Proof.
  induction events as [|e events IH]; intros a Hone; [done|].
  cbn [session_run phase_run fold_left].
  rewrite session_step_phases by done.
  apply IH. by apply phase_step_one_call.
Qed.

Lemma one_call_resting w : one_call (resting w).
Proof. by intros [? ?]. Qed.

Lemma run_phases vendorId w events :
  run vendorId w events = page (phase_run vendorId (resting w) events).
Proof.
  unfold run. change (at_rest w) with (session_of vendorId (resting w)).
  by rewrite (proj1 (session_run_phases vendorId events _ (one_call_resting w))).
Qed.

Lemma throughout_phases ok vendorId events : forall a,
  one_call a ->
  throughout ok vendorId (session_of vendorId a) events = true ->
  match events with
  | [] => True
  | e :: rest =>
      ok (session_of vendorId a) e = true /\
      throughout ok vendorId (session_of vendorId (phase_step vendorId a e)) rest = true
  end.
Proof.
  intros a Hone. destruct events as [|e rest]; [done|].
  cbn [throughout]. rewrite session_step_phases by done.
  intros H. by apply andb_prop in H.
Qed.

(** What a step can do to the two tables: nothing; a status update goes
    through; a location row is added; the update of a go-live goes
    through. *)
Lemma phase_step_database vendorId a e :
  let a' := phase_step vendorId a e in
  database (page a') = database (page a) \/
  (exists s,
      call a = Some (UpdateSent s) /\ call a' = Some (UpdateTold s None) /\
      ui (page a') = ui (page a) /\
      locations (database (page a')) = locations (database (page a)) /\
      vendor_status (database (page a')) =
        alter (apply_update (updates_for s)) vendorId
          (vendor_status (database (page a)))) \/
  (exists n la lo ad ci st z new_id,
      let l := inserted_row new_id (go_live_row vendorId n la lo ad ci st z) in
      call a = Some (InsertSent n la lo ad ci st z) /\
      call a' = Some (InsertTold n la lo ad ci st z {| data := Some l; error := None |}) /\
      ui (page a') = ui (page a) /\
      locations (database (page a')) = locations (database (page a)) ++ [l] /\
      vendor_status (database (page a')) = vendor_status (database (page a))) \/
  (exists t l,
      call a = Some (GoLiveSent t l) /\ call a' = Some (GoLiveTold t l None) /\
      ui (page a') = ui (page a) /\
      locations (database (page a')) = locations (database (page a)) /\
      vendor_status (database (page a')) =
        alter (apply_update (go_live_update t (loc_id l))) vendorId
          (vendor_status (database (page a)))).
Proof.
  unfold phase_step.
  destruct (enabled (ui (page a)) e) eqn:En; [|by left].
  destruct e as [|t|i env|i|i position| |geolocation| | |text|l| |];
    try (left; cbn [page]; apply advance_database); try (by left).
  - (* StoreHandles *)
    destruct a as [w t q c]. unfold slot. cbn [page time query call].
    destruct q as [[|r]|], c as [[s|s err|n la lo ad ci st z|n la lo ad ci st z r'|t' l'|t' l' err|n]|],
      i as [|[|i]]; cbn; try (by left);
      unfold vendor_status_update, locations_insert;
      try (destruct (update_outcome env)); try (destruct (insert_outcome env));
      cbn; try (by left);
      try (right; left; by eexists);
      try (right; right; left; by eexists _, _, _, _, _, _, _, _);
      try (right; right; right; by eexists _, _).
  - (* AnswerArrives *)
    destruct a as [w t q c]. unfold slot. cbn [page time query call].
    destruct q as [[|r]|], c as [[s|s err|n la lo ad ci st z|n la lo ad ci st z r'|t' l'|t' l' err|n]|],
      i as [|[|i]]; cbn [page]; try (by left); left; apply advance_database.
  - (* PositionArrives *)
    destruct a as [w t q c]. unfold slot. cbn [page time query call].
    destruct q as [[|r]|], c as [[s|s err|n la lo ad ci st z|n la lo ad ci st z r'|t' l'|t' l' err|n]|],
      i as [|[|i]]; cbn [page]; try (by left); destruct position; cbn [page];
      try (by left); left; apply advance_database.
Qed.

(** *** What one call of a writing handler does, with nothing in between *)

Lemma updateStatus_failed env vendorId newStatus w e :
  update_outcome env = Failed e ->
  let w' := snd (complete env (updateStatus vendorId newStatus) w) in
  database w' = database w /\
  calls w' = calls w ++ [UpdateStatus vendorId (updates_for newStatus)] /\
  status (ui w') = status (ui w) /\
  showLocationInput (ui w') = showLocationInput (ui w) /\
  alerts w' = alerts w ++ ["Failed to update status. Please try again."].
Proof.
  intros E. cbn. unfold vendor_status_update. rewrite E.
  destruct newStatus; repeat split.
Qed.

Lemma updateStatus_done env vendorId newStatus w u :
  update_outcome env = Done u ->
  let w' := snd (complete env (updateStatus vendorId newStatus) w) in
  vendor_status (database w') =
    alter (apply_update (updates_for newStatus)) vendorId (vendor_status (database w)) /\
  locations (database w') = locations (database w) /\
  calls w' = calls w ++ [UpdateStatus vendorId (updates_for newStatus)] /\
  status (ui w') = newStatus /\
  showLocationInput (ui w') = showLocationInput (ui w).
Proof.
  intros E. cbn. unfold vendor_status_update. rewrite E.
  destruct newStatus; repeat split.
Qed.

Lemma createLocationAndGoLive_insert_failed
    env vendorId notes latitude longitude address city state zip w e :
  insert_outcome env = Failed e ->
  let w' := snd (complete env (createLocationAndGoLive vendorId notes latitude
                                 longitude address city state zip) w) in
  database w' = database w /\
  calls w' = calls w ++
    [InsertLocation (go_live_row vendorId notes latitude longitude
                       address city state zip)] /\
  status (ui w') = status (ui w) /\
  showLocationInput (ui w') = showLocationInput (ui w) /\
  alerts w' = alerts w ++ ["Failed to go live. Please try again."].
Proof.
  intros E. cbn. unfold locations_insert. rewrite E. repeat split.
Qed.

Lemma createLocationAndGoLive_update_failed
    env vendorId notes latitude longitude address city state zip w new_id e :
  insert_outcome env = Done new_id ->
  update_outcome env = Failed e ->
  let w' := snd (complete env (createLocationAndGoLive vendorId notes latitude
                                 longitude address city state zip) w) in
  let row := go_live_row vendorId notes latitude longitude address city state zip in
  vendor_status (database w') = vendor_status (database w) /\
  locations (database w') = locations (database w) ++ [inserted_row new_id row] /\
  calls w' = calls w ++
    [InsertLocation row; UpdateStatus vendorId (go_live_update (now env) new_id)] /\
  status (ui w') = status (ui w) /\
  showLocationInput (ui w') = showLocationInput (ui w) /\
  alerts w' = alerts w ++ ["Failed to go live. Please try again."].
Proof.
  intros E1 E2. cbn. unfold locations_insert. rewrite E1. cbn.
  unfold vendor_status_update. rewrite E2. cbn.
  repeat split. by rewrite <- app_assoc.
Qed.

Lemma createLocationAndGoLive_done
    env vendorId notes latitude longitude address city state zip w new_id u :
  insert_outcome env = Done new_id ->
  update_outcome env = Done u ->
  let w' := snd (complete env (createLocationAndGoLive vendorId notes latitude
                                 longitude address city state zip) w) in
  let row := go_live_row vendorId notes latitude longitude address city state zip in
  vendor_status (database w') =
    alter (apply_update (go_live_update (now env) new_id)) vendorId
      (vendor_status (database w)) /\
  locations (database w') = locations (database w) ++ [inserted_row new_id row] /\
  calls w' = calls w ++
    [InsertLocation row; UpdateStatus vendorId (go_live_update (now env) new_id)] /\
  status (ui w') = live /\
  showLocationInput (ui w') = false /\
  alerts w' = alerts w ++ ["You are now live! 🎉"].
Proof.
  intros E1 E2. cbn. unfold locations_insert. rewrite E1. cbn.
  unfold vendor_status_update. rewrite E2. cbn.
  repeat split. by rewrite <- app_assoc.
Qed.

Lemma stored_alter vendorId (w w' : World) u :
  vendor_status (database w') =
    alter (apply_update u) vendorId (vendor_status (database w)) ->
  stored vendorId w' = apply_update u <$> stored vendorId w.
Proof. unfold stored. intros ->. by rewrite lookup_alter_eq. Qed.

Lemma stored_same vendorId (w w' : World) :
  vendor_status (database w') = vendor_status (database w) ->
  stored vendorId w' = stored vendorId w.
Proof. unfold stored. by intros ->. Qed.

(** C6: a go-live without a coordinate changes nothing in the store and
    sends it nothing.  Through the GPS button: when the browser has no
    sensor the handler tells the user to enter the location by hand,
    switches the search form on and is done; when it has one, the handler
    leaves the request with the browser and returns, and the callback of a
    failed request, whenever it runs, tells the user to search by hand and
    switches the search form on.  Through the search form, when no location
    is selected, the user is asked to select one first.  In the session in
    which the GPS button is pressed, the position fails if it was asked
    for, and the go-live button of the search form is pressed with nothing
    selected, no call reaches the store and the stored and the displayed
    status stay as they were. *)
Theorem go_live_without_location env vendorId :
  (forall notes w,
      complete env (goLiveWithGPS vendorId notes false) w =
      (Ok tt,
       {| ui := {| status := status (ui w); loading := false;
                   locationNotes := locationNotes (ui w);
                   showLocationInput := showLocationInput (ui w);
                   useManualLocation := true;
                   selectedLocation := selectedLocation (ui w) |};
          database := database w;
          calls := calls w;
          alerts := alerts w ++
            ["Geolocation is not supported by your browser. Please use manual location entry."];
          console := console w |})) /\
  (forall notes clock w,
      exists success failure,
        advance clock (goLiveWithGPS vendorId notes true) w =
        (perform (SetLoading true) w, [Locating success failure]) /\
        forall message w1,
          complete env (failure message) w1 =
          (Ok tt,
           {| ui := {| status := status (ui w1); loading := false;
                       locationNotes := locationNotes (ui w1);
                       showLocationInput := showLocationInput (ui w1);
                       useManualLocation := true;
                       selectedLocation := selectedLocation (ui w1) |};
              database := database w1;
              calls := calls w1;
              alerts := alerts w1 ++
                ["Could not get your location. Please search for it manually."];
              console := console w1 ++ ["Geolocation error:"] |})) /\
  (forall notes w,
      complete env (goLiveWithSearchedLocation vendorId notes None) w =
      (Ok tt,
       {| ui := ui w; database := database w; calls := calls w;
          alerts := alerts w ++ ["Please search and select a location first"];
          console := console w |})) /\
  (forall geolocation i message w,
      selectedLocation (ui w) = None ->
      let w' := run vendorId w
                  [ClickUseGPS geolocation;
                   PositionArrives i (JS.PositionFailure message);
                   ClickGoLiveHere] in
      locations (database w') = locations (database w) /\
      stored vendorId w' = stored vendorId w /\
      calls w' = calls w /\
      status (ui w') = status (ui w)).
Proof.
  split; [|split; [|split]].
  - reflexivity.
  - intros notes clock w. eexists _, _. split; [reflexivity|]. reflexivity.
  - reflexivity.
  - intros geolocation i message w Hsel.
    destruct w as [[st ld notes show manual sel] db cl al co]. cbn in Hsel. subst sel.
    destruct show, manual, ld, geolocation, i as [|i]; done.
Qed.

(** C7: one call of [createLocationAndGoLive] sends the location insert
    first.  If the insert fails, nothing else is sent, the store and the
    displayed status stay as they were, and the failure is reported.  If it
    succeeds, the status update is sent next and names the id of the row
    just inserted, which is then in [locations]; if that update fails the
    vendor's status rows and the displayed status stay as they were and the
    failure is reported; only if it succeeds is the vendor's row rewritten
    and the displayed status set to [live]. *)
Theorem go_live_writes_in_order
    env vendorId notes latitude longitude address city state zip w :
  let w' := snd (complete env (createLocationAndGoLive vendorId notes latitude
                                 longitude address city state zip) w) in
  let row := go_live_row vendorId notes latitude longitude address city state zip in
  match insert_outcome env with
  | Failed _ =>
      calls w' = calls w ++ [InsertLocation row] /\
      database w' = database w /\
      status (ui w') = status (ui w) /\
      alerts w' = alerts w ++ ["Failed to go live. Please try again."]
  | Done new_id =>
      calls w' = calls w ++
        [InsertLocation row;
         UpdateStatus vendorId (go_live_update (now env) new_id)] /\
      u_current_location_id (go_live_update (now env) new_id) = Some (Some new_id) /\
      (exists l, l ∈ locations (database w') /\ loc_id l = new_id) /\
      match update_outcome env with
      | Failed _ =>
          vendor_status (database w') = vendor_status (database w) /\
          status (ui w') = status (ui w) /\
          alerts w' = alerts w ++ ["Failed to go live. Please try again."]
      | Done _ =>
          vendor_status (database w') =
            alter (apply_update (go_live_update (now env) new_id)) vendorId
              (vendor_status (database w)) /\
          status (ui w') = live
      end
  end.
Proof.
  intros w' row.
  destruct (insert_outcome env) as [new_id|err] eqn:E1.
  - destruct (update_outcome env) as [u|err] eqn:E2.
    + destruct (createLocationAndGoLive_done env vendorId notes latitude longitude
                  address city state zip w new_id u E1 E2)
        as (Hv & Hl & Hc & Hs & _).
      fold w' in Hv, Hl, Hc, Hs. fold row in Hl, Hc.
      split; [exact Hc|]. split; [done|]. split; [|done].
      exists (inserted_row new_id row). rewrite Hl, elem_of_app, list_elem_of_singleton.
      split; [by right|done].
    + destruct (createLocationAndGoLive_update_failed env vendorId notes latitude
                  longitude address city state zip w new_id err E1 E2)
        as (Hv & Hl & Hc & Hs & _ & Ha).
      fold w' in Hv, Hl, Hc, Hs, Ha. fold row in Hl, Hc.
      split; [exact Hc|]. split; [done|]. split; [|done].
      exists (inserted_row new_id row). rewrite Hl, elem_of_app, list_elem_of_singleton.
      split; [by right|done].
  - destruct (createLocationAndGoLive_insert_failed env vendorId notes latitude
                longitude address city state zip w err E1)
      as (Hd & Hc & Hs & _ & Ha).
    done.
Qed.


Lemma stored_status_is_true vendorId w s :
  stored_status_is vendorId w s = true <->
  exists row, stored vendorId w = Some row /\ vs_operational_status row = s.
Proof.
  unfold stored_status_is. destruct (stored vendorId w) as [row|].
  - split.
    + intros H. exists row. split; [done|]. by destruct (vs_operational_status row), s.
    + intros (row' & [= <-] & <-). by destruct (vs_operational_status row).
  - split; [done|]. by intros (? & ? & ?).
Qed.

Ltac open_phase a :=
  destruct a as [[[dst ld notes show manual sel] db cl al co] t q c];
  unfold slot, stored in *; cbn [page time query call ui database vendor_status
    locations showLocationInput loading status] in *.

Ltac store_cases env :=
  unfold vendor_status_update, locations_insert;
  try (destruct (update_outcome env)); try (destruct (insert_outcome env)).

(** *** The stored status moves along the cycle *)

Lemma step_in_cycle vendorId a e row :
  one_call a ->
  pressed_in_sync vendorId (session_of vendorId a) e = true ->
  stored vendorId (page a) = Some row ->
  call_fits (vs_operational_status row) (showLocationInput (ui (page a))) (call a) ->
  exists row',
    stored vendorId (page (phase_step vendorId a e)) = Some row' /\
    call_fits (vs_operational_status row')
      (showLocationInput (ui (page (phase_step vendorId a e))))
      (call (phase_step vendorId a e)) /\
    (row' = row \/
     vs_operational_status row' = cycle_next (vs_operational_status row)).
Proof.
  intros Hone Hsync Hrow Hfit. unfold phase_step.
  destruct (enabled (ui (page a)) e) eqn:En; [|by exists row; auto].
  destruct e as [|t0|i env|i|i position| |geolocation| | |text|l| |].
  - exists row. split; [exact Hrow|]. split; [by cbn|by left].
  - exists row. split; [exact Hrow|]. split; [exact Hfit|by left].
  - open_phase a.
    destruct q as [[|r]|], c as [[s|s err|n la lo ad ci st z|n la lo ad ci st z r'|t' l'|t' l' err|n]|],
      i as [|[|i]]; cbn; try (exists row; done).
    all: store_cases env; cbn.
    all: rewrite ?lookup_alter_eq, ?Hrow; cbn.
    all: try (exists row; split; [done|]; split; [|by left]; cbn in *; intuition; fail).
    all: try (eexists; split; [reflexivity|]; cbn in *).
    all: try (match type of Hfit with _ /\ _ => destruct Hfit as [Hs Hp] end;
              rewrite Hs, Hp; split; [done|right;
                by destruct (vs_operational_status row)]).
    all: try (cbn in Hfit; rewrite Hfit; split; [by intros [? ?]|by right]).
  - (* AnswerArrives *)
    open_phase a.
    destruct q as [[|r]|], c as [[s|s err|n la lo ad ci st z|n la lo ad ci st z r'|t' l'|t' l' err|n]|],
      i as [|[|i]]; cbn [page call]; try (exists row; done).
    all: try destruct r as [[?|] [?|]]; try destruct err as [?|];
      try destruct r' as [[?|] [?|]]; try destruct s.
    all: exists row; split; [exact Hrow|]; split; [|by left].
    all: cbn in *; try (intuition (eauto; congruence)).
  - (* PositionArrives *)
    open_phase a.
    destruct q as [[|r]|], c as [[s|s err|n la lo ad ci st z|n la lo ad ci st z r'|t' l'|t' l' err|n]|],
      i as [|[|i]]; cbn [page call]; try (exists row; done).
    all: destruct position; exists row; (split; [exact Hrow|]); (split; [|by left]).
    all: cbn in *; try (intuition (eauto; congruence)).
  - (* the status button *)
    assert (Hst : vs_operational_status row = status (ui (page a))).
    { unfold pressed_in_sync in Hsync.
      change (world (session_of vendorId a)) with (page a) in Hsync.
      rewrite En in Hsync. cbn in Hsync.
      apply stored_status_is_true in Hsync as (row0 & H0 & <-). congruence. }
    cbn in En. apply andb_prop in En as [P L].
    apply negb_true_iff in P, L.
    pose proof (not_loading_no_call a Hone L) as Hc.
    open_phase a. subst c. cbn in Hst, P.
    exists row. split; [by destruct dst|]. split; [|by left].
    rewrite Hst. by destruct dst.
  - (* the GPS button *)
    cbn in En. apply andb_prop in En as [En L]. apply andb_prop in En as [P _].
    apply negb_true_iff in L.
    pose proof (not_loading_no_call a Hone L) as Hc.
    open_phase a. subst c. cbn in P. subst show.
    exists row. split; [by destruct geolocation|]. split; [|by left].
    destruct geolocation; cbn in *; auto.
  - cbn in En. apply andb_prop in En as [P _]. open_phase a. cbn in P. subst show.
    exists row. split; [exact Hrow|]. split; [|by left].
    destruct c as [[]|]; cbn in *; intuition congruence.
  - cbn in En. apply andb_prop in En as [P _]. open_phase a. cbn in P. subst show.
    exists row. split; [exact Hrow|]. split; [|by left].
    destruct c as [[]|]; cbn in *; intuition congruence.
  - cbn in En. open_phase a. cbn in En. subst show.
    exists row. split; [exact Hrow|]. split; [|by left].
    destruct c as [[]|]; cbn in *; intuition congruence.
  - cbn in En. apply andb_prop in En as [P _]. open_phase a. cbn in P. subst show.
    exists row. split; [exact Hrow|]. split; [|by left].
    destruct c as [[]|]; cbn in *; intuition congruence.
  - (* the go-live button of the search form *)
    cbn in En. apply andb_prop in En as [En L]. apply andb_prop in En as [P _].
    apply negb_true_iff in L. apply orb_false_iff in L as [L _].
    pose proof (not_loading_no_call a Hone L) as Hc.
    open_phase a. subst c. cbn in P. subst show.
    exists row. split; [by destruct sel|]. split; [|by left].
    destruct sel; cbn in *; auto.
  - cbn in En. apply andb_prop in En as [P _]. open_phase a. cbn in P. subst show.
    exists row. split; [exact Hrow|]. split; [|by left].
    destruct c as [[]|]; cbn in *; intuition congruence.
Qed.


Lemma throughout_app ok vendorId l2 : forall l1 s,
  throughout ok vendorId s (l1 ++ l2) =
  throughout ok vendorId s l1 &&
  throughout ok vendorId (session_run vendorId s l1) l2.
Proof.
  induction l1 as [|e l1 IH]; intros s; [done|].
  cbn [app throughout session_run fold_left]. by rewrite IH, andb_assoc.
Qed.

Lemma throughout_both ok1 ok2 vendorId events : forall s,
  throughout (both ok1 ok2) vendorId s events = true ->
  throughout ok1 vendorId s events = true /\
  throughout ok2 vendorId s events = true.
Proof.
  induction events as [|e events IH]; intros s H; [done|].
  cbn [throughout] in *. unfold both in H at 1.
  apply andb_prop in H as [H1 H2]. apply andb_prop in H1 as [Ha Hb].
  destruct (IH _ H2) as [I1 I2]. rewrite Ha, Hb, I1, I2. done.
Qed.

Lemma run_in_cycle vendorId events : forall a row,
  one_call a ->
  throughout (pressed_in_sync vendorId) vendorId (session_of vendorId a) events = true ->
  stored vendorId (page a) = Some row ->
  call_fits (vs_operational_status row) (showLocationInput (ui (page a))) (call a) ->
  exists row',
    stored vendorId (page (phase_run vendorId a events)) = Some row' /\
    call_fits (vs_operational_status row')
      (showLocationInput (ui (page (phase_run vendorId a events))))
      (call (phase_run vendorId a events)).
Proof.
  induction events as [|e events IH]; intros a row Hone Hok Hrow Hfit; [by exists row|].
  apply throughout_phases in Hok as [He Hok]; [|done].
  destruct (step_in_cycle vendorId a e row Hone He Hrow Hfit) as (row1 & Hrow1 & Hfit1 & _).
  apply (IH _ row1); try done. by apply phase_step_one_call.
Qed.

(** *** The stored row stays consistent *)

Lemma step_keeps_consistent vendorId a e row :
  one_call a ->
  closes_a_serving_row vendorId (session_of vendorId a) e = true ->
  stored vendorId (page a) = Some row ->
  row_consistent row = true ->
  call_keeps_location (vs_operational_status row) (call a) ->
  exists row',
    stored vendorId (page (phase_step vendorId a e)) = Some row' /\
    row_consistent row' = true /\
    call_keeps_location (vs_operational_status row') (call (phase_step vendorId a e)).
Proof.
  intros Hone Hok Hrow Hc Hkeep. unfold phase_step.
  destruct (enabled (ui (page a)) e) eqn:En; [|by exists row].
  destruct e as [|t0|i env|i|i position| |geolocation| | |text|l| |].
  - by exists row.
  - by exists row.
  - open_phase a.
    destruct q as [[|r]|], c as [[s|s err|n la lo ad ci st z|n la lo ad ci st z r'|t' l'|t' l' err|n]|],
      i as [|[|i]]; cbn; try (exists row; done).
    all: store_cases env; cbn.
    all: rewrite ?lookup_alter_eq, ?Hrow; cbn.
    all: try (exists row; done).
    all: eexists; (split; [reflexivity|]); (split; [|done]).
    all: try done.
    all: destruct row as [vid il st0 went loc]; unfold row_consistent, is_serving in *;
      cbn in *; destruct s, st0, went, loc; cbn in *; try done;
      exfalso; by apply Hkeep.
  - open_phase a.
    destruct q as [[|r]|], c as [[s|s err|n la lo ad ci st z|n la lo ad ci st z r'|t' l'|t' l' err|n]|],
      i as [|[|i]]; cbn [page call]; try (exists row; done).
    all: try destruct r as [[?|] [?|]]; try destruct err as [?|];
      try destruct r' as [[?|] [?|]]; try destruct s.
    all: by exists row.
  - open_phase a.
    destruct q as [[|r]|], c as [[s|s err|n la lo ad ci st z|n la lo ad ci st z r'|t' l'|t' l' err|n]|],
      i as [|[|i]]; cbn [page call]; try (exists row; done).
    all: destruct position; by exists row.
  - (* the status button *)
    unfold closes_a_serving_row in Hok.
    change (world (session_of vendorId a)) with (page a) in Hok.
    rewrite En in Hok. cbn [negb orb] in Hok.
    cbn in En. apply andb_prop in En as [P L]. apply negb_true_iff in L.
    pose proof (not_loading_no_call a Hone L) as Hcall.
    open_phase a. subst c. unfold stored_status_is, stored in Hok. cbn in Hok.
    rewrite Hrow in Hok.
    exists row. split; [by destruct dst|]. split; [done|].
    destruct dst; cbn in *; try done.
    intros _ E. by rewrite E in Hok.
  - open_phase a. exists row. split; [by destruct geolocation|]. split; [done|].
    destruct geolocation; cbn; [done|exact Hkeep].
  - by exists row.
  - by exists row.
  - by exists row.
  - by exists row.
  - open_phase a. exists row. split; [by destruct sel|]. split; [done|].
    destruct sel; cbn; [done|exact Hkeep].
  - by exists row.
Qed.

Lemma run_keeps_consistent vendorId events : forall a row,
  one_call a ->
  throughout (closes_a_serving_row vendorId) vendorId (session_of vendorId a) events = true ->
  stored vendorId (page a) = Some row ->
  row_consistent row = true ->
  call_keeps_location (vs_operational_status row) (call a) ->
  exists row',
    stored vendorId (page (phase_run vendorId a events)) = Some row' /\
    row_consistent row' = true.
Proof.
  induction events as [|e events IH]; intros a row Hone Hok Hrow Hc Hkeep;
    [by exists row|].
  apply throughout_phases in Hok as [He Hok]; [|done].
  destruct (step_keeps_consistent vendorId a e row Hone He Hrow Hc Hkeep)
    as (row1 & Hrow1 & Hc1 & Hkeep1).
  apply (IH _ row1); try done. by apply phase_step_one_call.
Qed.

Lemma row_consistent_spec row :
  row_consistent row = true ->
  (is_Some (vs_current_location_id row) <->
   vs_operational_status row = live \/ vs_operational_status row = closing_soon) /\
  (is_Some (vs_went_live_at row) <->
   vs_operational_status row = live \/ vs_operational_status row = closing_soon).
Proof.
  destruct row as [vid il st went loc]. unfold row_consistent, is_serving. cbn.
  destruct st, went, loc; cbn; intros H; try discriminate;
    split; split; intros H';
    try (by inversion H'); try (destruct H'; discriminate); eauto.
Qed.


(** *** The claims about the status controller *)

(** C1 (as amended): [handleStatusChange] picks its action from the
    displayed status alone: [offline] opens the location prompt, [live]
    writes [closing_soon], [closing_soon] writes [offline].  In a session
    that starts with the prompt closed, in which every press of the status
    button finds the display showing the stored status and the page is not
    loaded anew while a write is in progress, each event leaves the
    vendor's stored row as it is or moves its status along one edge of the
    cycle offline, live, closing_soon, offline.  Nothing is
    ever rejected: [updateStatus] writes the status it is given over any
    stored status when the store accepts the update. *)
Theorem status_cycle_while_display_in_sync vendorId :
  (forall displayed,
      handleStatusChange vendorId displayed =
      match displayed with
      | offline => setShowLocationInput true
      | live => updateStatus vendorId closing_soon
      | closing_soon => updateStatus vendorId offline
      end) /\
  (forall w0 row0 events e,
      stored vendorId w0 = Some row0 ->
      showLocationInput (ui w0) = false ->
      throughout (both loaded_when_idle (pressed_in_sync vendorId)) vendorId
        (at_rest w0) (events ++ [e]) = true ->
      exists row row',
        stored vendorId (run vendorId w0 events) = Some row /\
        stored vendorId (run vendorId w0 (events ++ [e])) = Some row' /\
        (row' = row \/
         vs_operational_status row' = cycle_next (vs_operational_status row))) /\
  (forall env w newStatus row u,
      stored vendorId w = Some row ->
      update_outcome env = Done u ->
      exists row',
        stored vendorId (snd (complete env (updateStatus vendorId newStatus) w)) = Some row' /\
        vs_operational_status row' = newStatus).
Proof.
  split; [|split].
  - by intros [].
  - intros w0 row0 events e Hrow Hprompt Hok.
    apply throughout_both in Hok as [_ Hok].
    rewrite throughout_app in Hok. apply andb_prop in Hok as [Hok He].
    change (at_rest w0) with (session_of vendorId (resting w0)) in Hok, He.
    destruct (session_run_phases vendorId events _ (one_call_resting w0)) as [Erun Hone].
    rewrite Erun in He.
    destruct (run_in_cycle vendorId events (resting w0) row0 (one_call_resting w0) Hok Hrow)
      as (row & Hr & Hfit).
    { cbn. rewrite Hprompt. done. }
    cbn [throughout] in He. rewrite andb_true_r in He.
    destruct (step_in_cycle vendorId _ e row Hone He Hr Hfit) as (row' & Hr' & _ & Hc).
    exists row, row'. rewrite !run_phases. split; [exact Hr|]. split; [|exact Hc].
    unfold phase_run. rewrite fold_left_app. exact Hr'.
  - intros env w newStatus row u Hrow E.
    destruct (updateStatus_done env vendorId newStatus w u E) as (Hv & _).
    rewrite (stored_alter _ _ _ _ Hv), Hrow. eexists. split; [reflexivity|].
    unfold updates_for. by destruct newStatus.
Qed.

(** C1 (as stated) fails: after the morning the stored status is
    [closing_soon]; the page is loaded again and, until the answer to its
    status query arrives, shows [offline] with the button enabled; the
    vendor goes live from it, and the store rewrites the status from
    [closing_soon] to [live], an edge outside the cycle.  No status query
    has failed. *)
Lemma stale_display_goes_live_from_closing_soon :
  vs_operational_status <$>
    stored "v1" (run "v1" Scenario.onboarded
                   (Scenario.morning ++ Scenario.reload_and_hurry))
  = Some closing_soon /\
  vs_operational_status <$>
    stored "v1" (run "v1" Scenario.onboarded
                   (Scenario.morning ++ Scenario.reload_and_hurry ++
                    [StoreHandles 1 (Scenario.store_up "" "")]))
  = Some live /\
  cycle_next closing_soon <> live.
Proof. split; [|split]; [vm_compute; reflexivity|vm_compute; reflexivity|discriminate]. Qed.

(** C2 (as amended): along every session that starts at onboarding, in
    which no press of the status button on a display that shows [live]
    finds [offline] stored and the page is not loaded anew while a write is
    in progress, the vendor's stored row has
    [current_location_id] set iff its status is [live] or [closing_soon],
    and [went_live_at] set iff its status is [live] or [closing_soon]; a
    go-live whose two writes go through leaves both fields set (to the new
    location's id and to the clock), and a go-offline whose write goes
    through leaves both [null]. *)
Theorem stored_row_consistent vendorId :
  (forall w0 events,
      stored vendorId w0 = Some (onboarding_row vendorId) ->
      throughout (both loaded_when_idle (closes_a_serving_row vendorId)) vendorId
        (at_rest w0) events = true ->
      exists row,
        stored vendorId (run vendorId w0 events) = Some row /\
        (is_Some (vs_current_location_id row) <->
         vs_operational_status row = live \/ vs_operational_status row = closing_soon) /\
        (is_Some (vs_went_live_at row) <->
         vs_operational_status row = live \/ vs_operational_status row = closing_soon)) /\
  (forall env notes latitude longitude address city state zip w row new_id u,
      stored vendorId w = Some row ->
      insert_outcome env = Done new_id ->
      update_outcome env = Done u ->
      exists row',
        stored vendorId
          (snd (complete env (createLocationAndGoLive vendorId notes latitude
                                longitude address city state zip) w)) = Some row' /\
        vs_operational_status row' = live /\
        vs_current_location_id row' = Some new_id /\
        vs_went_live_at row' = Some (now env)) /\
  (forall env w row u,
      stored vendorId w = Some row ->
      update_outcome env = Done u ->
      exists row',
        stored vendorId (snd (complete env (updateStatus vendorId offline) w)) = Some row' /\
        vs_operational_status row' = offline /\
        vs_current_location_id row' = None /\
        vs_went_live_at row' = None).
Proof.
  split; [|split].
  - intros w0 events Hrow Hok.
    apply throughout_both in Hok as [_ Hok].
    change (at_rest w0) with (session_of vendorId (resting w0)) in Hok.
    destruct (run_keeps_consistent vendorId events (resting w0) _
                (one_call_resting w0) Hok Hrow) as (row & Hr & Hc); [done|done|].
    exists row. rewrite run_phases. split; [exact Hr|]. by apply row_consistent_spec.
  - intros env notes latitude longitude address city state zip w row new_id u Hrow E1 E2.
    destruct (createLocationAndGoLive_done env vendorId notes latitude longitude
                address city state zip w new_id u E1 E2) as (Hv & _).
    rewrite (stored_alter _ _ _ _ Hv), Hrow. eexists. split; [reflexivity|done].
  - intros env w row u Hrow E.
    destruct (updateStatus_done env vendorId offline w u E) as (Hv & _).
    rewrite (stored_alter _ _ _ _ Hv), Hrow. eexists. split; [reflexivity|done].
Qed.

(** C2 (as stated) fails: the vendor goes live before the status query of
    the page load has reached the store; the store then answers it with
    [live], and the answer is held up while the vendor closes up and goes
    offline.  When it arrives the page shows [live] over a stored
    [offline] row; the button now reads "Begin Closing Up", and pressing
    it stores [closing_soon] with no location and no time. *)
Lemma late_answer_closes_offline_row :
  stored "v1" (run "v1" Scenario.onboarded Scenario.late_answer) =
    Some (onboarding_row "v1") /\
  status (ui (run "v1" Scenario.onboarded Scenario.late_answer)) = live /\
  stored "v1" (run "v1" Scenario.onboarded
                 (Scenario.late_answer ++
                  [ClickStatusButton; StoreHandles 0 (Scenario.store_up "" "")])) =
    Some {| vs_vendor_id := "v1"; vs_is_live := false;
            vs_operational_status := closing_soon;
            vs_went_live_at := None; vs_current_location_id := None |}.
Proof. split; [|split]; vm_compute; reflexivity. Qed.

(** *** The theorems at work on the sessions of [Scenario] *)

Lemma status_cycle_while_display_in_sync_witness :
  exists row row',
    stored "v1" (run "v1" Scenario.onboarded (removelast Scenario.morning)) = Some row /\
    stored "v1" (run "v1" Scenario.onboarded
                   (removelast Scenario.morning ++ [AnswerArrives 0])) = Some row' /\
    (row' = row \/
     vs_operational_status row' = cycle_next (vs_operational_status row)).
Proof.
  apply (proj1 (proj2 (status_cycle_while_display_in_sync "v1"))
           Scenario.onboarded (onboarding_row "v1") (removelast Scenario.morning));
    vm_compute; reflexivity.
Defined.

Lemma stored_row_consistent_witness :
  exists row,
    stored "v1" (run "v1" Scenario.onboarded
                   (Scenario.morning ++ Scenario.reload_and_hurry)) = Some row /\
    (is_Some (vs_current_location_id row) <->
     vs_operational_status row = live \/ vs_operational_status row = closing_soon) /\
    (is_Some (vs_went_live_at row) <->
     vs_operational_status row = live \/ vs_operational_status row = closing_soon).
Proof.
  apply (proj1 (stored_row_consistent "v1") Scenario.onboarded);
    vm_compute; reflexivity.
Defined.

Lemma go_live_without_location_witness :
  selectedLocation (ui Scenario.onboarded) = None /\
  calls (run "v1" Scenario.onboarded
           [ClickStatusButton; ClickUseGPS true;
            PositionArrives 0 (JS.PositionFailure "User denied Geolocation");
            ClickGoLiveHere])
  = calls Scenario.onboarded.
Proof.
  split; [reflexivity|].
  change (run "v1" Scenario.onboarded
            [ClickStatusButton; ClickUseGPS true;
             PositionArrives 0 (JS.PositionFailure "User denied Geolocation");
             ClickGoLiveHere])
    with (run "v1" (run "v1" Scenario.onboarded [ClickStatusButton])
            [ClickUseGPS true;
             PositionArrives 0 (JS.PositionFailure "User denied Geolocation");
             ClickGoLiveHere]).
  apply (proj2 (proj2 (proj2 (go_live_without_location Scenario.store_down "v1")))
           true 0%nat "User denied Geolocation"
           (run "v1" Scenario.onboarded [ClickStatusButton])).
  reflexivity.
Defined.

Example go_live_store_down :
  let w' := snd (complete Scenario.store_down
                   (createLocationAndGoLive "v1" "" 39.7684%float (-86.1581)%float
                      None None None None) Scenario.onboarded) in
  database w' = database Scenario.onboarded /\
  status (ui w') = offline /\
  alerts w' = ["Failed to go live. Please try again."].
Proof. repeat split. Qed.

End GoLiveButtonFacts.


(** ** More facts about the search page *)
Module SearchMoreFacts.
Import Types Exec Search SearchControls.

(** *** The join *)

Lemma new_Map_app entries (k : string) (v : StatusRow) :
  new_Map (entries ++ [(k, v)]) = <[k := v]> (new_Map entries).
Proof. unfold new_Map. by rewrite fold_left_app. Qed.

(** X2: when several status rows name the same vendor the one that comes
    last in the answer is the one used; a vendor named by no row has no
    entry. *)
Theorem new_Map_last_row_wins (statusData : list StatusRow) (vendor_id : string) :
  new_Map (map (fun status => (sr_vendor_id status, status)) statusData) !! vendor_id =
  last (List.filter (fun status => String.eqb (sr_vendor_id status) vendor_id) statusData).
Proof.
  induction statusData as [|s l IH] using rev_ind; [done|].
  rewrite map_app. cbn [map]. rewrite new_Map_app, List.filter_app. cbn [List.filter].
  destruct (String.eqb (sr_vendor_id s) vendor_id) eqn:E.
  - apply String.eqb_eq in E. subst. by rewrite lookup_insert_eq, last_snoc.
  - apply String.eqb_neq in E. rewrite lookup_insert_ne by done.
    by rewrite app_nil_r.
Qed.

Lemma collectVendors_ids math store userLat userLng statusMap vendorsData :
  map id (collectVendors math store userLat userLng statusMap vendorsData) =
  map vr_id (List.filter (fun v => bool_decide (is_Some (statusMap !! vr_id v))) vendorsData).
Proof.
  induction vendorsData as [|v l IH]; simpl; [done|].
  destruct (statusMap !! vr_id v) as [status|] eqn:E.
  - rewrite bool_decide_true by eauto.
    destruct (locate math store userLat userLng status). simpl. by rewrite IH.
  - rewrite bool_decide_false by (intros [? ?]; done). exact IH.
Qed.

(** X3: the ranked list names exactly the candidates that have a status
    row, each as often as it occurs among the candidates: no vendor is
    invented or doubled by the join and the sort. *)
Theorem rankVendors_ids math store userLat userLng vendorsData statusData :
  map id (rankVendors math store userLat userLng vendorsData statusData) ≡ₚ
  map vr_id (List.filter (has_status_row statusData) (default [] vendorsData)).
Proof.
  unfold rankVendors.
  rewrite (SortFacts.sort_perm compareVendors), collectVendors_ids.
  apply Permutation_refl'. f_equal. apply filter_ext. intros v.
  unfold has_status_row. apply bool_decide_ext.
  rewrite SearchFacts.new_Map_lookup_is_Some. by rewrite map_map.
Qed.

End SearchMoreFacts.

(** ** Facts about the filter controls and the displayed list *)
Module SearchControlsFacts.
Import Types Exec Search SearchControls.

(** *** Ranking and filtering *)

Section Commute.
Context {A : Type} (comparefn : A -> A -> JS.number).
Context (comparable : A -> Prop) (before : A -> A -> Prop).
Hypothesis before_trans : forall a b c, before a b -> before b c -> before a c.
Hypothesis negative_before :
  forall y x, JS.negative (comparefn y x) = true -> before y x.
Hypothesis not_negative_before :
  forall y x, comparable y -> comparable x ->
              JS.negative (comparefn y x) = false -> before x y.
Hypothesis negative_strict :
  forall y x, JS.negative (comparefn y x) = true -> before x y -> False.

Lemma insert_sorted_front x l :
  Forall (before x) l -> JS.insert_sorted comparefn x l = x :: l.
Proof.
  destruct 1 as [|y l Hy _]; [done|]. cbn [JS.insert_sorted].
  destruct (JS.negative (comparefn y x)) eqn:E; [|done].
  exfalso. eauto.
Qed.

Lemma filter_insert_sorted (f : A -> bool) x l :
  comparable x -> Forall comparable l -> StronglySorted before l ->
  List.filter f (JS.insert_sorted comparefn x l) =
  if f x then JS.insert_sorted comparefn x (List.filter f l) else List.filter f l.
Proof.
  intros Hx Hl Hs.
  induction Hs as [|y l Hs IH Hy]; [by cbn; destruct (f x)|].
  apply Forall_cons in Hl as [Hcy Hl].
  cbn [JS.insert_sorted].
  destruct (JS.negative (comparefn y x)) eqn:E.
  - cbn [List.filter]. rewrite IH by done.
    destruct (f y), (f x); cbn [JS.insert_sorted]; by rewrite ?E.
  - change (List.filter f (x :: y :: l))
      with (if f x then x :: List.filter f (y :: l) else List.filter f (y :: l)).
    destruct (f x); [|done].
    symmetry. apply insert_sorted_front.
    assert (Hall : Forall (before x) (y :: l)).
    { constructor; [by apply not_negative_before|].
      eapply Forall_impl; [exact Hy|]. intros z Hz.
      eapply before_trans; [|exact Hz]. by apply not_negative_before. }
    rewrite Forall_forall in Hall |- *. intros z Hz. apply Hall.
    apply list_elem_of_In in Hz. apply filter_In in Hz as [Hz _].
    by apply list_elem_of_In.
Qed.

Lemma filter_sort (f : A -> bool) l :
  Forall comparable l ->
  List.filter f (JS.sort comparefn l) = JS.sort comparefn (List.filter f l).
Proof.
  induction 1 as [|x l Hx Hl IH]; [done|].
  change (JS.sort comparefn (x :: l))
    with (JS.insert_sorted comparefn x (JS.sort comparefn l)).
  rewrite filter_insert_sorted;
    [|done|by rewrite SortFacts.sort_perm
     |by apply (SortFacts.sort_sorted comparefn comparable before)].
  cbn [List.filter]. rewrite IH. by destruct (f x).
Qed.

End Commute.

Lemma StronglySorted_filter {A} (R : A -> A -> Prop) (f : A -> bool) l :
  StronglySorted R l -> StronglySorted R (List.filter f l).
Proof.
  induction 1 as [|x l Hs IH Hx]; cbn [List.filter]; [constructor|].
  destruct (f x); [|exact IH]. constructor; [exact IH|].
  rewrite Forall_forall in Hx |- *. intros z Hz. apply Hx.
  apply list_elem_of_In in Hz. apply filter_In in Hz as [Hz _].
  by apply list_elem_of_In.
Qed.

Lemma compareVendors_strict y x :
  JS.negative (compareVendors y x) = true -> ranks_before x y -> False.
Proof.
  unfold ranks_before, distance_le.
  destruct (isLive y) eqn:Ly, (isLive x) eqn:Lx.
  - rewrite SearchFacts.compareVendors_same_bucket by congruence.
    unfold JS.negative. intros H [[? ?]|[_ D]]; [congruence|].
    destruct (FloatFacts.negative_difference _ _ H) as [Ny Nx].
    rewrite FloatFacts.sub_negative in H by done.
    rewrite FloatFacts.leb_ordinal in D by done.
    apply Z.ltb_lt in H. apply Z.leb_le in D. lia.
  - intros _ [[? ?]|[? _]]; congruence.
  - by rewrite SearchFacts.compareVendors_offline_live.
  - rewrite SearchFacts.compareVendors_same_bucket by congruence.
    unfold JS.negative. intros H [[? ?]|[_ D]]; [congruence|].
    destruct (FloatFacts.negative_difference _ _ H) as [Ny Nx].
    rewrite FloatFacts.sub_negative in H by done.
    rewrite FloatFacts.leb_ordinal in D by done.
    apply Z.ltb_lt in H. apply Z.leb_le in D. lia.
Qed.

(** X4: where no distance is [NaN], ranking and filtering commute:
    narrowing the candidates first and ranking what is left gives the list
    that is displayed when the ranked list is narrowed, whatever the test
    of the filter is. *)
Theorem filter_then_rank (f : VendorWithLocation -> bool) l :
  Forall (fun v => distance_is_number v = true) l ->
  List.filter f (JS.sort compareVendors l) = JS.sort compareVendors (List.filter f l).
Proof.
  apply (filter_sort compareVendors (fun v => distance_is_number v = true)
           ranks_before).
  - exact SearchFacts.ranks_before_trans.
  - exact SearchFacts.compareVendors_negative.
  - exact SearchFacts.compareVendors_not_negative.
  - exact compareVendors_strict.
Qed.

(** X5: where no candidate's distance is [NaN], the displayed list is
    still in rank order whatever the filter settings: of two displayed
    vendors the earlier one is serving while the later is offline, or both
    are in the same bucket and the earlier is not farther. *)
Theorem filteredVendors_in_rank_order
    math store userLat userLng vendorsData statusData liveOnly selected ld ul cs :
  Forall (fun v => distance_is_number v = true)
    (candidates math store userLat userLng vendorsData statusData) ->
  StronglySorted ranks_before
    (filteredVendors
       {| vendors := rankVendors math store userLat userLng vendorsData statusData;
          loading := ld; userLocation := ul; selectedCuisines := selected;
          showLiveOnly := liveOnly; console := cs |}).
Proof.
  intros Hall.
  unfold filteredVendors, rankVendors. cbn [vendors showLiveOnly selectedCuisines].
  apply StronglySorted_filter,
    (SortFacts.sort_sorted compareVendors (fun v => distance_is_number v = true)
       ranks_before).
  - exact SearchFacts.ranks_before_trans.
  - exact SearchFacts.compareVendors_negative.
  - exact SearchFacts.compareVendors_not_negative.
  - exact Hall.
Qed.

(** *** The cuisine buttons *)

Lemma toggleCuisine_selected cuisine p :
  selectedCuisines (snd (toggleCuisine cuisine p)) =
  if includes (selectedCuisines p) cuisine
  then List.filter (fun c => negb (String.eqb c cuisine)) (selectedCuisines p)
  else selectedCuisines p ++ [cuisine].
Proof.
  unfold toggleCuisine, bind, get.
  by destruct (includes (selectedCuisines p) cuisine).
Qed.

Lemma elem_of_filter_neq (l : list string) (cuisine x : string) :
  x ∈ List.filter (fun c => negb (String.eqb c cuisine)) l <-> x ≠ cuisine /\ x ∈ l.
Proof.
  rewrite !list_elem_of_In, filter_In, negb_true_iff, String.eqb_neq. tauto.
Qed.

Lemma toggleCuisine_keeps cuisine p :
  vendors (snd (toggleCuisine cuisine p)) = vendors p /\
  showLiveOnly (snd (toggleCuisine cuisine p)) = showLiveOnly p.
Proof.
  unfold toggleCuisine, bind, get.
  by destruct (includes (selectedCuisines p) cuisine).
Qed.

(** X6: pressing a cuisine button flips that cuisine (selected becomes
    unselected and back) and leaves every other cuisine, the ranked list
    and the live-only switch as they were. *)
Theorem toggleCuisine_flips cuisine p :
  (cuisine ∈ selectedCuisines (snd (toggleCuisine cuisine p)) <->
   cuisine ∉ selectedCuisines p) /\
  (forall other, other ≠ cuisine ->
     (other ∈ selectedCuisines (snd (toggleCuisine cuisine p)) <->
      other ∈ selectedCuisines p)) /\
  vendors (snd (toggleCuisine cuisine p)) = vendors p /\
  showLiveOnly (snd (toggleCuisine cuisine p)) = showLiveOnly p.
Proof.
  split; [|split; [|split]].
  - rewrite toggleCuisine_selected.
    destruct (includes (selectedCuisines p) cuisine) eqn:E.
    + apply SearchFacts.includes_spec in E. rewrite elem_of_filter_neq. tauto.
    + assert (cuisine ∉ selectedCuisines p).
      { intros H. apply SearchFacts.includes_spec in H. congruence. }
      rewrite elem_of_app, list_elem_of_singleton. tauto.
  - intros other Hne. rewrite toggleCuisine_selected.
    destruct (includes (selectedCuisines p) cuisine).
    + rewrite elem_of_filter_neq. tauto.
    + rewrite elem_of_app, list_elem_of_singleton. tauto.
  - unfold toggleCuisine, bind, get.
    by destruct (includes (selectedCuisines p) cuisine).
  - unfold toggleCuisine, bind, get.
    by destruct (includes (selectedCuisines p) cuisine).
Qed.

Lemma filter_neq_id (l : list string) (cuisine : string) :
  cuisine ∉ l -> List.filter (fun c => negb (String.eqb c cuisine)) l = l.
Proof.
  induction l as [|x l IH]; [done|]. intros Hn.
  apply not_elem_of_cons in Hn as [Hne Hn]. cbn [List.filter].
  assert (E : String.eqb x cuisine = false) by (apply String.eqb_neq; congruence).
  rewrite E. cbn. by rewrite IH.
Qed.

Lemma NoDup_filter_neq (l : list string) (cuisine : string) :
  NoDup l -> NoDup (List.filter (fun c => negb (String.eqb c cuisine)) l).
Proof.
  induction 1 as [|x l Hx Hl IH]; cbn [List.filter]; [constructor|].
  destruct (negb (String.eqb x cuisine)); [|exact IH].
  constructor; [|exact IH]. rewrite elem_of_filter_neq. tauto.
Qed.

Lemma filter_neq_perm (l : list string) (cuisine : string) :
  NoDup l -> cuisine ∈ l ->
  List.filter (fun c => negb (String.eqb c cuisine)) l ++ [cuisine] ≡ₚ l.
Proof.
  induction 1 as [|x l Hx Hl IH]; intros Hin; [by apply elem_of_nil in Hin|].
  cbn [List.filter]. destruct (String.eqb x cuisine) eqn:E.
  - apply String.eqb_eq in E. subst x. cbn.
    rewrite filter_neq_id by done. by rewrite <- Permutation_cons_append.
  - apply String.eqb_neq in E. cbn.
    apply elem_of_cons in Hin as [->|Hin]; [done|].
    by rewrite (IH Hin).
Qed.

(** X7: starting from an empty selection the buttons never select a
    cuisine twice, and only cuisines whose button was pressed; pressing the
    same button twice in a row gives back the same set of cuisines, and the
    very same list when the cuisine was not selected before. *)
Theorem toggleCuisine_twice cuisine p :
  (NoDup (selectedCuisines p) ->
   NoDup (selectedCuisines (snd (toggleCuisine cuisine p))) /\
   selectedCuisines (snd (toggleCuisine cuisine (snd (toggleCuisine cuisine p))))
     ≡ₚ selectedCuisines p) /\
  (cuisine ∉ selectedCuisines p ->
   selectedCuisines (snd (toggleCuisine cuisine (snd (toggleCuisine cuisine p))))
     = selectedCuisines p) /\
  (forall cuisines,
      selectedCuisines p = [] ->
      NoDup (selectedCuisines (toggleAll cuisines p)) /\
      selectedCuisines (toggleAll cuisines p) ⊆ cuisines).
Proof.
  assert (Off : cuisine ∉ selectedCuisines p ->
                selectedCuisines (snd (toggleCuisine cuisine (snd (toggleCuisine cuisine p))))
                = selectedCuisines p).
  { intros Hn. rewrite !toggleCuisine_selected.
    assert (E : includes (selectedCuisines p) cuisine = false).
    { destruct (includes (selectedCuisines p) cuisine) eqn:E; [|done].
      by apply SearchFacts.includes_spec in E. }
    rewrite E.
    assert (E' : includes (selectedCuisines p ++ [cuisine]) cuisine = true).
    { apply SearchFacts.includes_spec, elem_of_app. right. by apply list_elem_of_singleton. }
    rewrite E', List.filter_app, filter_neq_id by done.
    cbn. rewrite String.eqb_refl. cbn. by rewrite app_nil_r. }
  split; [|split; [exact Off|]].
  - intros Hnd. split.
    + rewrite toggleCuisine_selected.
      destruct (includes (selectedCuisines p) cuisine) eqn:E.
      * by apply NoDup_filter_neq.
      * apply NoDup_app. split; [done|]. split; [|apply NoDup_singleton].
        intros x Hx Hx'. apply list_elem_of_singleton in Hx'. subst x.
        apply SearchFacts.includes_spec in Hx. congruence.
    + destruct (includes (selectedCuisines p) cuisine) eqn:E.
      * rewrite (toggleCuisine_selected cuisine (snd (toggleCuisine cuisine p))).
        rewrite toggleCuisine_selected, E.
        assert (E' : includes (List.filter (fun c => negb (String.eqb c cuisine))
                                 (selectedCuisines p)) cuisine = false).
        { destruct (includes (List.filter _ _) cuisine) eqn:E'; [|done].
          apply SearchFacts.includes_spec in E'.
          apply (proj1 (elem_of_filter_neq _ _ _)) in E'. tauto. }
        rewrite E'. apply filter_neq_perm; [done|].
        by apply SearchFacts.includes_spec.
      * rewrite Off; [done|]. intros H. apply SearchFacts.includes_spec in H. congruence.
  - intros cuisines Hempty.
    assert (G : forall q,
               NoDup (selectedCuisines q) ->
               NoDup (selectedCuisines (toggleAll cuisines q)) /\
               selectedCuisines (toggleAll cuisines q) ⊆ selectedCuisines q ++ cuisines).
    { induction cuisines as [|c cs IH]; intros q Hq; cbn.
      - split; [done|]. by rewrite app_nil_r.
      - assert (Hq' : NoDup (selectedCuisines (snd (toggleCuisine c q)))).
        { rewrite toggleCuisine_selected.
          destruct (includes (selectedCuisines q) c) eqn:E.
          - by apply NoDup_filter_neq.
          - apply NoDup_app. split; [done|]. split; [|apply NoDup_singleton].
            intros x Hx Hx'. apply list_elem_of_singleton in Hx'. subst x.
            apply SearchFacts.includes_spec in Hx. congruence. }
        destruct (IH _ Hq') as [H1 H2]. split; [exact H1|].
        intros x Hx. apply H2 in Hx. rewrite toggleCuisine_selected in Hx.
        destruct (includes (selectedCuisines q) c).
        + apply elem_of_app in Hx as [Hx|Hx].
          * apply elem_of_filter_neq in Hx as [_ Hx]. apply elem_of_app. by left.
          * apply elem_of_app. right. by apply elem_of_cons; right.
        + by rewrite <- app_assoc in Hx. }
    destruct (G p) as [H1 H2]; [rewrite Hempty; constructor|].
    split; [exact H1|]. by rewrite Hempty in H2.
Qed.

(** *** Filters as the user works them *)

Lemma filter_sublist_mono {A} (f g : A -> bool) (l : list A) :
  (forall x, f x = true -> g x = true) ->
  sublist (List.filter f l) (List.filter g l).
Proof.
  intros Hfg. induction l as [|x l IH]; cbn [List.filter]; [constructor|].
  destruct (f x) eqn:E.
  - rewrite (Hfg x E). by constructor.
  - destruct (g x); [by constructor|exact IH].
Qed.

(** X8: selecting one more cuisine while some are selected never removes a
    displayed vendor; selecting the first cuisine, or switching live-only
    on, never adds one. *)
Theorem filters_widen_and_narrow p :
  (forall cuisine,
      selectedCuisines p <> [] ->
      cuisine ∉ selectedCuisines p ->
      sublist (filteredVendors p) (filteredVendors (snd (toggleCuisine cuisine p)))) /\
  (forall cuisine,
      selectedCuisines p = [] ->
      sublist (filteredVendors (snd (toggleCuisine cuisine p))) (filteredVendors p)) /\
  sublist (filteredVendors (snd (setShowLiveOnly true p))) (filteredVendors p).
Proof.
  split; [|split].
  - intros cuisine Hne Hnot. unfold filteredVendors.
    destruct (toggleCuisine_keeps cuisine p) as (-> & ->).
    rewrite toggleCuisine_selected.
    assert (E : includes (selectedCuisines p) cuisine = false).
    { destruct (includes (selectedCuisines p) cuisine) eqn:E; [|done].
      by apply SearchFacts.includes_spec in E. }
    rewrite E. apply filter_sublist_mono. intros v.
    rewrite !SearchFacts.keepVendor_spec. intros [H1 H2]. split; [exact H1|].
    intros _. destruct (H2 Hne) as (t & Ht & Hs). exists t. split; [exact Ht|].
    apply elem_of_app. by left.
  - intros cuisine Hempty. unfold filteredVendors.
    destruct (toggleCuisine_keeps cuisine p) as (-> & ->).
    apply filter_sublist_mono. intros v.
    rewrite !SearchFacts.keepVendor_spec. intros [H1 _]. split; [exact H1|].
    by rewrite Hempty.
  - unfold filteredVendors, setShowLiveOnly, modify.
    cbn [snd vendors showLiveOnly selectedCuisines].
    apply filter_sublist_mono. intros v.
    rewrite !SearchFacts.keepVendor_spec. intros [H1 H2]. split; [|exact H2].
    intros _. by apply H1.
Qed.

(** X9: when one of the two list queries answers with an error,
    [fetchVendors] leaves the list it had, writes one line to the console
    and switches [loading] off: the page goes on showing the earlier
    results. *)
Theorem fetchVendors_error_keeps_list math store userLat userLng p :
  is_Some (error (vendors_select store)) \/
  is_Some (error (vendor_status_select store)) ->
  fetchVendors math store userLat userLng p =
  (Ok tt,
   {| vendors := vendors p; loading := false; userLocation := userLocation p;
      selectedCuisines := selectedCuisines p; showLiveOnly := showLiveOnly p;
      console := console p ++ ["Error fetching vendors:"] |}).
Proof.
  unfold fetchVendors.
  destruct (error (vendors_select store)) as [e1|];
    [|destruct (error (vendor_status_select store)) as [e2|]];
    intros [[? H]|[? H]]; try discriminate; reflexivity.
Qed.

(** *** The theorems at work *)

Lemma filter_then_rank_witness :
  List.filter (keepVendor true [])
    (JS.sort compareVendors [Scenario.near_offline; Scenario.live_2_3; Scenario.live_0_9]) =
  JS.sort compareVendors
    (List.filter (keepVendor true [])
       [Scenario.near_offline; Scenario.live_2_3; Scenario.live_0_9]).
Proof.
  apply (filter_then_rank (keepVendor true [])
           [Scenario.near_offline; Scenario.live_2_3; Scenario.live_0_9]).
  repeat constructor.
Defined.

Lemma filteredVendors_in_rank_order_witness :
  StronglySorted ranks_before
    (filteredVendors
       {| vendors :=
            rankVendors Scenario.libm Scenario.store_two_vendors
              39.7684%float (-86.1581)%float
              (data (vendors_select Scenario.store_two_vendors))
              (data (vendor_status_select Scenario.store_two_vendors));
          loading := false; userLocation := None; selectedCuisines := [];
          showLiveOnly := true; console := [] |}).
Proof.
  apply (filteredVendors_in_rank_order Scenario.libm Scenario.store_two_vendors
           39.7684%float (-86.1581)%float).
  vm_compute. repeat constructor.
Defined.

Lemma toggleCuisine_twice_witness :
  NoDup (selectedCuisines Scenario.mexican_page) /\
  selectedCuisines
    (snd (toggleCuisine "BBQ" (snd (toggleCuisine "BBQ" Scenario.mexican_page))))
    ≡ₚ selectedCuisines Scenario.mexican_page.
Proof.
  assert (H : NoDup (selectedCuisines Scenario.mexican_page))
    by apply NoDup_singleton.
  split; [exact H|].
  exact (proj2 (proj1 (toggleCuisine_twice "BBQ" Scenario.mexican_page) H)).
Defined.

Lemma filters_widen_and_narrow_witness :
  sublist (filteredVendors Scenario.mexican_page)
          (filteredVendors (snd (toggleCuisine "BBQ" Scenario.mexican_page))).
Proof.
  apply (proj1 (filters_widen_and_narrow Scenario.mexican_page) "BBQ").
  - discriminate.
  - intros H. apply list_elem_of_singleton in H. discriminate.
Defined.

Lemma fetchVendors_error_keeps_list_witness :
  is_Some (error (vendors_select MoreScenario.store_unreachable)) /\
  vendors (snd (fetchVendors Scenario.libm MoreScenario.store_unreachable 39.7684%float (-86.1581)%float
                  Scenario.mexican_page)) = vendors Scenario.mexican_page.
Proof.
  assert (H : is_Some (error (vendors_select MoreScenario.store_unreachable)))
    by (by eexists).
  split; [exact H|].
  exact (f_equal (fun r => vendors (snd r))
           (fetchVendors_error_keeps_list Scenario.libm MoreScenario.store_unreachable
              39.7684%float (-86.1581)%float Scenario.mexican_page (or_introl H))).
Defined.

End SearchControlsFacts.


(** ** More facts about the status controller *)
Module GoLiveButtonMoreFacts.
Import Types Exec GoLiveButton GoLiveButtonFacts.

(** *** The form and the [loading] flag *)

Lemma updateStatus_ui env vendorId newStatus w :
  let w' := snd (complete env (updateStatus vendorId newStatus) w) in
  loading (ui w') = false /\
  locationNotes (ui w') = locationNotes (ui w) /\
  useManualLocation (ui w') = useManualLocation (ui w) /\
  selectedLocation (ui w') = selectedLocation (ui w).
Proof.
  cbn. unfold vendor_status_update.
  destruct (update_outcome env), newStatus; repeat split.
Qed.

Lemma createLocationAndGoLive_failed_ui
    env vendorId notes latitude longitude address city state zip w :
  (exists e, insert_outcome env = Failed e) \/ (exists e, update_outcome env = Failed e) ->
  ui (snd (complete env (createLocationAndGoLive vendorId notes latitude longitude
                           address city state zip) w)) =
  {| status := status (ui w); loading := false;
     locationNotes := locationNotes (ui w);
     showLocationInput := showLocationInput (ui w);
     useManualLocation := useManualLocation (ui w);
     selectedLocation := selectedLocation (ui w) |}.
Proof.
  cbn. unfold locations_insert.
  destruct (insert_outcome env) as [new_id|e1] eqn:E1; cbn;
    unfold vendor_status_update;
    destruct (update_outcome env) as [u|e2] eqn:E2; cbn;
    intros [[e H]|[e H]]; try discriminate; reflexivity.
Qed.

Lemma createLocationAndGoLive_done_ui
    env vendorId notes latitude longitude address city state zip w new_id u :
  insert_outcome env = Done new_id ->
  update_outcome env = Done u ->
  ui (snd (complete env (createLocationAndGoLive vendorId notes latitude longitude
                           address city state zip) w)) =
  {| status := live; loading := false; locationNotes := "";
     showLocationInput := false; useManualLocation := false;
     selectedLocation := None |}.
Proof.
  intros E1 E2. cbn. unfold locations_insert. rewrite E1. cbn.
  unfold vendor_status_update. rewrite E2. reflexivity.
Qed.

Lemma createLocationAndGoLive_loading
    env vendorId notes latitude longitude address city state zip w :
  loading (ui (snd (complete env (createLocationAndGoLive vendorId notes latitude
                                    longitude address city state zip) w))) = false.
Proof.
  destruct (insert_outcome env) as [new_id|e1] eqn:E1;
    [destruct (update_outcome env) as [u|e2] eqn:E2|].
  - by rewrite (createLocationAndGoLive_done_ui _ _ _ _ _ _ _ _ _ _ _ _ E1 E2).
  - rewrite createLocationAndGoLive_failed_ui; [done|]. right. eauto.
  - rewrite createLocationAndGoLive_failed_ui; [done|]. left. eauto.
Qed.

(** While the component is [loading], a call is in progress. *)
Lemma phase_step_busy vendorId a e :
  (loading (ui (page a)) = true -> is_Some (call a)) ->
  loading (ui (page (phase_step vendorId a e))) = true ->
  is_Some (call (phase_step vendorId a e)).
Proof.
  intros Hbusy. unfold phase_step.
  destruct (enabled (ui (page a)) e) eqn:En; [|done].
  destruct e as [|t0|i env|i|i position| |geolocation| | |text|l| |]; try done.
  - open_phase a.
    destruct q as [[|r]|], c as [[s|s err|n la lo ad ci st z|n la lo ad ci st z r'|t' l'|t' l' err|n]|],
      i as [|[|i]]; cbn; try done; store_cases env; cbn; eauto.
  - open_phase a.
    destruct q as [[|r]|], c as [[s|s err|n la lo ad ci st z|n la lo ad ci st z r'|t' l'|t' l' err|n]|],
      i as [|[|i]]; cbn [page call]; try done.
    all: try destruct r as [[?|] [?|]]; try destruct err as [?|];
      try destruct r' as [[?|] [?|]]; try destruct s; cbn in *; try done; eauto.
  - open_phase a.
    destruct q as [[|r]|], c as [[s|s err|n la lo ad ci st z|n la lo ad ci st z r'|t' l'|t' l' err|n]|],
      i as [|[|i]]; cbn [page call]; try done.
    all: destruct position; cbn in *; try done; eauto.
  - open_phase a. destruct dst; cbn in *; try done; eauto.
  - open_phase a. destruct geolocation; cbn in *; try done; eauto.
  - open_phase a. destruct sel; cbn in *; try done; eauto.
Qed.

Lemma phase_run_busy vendorId events : forall a,
  (loading (ui (page a)) = true -> is_Some (call a)) ->
  loading (ui (page (phase_run vendorId a events))) = true ->
  is_Some (call (phase_run vendorId a events)).
Proof.
  induction events as [|e events IH]; intros a Hbusy; [done|].
  apply IH. by apply phase_step_busy.
Qed.

(** A position that was asked for keeps the component [loading] until it
    arrives or the page is loaded anew. *)
Lemma phase_step_positioning vendorId a e n :
  keeps_waiting e = true ->
  call a = Some (PositionAsked n) /\ loading (ui (page a)) = true ->
  call (phase_step vendorId a e) = Some (PositionAsked n) /\
  loading (ui (page (phase_step vendorId a e))) = true.
Proof.
  intros Hk [Hc Hl]. unfold phase_step.
  destruct (enabled (ui (page a)) e) eqn:En; [|done].
  destruct e as [|t0|i env|i|i position| |geolocation| | |text|l| |]; try done.
  - open_phase a. subst c.
    destruct q as [[|r]|], i as [|[|i]]; done.
  - open_phase a. subst c.
    destruct q as [[|r]|], i as [|[|i]]; cbn [page call]; try done.
    all: by destruct r as [[?|] [?|]].
  - open_phase a. subst ld. cbn in En. by rewrite andb_false_r in En.
  - open_phase a. subst ld. cbn in En. by rewrite andb_false_r in En.
  - open_phase a. subst ld. cbn in En. by rewrite andb_false_r in En.
Qed.

(** X10: a status update and a go-live that run to their end leave
    [loading] switched off, on every path, and so does the GPS handler in a
    browser without a sensor.  With a sensor the GPS handler returns with
    [loading] on and the request left with the browser; either callback
    switches it off when it has run.  Along a session the component is
    [loading] only while something is on its way, and after a press of the
    GPS button it stays [loading] for as long as the position does not
    arrive and the page is not loaded anew. *)
Theorem loading_only_while_waiting vendorId :
  (forall env newStatus w,
      loading (ui (snd (complete env (updateStatus vendorId newStatus) w))) = false) /\
  (forall env notes latitude longitude address city state zip w,
      loading (ui (snd (complete env (createLocationAndGoLive vendorId notes latitude
                                        longitude address city state zip) w))) = false) /\
  (forall env notes w,
      loading (ui (snd (complete env (goLiveWithGPS vendorId notes false) w))) = false) /\
  (forall notes clock w,
      exists success failure,
        advance clock (goLiveWithGPS vendorId notes true) w =
        (perform (SetLoading true) w, [Locating success failure]) /\
        (forall env latitude longitude w1,
            loading (ui (snd (complete env (success latitude longitude) w1))) = false) /\
        (forall env message w1,
            loading (ui (snd (complete env (failure message) w1))) = false)) /\
  (forall w events,
      loading (ui w) = false ->
      loading (ui (world (session_run vendorId (at_rest w) events))) = true ->
      tasks (session_run vendorId (at_rest w) events) <> []) /\
  (forall w events,
      enabled (ui w) (ClickUseGPS true) = true ->
      forallb keeps_waiting events = true ->
      loading (ui (run vendorId w (ClickUseGPS true :: events))) = true).
Proof.
  split; [|split; [|split; [|split; [|split]]]].
  - intros. apply updateStatus_ui.
  - intros. apply createLocationAndGoLive_loading.
  - reflexivity.
  - intros notes clock w. eexists _, _. split; [reflexivity|]. split.
    + intros. apply createLocationAndGoLive_loading.
    + reflexivity.
  - intros w events Hw.
    change (at_rest w) with (session_of vendorId (resting w)).
    rewrite (proj1 (session_run_phases vendorId events _ (one_call_resting w))).
    intros Hl. apply (phase_run_busy vendorId events (resting w)) in Hl.
    + destruct Hl as [c Hc]. unfold session_of. cbn [tasks]. rewrite Hc.
      destruct (query _); done.
    + cbn. by rewrite Hw.
  - intros w events En Hk. rewrite run_phases.
    cbn [phase_run fold_left].
    assert (H : exists n,
               call (phase_step vendorId (resting w) (ClickUseGPS true)) =
                 Some (PositionAsked n) /\
               loading (ui (page (phase_step vendorId (resting w) (ClickUseGPS true)))) = true).
    { unfold phase_step. cbn [resting page]. rewrite En. by eexists. }
    destruct H as [n H].
    revert H. generalize (phase_step vendorId (resting w) (ClickUseGPS true)).
    induction events as [|e events IH]; intros a H; [apply H|].
    cbn in Hk. apply andb_prop in Hk as [He Hk].
    cbn [fold_left]. apply IH; [done|]. by apply phase_step_positioning.
Qed.

(** X11: a go-live whose two writes go through closes and clears the form
    (prompt closed, GPS mode, notes emptied, no selected location); a
    go-live that fails at the insert or at the update leaves the form as
    the user filled it, notes and selected location included, so that it
    can be sent again. *)
Theorem go_live_form_after
    env vendorId notes latitude longitude address city state zip w :
  (forall new_id u,
      insert_outcome env = Done new_id -> update_outcome env = Done u ->
      ui (snd (complete env (createLocationAndGoLive vendorId notes latitude longitude
                               address city state zip) w)) =
      {| status := live; loading := false; locationNotes := "";
         showLocationInput := false; useManualLocation := false;
         selectedLocation := None |}) /\
  ((exists e, insert_outcome env = Failed e) \/
   (exists e, update_outcome env = Failed e) ->
   ui (snd (complete env (createLocationAndGoLive vendorId notes latitude longitude
                            address city state zip) w)) =
   {| status := status (ui w); loading := false;
      locationNotes := locationNotes (ui w);
      showLocationInput := showLocationInput (ui w);
      useManualLocation := useManualLocation (ui w);
      selectedLocation := selectedLocation (ui w) |}).
Proof.
  split.
  - intros. by eapply createLocationAndGoLive_done_ui.
  - apply createLocationAndGoLive_failed_ui.
Qed.

(** *** What a session writes *)

Lemma phase_run_locations vendorId events : forall a,
  exists added,
    locations (database (page (phase_run vendorId a events))) =
      locations (database (page a)) ++ added /\
    length added <= length events /\
    Forall (fun l => loc_vendor_id l = vendorId /\ loc_is_current_location l = true)
      added.
Proof.
  induction events as [|e events IH]; intros a.
  - exists []. by rewrite app_nil_r.
  - destruct (IH (phase_step vendorId a e)) as (added & Hl & Hn & Hall).
    cbn [phase_run fold_left] in *. fold (phase_run vendorId (phase_step vendorId a e) events).
    destruct (phase_step_database vendorId a e)
      as [Hs|[(s & _ & _ & _ & Hs & _)
             |[(n & la & lo & ad & ci & st & z & new_id & _ & _ & _ & Hs & _)
              |(t & l & _ & _ & _ & Hs & _)]]].
    + exists added. rewrite Hl, Hs. split; [done|]. split; [cbn; lia|done].
    + exists added. rewrite Hl, Hs. split; [done|]. split; [cbn; lia|done].
    + eexists (_ :: added). rewrite Hl, Hs, <- app_assoc.
      split; [done|]. split; [cbn; lia|]. by constructor.
    + exists added. rewrite Hl, Hs. split; [done|]. split; [cbn; lia|done].
Qed.

(** X12: location rows are only ever added: after any session the rows
    that were there are still there, unchanged and in front; at most one
    row is added per event, and every added row belongs to this vendor and
    is flagged as its current location (an earlier row is never
    unflagged). *)
Theorem locations_append_only vendorId w events :
  exists added,
    locations (database (run vendorId w events)) = locations (database w) ++ added /\
    length added <= length events /\
    Forall (fun l => loc_vendor_id l = vendorId /\ loc_is_current_location l = true)
      added.
Proof. rewrite run_phases. apply (phase_run_locations vendorId events (resting w)). Qed.

Lemma phase_step_located vendorId a e :
  (forall row location_id,
      stored vendorId (page a) = Some row ->
      vs_current_location_id row = Some location_id ->
      exists l, l ∈ locations (database (page a)) /\
                loc_id l = location_id /\ loc_vendor_id l = vendorId) ->
  call_located vendorId (locations (database (page a))) (call a) ->
  (forall row location_id,
      stored vendorId (page (phase_step vendorId a e)) = Some row ->
      vs_current_location_id row = Some location_id ->
      exists l, l ∈ locations (database (page (phase_step vendorId a e))) /\
                loc_id l = location_id /\ loc_vendor_id l = vendorId) /\
  call_located vendorId (locations (database (page (phase_step vendorId a e))))
    (call (phase_step vendorId a e)).
Proof.
  intros Hrow Hcall. unfold phase_step.
  destruct (enabled (ui (page a)) e) eqn:En; [|done].
  destruct e as [|t0|i env|i|i position| |geolocation| | |text|l| |].
  - done.
  - done.
  - open_phase a.
    destruct q as [[|r]|], c as [[s|s err|n la lo ad ci st z|n la lo ad ci st z r'|t' l'|t' l' err|n]|],
      i as [|[|i]]; cbn; try done.
    all: store_cases env; cbn; try done.
    all: try (split; [|done]; intros row location_id;
              rewrite lookup_alter_eq;
              destruct (vendor_status db !! vendorId) as [row0|] eqn:E0; [|done];
              cbn; intros [= <-]; cbn;
              first [ by destruct s; cbn; eauto
                    | intros [= <-]; exists l'; split; [apply Hcall|];
                      split; [done|apply Hcall] ]).
    all: split;
      [ intros row location_id H1 H2;
        destruct (Hrow row location_id H1 H2) as (l0 & Hin & Hrest);
        exists l0; split; [|done]; apply elem_of_app; by left
      | intros location [= <-]; split; [|done];
        apply elem_of_app; right; by apply list_elem_of_singleton ].
  - open_phase a.
    destruct q as [[|r]|], c as [[s|s err|n la lo ad ci st z|n la lo ad ci st z r'|t' l'|t' l' err|n]|],
      i as [|[|i]]; cbn [page call]; try done.
    all: try destruct r as [[?|] [?|]]; try destruct err as [?|];
      try destruct r' as [[?|] [?|]]; try destruct s; cbn in *; try done.
    all: split; [done|]; by apply Hcall.
  - open_phase a.
    destruct q as [[|r]|], c as [[s|s err|n la lo ad ci st z|n la lo ad ci st z r'|t' l'|t' l' err|n]|],
      i as [|[|i]]; cbn [page call]; try done.
    all: by destruct position.
  - open_phase a. destruct dst; cbn; (split; [exact Hrow|try done; try exact Hcall]).
  - open_phase a.
    destruct geolocation; cbn; (split; [exact Hrow|try done; try exact Hcall]).
  - open_phase a. cbn. split; [exact Hrow|exact Hcall].
  - open_phase a. cbn. split; [exact Hrow|exact Hcall].
  - open_phase a. cbn. split; [exact Hrow|exact Hcall].
  - open_phase a. cbn. split; [exact Hrow|exact Hcall].
  - open_phase a. destruct sel; cbn; (split; [exact Hrow|try done; try exact Hcall]).
  - open_phase a. cbn. split; [exact Hrow|exact Hcall].
Qed.

(** X13: along every session that starts at onboarding, the location the
    vendor's stored row points to exists: when [current_location_id] is set,
    [locations] holds a row with that id, and it is a row of this vendor. *)
Theorem current_location_exists vendorId w0 events row location_id :
  stored vendorId w0 = Some (onboarding_row vendorId) ->
  stored vendorId (run vendorId w0 events) = Some row ->
  vs_current_location_id row = Some location_id ->
  exists l, l ∈ locations (database (run vendorId w0 events)) /\
            loc_id l = location_id /\ loc_vendor_id l = vendorId.
Proof.
  intros H0. rewrite run_phases.
  assert (G : forall events a,
             (forall row location_id,
                 stored vendorId (page a) = Some row ->
                 vs_current_location_id row = Some location_id ->
                 exists l, l ∈ locations (database (page a)) /\
                           loc_id l = location_id /\ loc_vendor_id l = vendorId) ->
             call_located vendorId (locations (database (page a))) (call a) ->
             forall row location_id,
               stored vendorId (page (phase_run vendorId a events)) = Some row ->
               vs_current_location_id row = Some location_id ->
               exists l, l ∈ locations (database (page (phase_run vendorId a events))) /\
                         loc_id l = location_id /\ loc_vendor_id l = vendorId).
  { clear. induction events as [|e events IH]; intros a Hrow Hcall; [exact Hrow|].
    destruct (phase_step_located vendorId a e Hrow Hcall) as [Hrow1 Hcall1].
    exact (IH _ Hrow1 Hcall1). }
  apply G; [|done].
  intros row0 id0 Hrow0. cbn in Hrow0. rewrite H0 in Hrow0. by inversion Hrow0.
Qed.

(** X14: the controller rewrites nothing but its own vendor's row, never
    creates or removes a row, and in its own row changes only the status,
    the timestamp and the location id: [vendor_id] and [is_live] keep their
    values, so [is_live] stays [false] as set at onboarding, also while the
    vendor is live. *)
Theorem only_own_row_and_fields vendorId w events :
  (forall other, other ≠ vendorId ->
     stored other (run vendorId w events) = stored other w) /\
  (stored vendorId w = None -> stored vendorId (run vendorId w events) = None) /\
  (forall row,
      stored vendorId w = Some row ->
      exists row',
        stored vendorId (run vendorId w events) = Some row' /\
        vs_vendor_id row' = vs_vendor_id row /\
        vs_is_live row' = vs_is_live row).
Proof.
  rewrite run_phases.
  assert (G : forall a,
             (forall other, other ≠ vendorId ->
                stored other (page (phase_run vendorId a events)) = stored other (page a)) /\
             (stored vendorId (page a) = None ->
              stored vendorId (page (phase_run vendorId a events)) = None) /\
             (forall row,
                 stored vendorId (page a) = Some row ->
                 exists row',
                   stored vendorId (page (phase_run vendorId a events)) = Some row' /\
                   vs_vendor_id row' = vs_vendor_id row /\
                   vs_is_live row' = vs_is_live row));
    [|exact (G (resting w))].
  clear w. induction events as [|e events IH]; intros a.
  - split; [done|]. split; [done|]. intros row Hrow. by exists row.
  - destruct (IH (phase_step vendorId a e)) as (IH1 & IH2 & IH3). clear IH.
    cbn [phase_run fold_left] in *.
    fold (phase_run vendorId (phase_step vendorId a e) events) in *.
    assert (Hstep : vendor_status (database (page (phase_step vendorId a e))) =
                      vendor_status (database (page a)) \/
                    exists u, vendor_status (database (page (phase_step vendorId a e))) =
                                alter (apply_update u) vendorId
                                  (vendor_status (database (page a)))).
    { destruct (phase_step_database vendorId a e)
        as [Hs|[(s & _ & _ & _ & _ & Hs)
               |[(n & la & lo & ad & ci & st & z & new_id & _ & _ & _ & _ & Hs)
                |(t & l & _ & _ & _ & _ & Hs)]]]; eauto.
      left. by rewrite Hs. }
    split; [|split].
    + intros other Hne. rewrite (IH1 other Hne). unfold stored.
      destruct Hstep as [->|[u ->]]; [done|]. by rewrite lookup_alter_ne.
    + intros Hnone. apply IH2. unfold stored in *.
      destruct Hstep as [->|[u ->]]; [done|]. by rewrite lookup_alter_eq, Hnone.
    + intros row Hrow. destruct Hstep as [Hv|[u Hv]].
      * apply IH3. by rewrite (stored_same _ _ _ Hv).
      * destruct (IH3 (apply_update u row)) as (row' & Hr' & Hvid & Hlive).
        { by rewrite (stored_alter _ _ _ _ Hv), Hrow. }
        by exists row'.
Qed.

(** X15: a page that is loaded shows [offline] with the status button
    enabled, whatever is stored, until the answer to its status query
    arrives; once the store has handled the query and the answer has
    arrived, the page shows the stored status with the prompt closed, it
    waits for nothing, and the store is as it was. *)
Theorem mount_resynchronises vendorId s env row :
  select_outcome env = Done tt ->
  stored vendorId (world s) = Some row ->
  ui (world (session_step vendorId s Mount)) = initial_component /\
  enabled (ui (world (session_step vendorId s Mount))) ClickStatusButton = true /\
  database (world (session_step vendorId s Mount)) = database (world s) /\
  ui (world (session_run vendorId s [Mount; StoreHandles 0 env; AnswerArrives 0])) =
    {| status := vs_operational_status row; loading := false; locationNotes := "";
       showLocationInput := false; useManualLocation := false;
       selectedLocation := None |} /\
  database (world (session_run vendorId s [Mount; StoreHandles 0 env; AnswerArrives 0])) =
    database (world s) /\
  tasks (session_run vendorId s [Mount; StoreHandles 0 env; AnswerArrives 0]) = [].
Proof.
  intros Es Hrow. unfold stored in Hrow.
  cbn. unfold vendor_status_select. rewrite Es, Hrow. cbn. done.
Qed.

(** X16: for a vendor that has no row in [vendor_status] (onboarding
    stopped after the vendor insert) the status update matches nothing and
    is no error: a go-live adds the location row, tells the vendor "You are
    now live!" and shows [live], while no status is stored; a later status
    change shows its success as well and stores nothing. *)
Theorem go_live_without_status_row
    env vendorId notes latitude longitude address city state zip w new_id u :
  stored vendorId w = None ->
  insert_outcome env = Done new_id ->
  update_outcome env = Done u ->
  let w' := snd (complete env (createLocationAndGoLive vendorId notes latitude
                                 longitude address city state zip) w) in
  stored vendorId w' = None /\
  status (ui w') = live /\
  alerts w' = alerts w ++ ["You are now live! 🎉"] /\
  length (locations (database w')) = S (length (locations (database w))) /\
  (forall newStatus,
      stored vendorId (snd (complete env (updateStatus vendorId newStatus) w')) = None /\
      status (ui (snd (complete env (updateStatus vendorId newStatus) w'))) = newStatus).
Proof.
  intros Hnone E1 E2 w'.
  destruct (createLocationAndGoLive_done env vendorId notes latitude longitude
              address city state zip w new_id u E1 E2)
    as (Hv & Hl & _ & Hs & _ & Ha).
  fold w' in Hv, Hl, Hs, Ha.
  assert (Hnone' : stored vendorId w' = None).
  { by rewrite (stored_alter _ _ _ _ Hv), Hnone. }
  split; [exact Hnone'|]. split; [exact Hs|]. split; [exact Ha|].
  split; [rewrite Hl, length_app; cbn; lia|].
  intros newStatus.
  destruct (updateStatus_done env vendorId newStatus w' u E2) as (Hv2 & _ & _ & Hs2 & _).
  split; [|exact Hs2]. by rewrite (stored_alter _ _ _ _ Hv2), Hnone'.
Qed.

(** *** The theorems at work *)

Lemma loading_only_while_waiting_witness :
  enabled (ui (run "v1" Scenario.onboarded [ClickStatusButton])) (ClickUseGPS true) = true /\
  loading (ui (run "v1" (run "v1" Scenario.onboarded [ClickStatusButton])
                 [ClickUseGPS true; ClickCancel; Tick "2024-05-01T12:00:00.000Z";
                  AnswerArrives 0; ClickStatusButton])) = true.
Proof.
  split; [reflexivity|].
  apply (proj2 (proj2 (proj2 (proj2 (proj2 (loading_only_while_waiting "v1")))))
           (run "v1" Scenario.onboarded [ClickStatusButton])
           [ClickCancel; Tick "2024-05-01T12:00:00.000Z"; AnswerArrives 0;
            ClickStatusButton]); reflexivity.
Defined.

Lemma go_live_form_after_witness :
  ui (snd (complete Scenario.store_down
             (createLocationAndGoLive "v1" "" 39.7684%float (-86.1581)%float
                None None None None) Scenario.onboarded)) =
  {| status := offline; loading := false; locationNotes := "";
     showLocationInput := false; useManualLocation := false;
     selectedLocation := None |}.
Proof.
  apply (proj2 (go_live_form_after Scenario.store_down "v1" "" 39.7684%float
                  (-86.1581)%float None None None None Scenario.onboarded)).
  left. by eexists.
Defined.

Lemma current_location_exists_witness :
  exists l, l ∈ locations (database (run "v1" Scenario.onboarded Scenario.morning)) /\
            loc_id l = "l1" /\ loc_vendor_id l = "v1".
Proof.
  apply (current_location_exists "v1" Scenario.onboarded Scenario.morning
           {| vs_vendor_id := "v1"; vs_is_live := false;
              vs_operational_status := closing_soon;
              vs_went_live_at := Some "2024-05-01T11:01:00.000Z";
              vs_current_location_id := Some "l1" |} "l1").
  - reflexivity.
  - vm_compute. reflexivity.
  - reflexivity.
Defined.

Lemma only_own_row_and_fields_witness :
  stored "v2" (run "v1" Scenario.onboarded Scenario.morning) =
  stored "v2" Scenario.onboarded.
Proof.
  apply (proj1 (only_own_row_and_fields "v1" Scenario.onboarded Scenario.morning)).
  discriminate.
Defined.

Lemma mount_resynchronises_witness :
  ui (world (session_run "v1"
               (session_run "v1" (at_rest Scenario.onboarded) Scenario.morning)
               [Mount; StoreHandles 0 (Scenario.store_up "" ""); AnswerArrives 0])) =
  {| status := closing_soon; loading := false; locationNotes := "";
     showLocationInput := false; useManualLocation := false;
     selectedLocation := None |}.
Proof.
  apply (mount_resynchronises "v1"
           (session_run "v1" (at_rest Scenario.onboarded) Scenario.morning)
           (Scenario.store_up "" "")
           {| vs_vendor_id := "v1"; vs_is_live := false;
              vs_operational_status := closing_soon;
              vs_went_live_at := Some "2024-05-01T11:01:00.000Z";
              vs_current_location_id := Some "l1" |}).
  - reflexivity.
  - vm_compute. reflexivity.
Defined.

Lemma go_live_without_status_row_witness :
  stored "v1" MoreScenario.unregistered = None /\
  status (ui (snd (complete (Scenario.store_up "l1" "2024-05-01T11:01:00.000Z")
                     (createLocationAndGoLive "v1" "" 39.7684%float (-86.1581)%float
                        None None None None)
                     MoreScenario.unregistered))) = live.
Proof.
  split; [reflexivity|].
  apply (go_live_without_status_row
           (Scenario.store_up "l1" "2024-05-01T11:01:00.000Z") "v1" ""
           39.7684%float (-86.1581)%float None None None None
           MoreScenario.unregistered "l1" tt); reflexivity.
Defined.

End GoLiveButtonMoreFacts.


(** ** Facts about the location search *)
Module LocationSearchFacts.
Import Types Exec GoLiveButton LocationSearch.
#[local] Set Warnings "-clear-no-such-hyp".

Lemma read_components_snoc l c :
  fold_left read_component (l ++ [c]) ("", "", "") =
  read_component (fold_left read_component l ("", "", "")) c.
Proof. by rewrite fold_left_app. Qed.

Lemma last_of_type_snoc name type l c :
  last_of_type name type (l ++ [c]) =
  if Search.includes (types c) type then name c else last_of_type name type l.
Proof.
  unfold last_of_type. rewrite List.filter_app. cbn [List.filter].
  destruct (Search.includes (types c) type).
  - by rewrite last_snoc.
  - by rewrite app_nil_r.
Qed.

Lemma read_components_last components :
  read_components components =
  (last_of_type long_name "locality" (default [] components),
   last_of_type short_name "administrative_area_level_1" (default [] components),
   last_of_type long_name "postal_code" (default [] components)).
Proof.
  unfold read_components.
  induction (default [] components) as [|c l IH] using rev_ind; [done|].
  rewrite read_components_snoc, IH, !last_of_type_snoc. reflexivity.
Qed.

Lemma place_changed_located onLocationSelect place g lat lng :
  geometry place = Some g -> location g = Some (lat, lng) ->
  place_changed onLocationSelect place =
  onLocationSelect
    {| sel_address := default "" (formatted_address place);
       sel_latitude := lat;
       sel_longitude := lng;
       sel_city :=
         Some (last_of_type long_name "locality"
                 (default [] (address_components place)));
       sel_state :=
         Some (last_of_type short_name "administrative_area_level_1"
                 (default [] (address_components place)));
       sel_zip :=
         Some (last_of_type long_name "postal_code"
                 (default [] (address_components place))) |}.
Proof.
  unfold place_changed. intros -> ->. by rewrite read_components_last.
Qed.

(** X17: a place without a position is answered with an alert and the
    callback is not run; a place with a position is handed to the callback
    once, with that position, the formatted address (empty when there is
    none), and as city, state and zip the long name of the last [locality]
    component, the short name of the last [administrative_area_level_1]
    component and the long name of the last [postal_code] component, each
    the empty string when no component has the type. *)
Theorem place_changed_result onLocationSelect place :
  (geometry place = None \/ (exists g, geometry place = Some g /\ location g = None) ->
   place_changed onLocationSelect place =
   alert "No details available for this location") /\
  (forall g lat lng,
      geometry place = Some g -> location g = Some (lat, lng) ->
      place_changed onLocationSelect place =
      onLocationSelect
        {| sel_address := default "" (formatted_address place);
           sel_latitude := lat;
           sel_longitude := lng;
           sel_city :=
             Some (last_of_type long_name "locality"
                     (default [] (address_components place)));
           sel_state :=
             Some (last_of_type short_name "administrative_area_level_1"
                     (default [] (address_components place)));
           sel_zip :=
             Some (last_of_type long_name "postal_code"
                     (default [] (address_components place))) |}).
Proof.
  split.
  - unfold place_changed. intros [->|(g & -> & ->)]; reflexivity.
  - intros g lat lng. apply place_changed_located.
Qed.

(** X18: a place picked in the search form and sent with the go-live
    button reaches the store as the first call, an insert into [locations]
    with the place's position and this vendor's id; the address, city,
    state and zip parts that the place does not have are left out of the
    row instead of being stored as empty strings, and so are empty notes.
    The insert is what the handler first waits on, whatever happens on the
    page in between, and what the store is sent when nothing does. *)
Theorem searched_place_is_inserted env clock vendorId place g lat lng w :
  geometry place = Some g -> location g = Some (lat, lng) ->
  let picked := snd (complete env (selectPlace place) w) in
  let sent := goLiveWithSearchedLocation vendorId (locationNotes (ui picked))
                (selectedLocation (ui picked)) in
  let row :=
    {| ins_vendor_id := vendorId;
       ins_latitude := lat;
       ins_longitude := lng;
       ins_address := JS.or_undefined (Some (default "" (formatted_address place)));
       ins_city :=
         JS.or_undefined
           (Some (last_of_type long_name "locality"
                    (default [] (address_components place))));
       ins_state :=
         JS.or_undefined
           (Some (last_of_type short_name "administrative_area_level_1"
                    (default [] (address_components place))));
       ins_zip :=
         JS.or_undefined
           (Some (last_of_type long_name "postal_code"
                    (default [] (address_components place))));
       ins_notes := JS.or_undefined (Some (locationNotes (ui w)));
       ins_is_current_location := true |} in
  (exists k, advance clock sent picked =
             (perform (SetLoading true) picked, [Requested (AwaitInsert row k)])) /\
  (exists rest, calls (snd (complete env sent picked)) =
                calls w ++ InsertLocation row :: rest).
Proof.
  intros Hg Hl. cbv zeta. unfold selectPlace.
  rewrite (place_changed_located _ place g lat lng Hg Hl).
  split; [eexists; reflexivity|].
  set (selected := {| sel_address := _ |}).
  set (busy := perform (SetLoading true) (perform (SetSelectedLocation (Some selected)) w)).
  change (exists rest,
            calls (snd (complete env
                          (createLocationAndGoLive vendorId (locationNotes (ui w))
                             (sel_latitude selected) (sel_longitude selected)
                             (Some (sel_address selected)) (sel_city selected)
                             (sel_state selected) (sel_zip selected)) busy)) =
            calls busy ++
            InsertLocation
              (go_live_row vendorId (locationNotes (ui w))
                 (sel_latitude selected) (sel_longitude selected)
                 (Some (sel_address selected)) (sel_city selected)
                 (sel_state selected) (sel_zip selected)) :: rest).
  destruct (insert_outcome env) as [new_id|err] eqn:E1.
  - destruct (update_outcome env) as [u|err] eqn:E2.
    + destruct (GoLiveButtonFacts.createLocationAndGoLive_done env vendorId
                  (locationNotes (ui w))
                  (sel_latitude selected) (sel_longitude selected)
                  (Some (sel_address selected)) (sel_city selected)
                  (sel_state selected) (sel_zip selected) busy
                  new_id u E1 E2) as (_ & _ & Hc & _).
      eexists. exact Hc.
    + destruct (GoLiveButtonFacts.createLocationAndGoLive_update_failed env vendorId
                  (locationNotes (ui w))
                  (sel_latitude selected) (sel_longitude selected)
                  (Some (sel_address selected)) (sel_city selected)
                  (sel_state selected) (sel_zip selected) busy
                  new_id err E1 E2) as (_ & _ & Hc & _).
      eexists. exact Hc.
  - destruct (GoLiveButtonFacts.createLocationAndGoLive_insert_failed env vendorId
                (locationNotes (ui w))
                (sel_latitude selected) (sel_longitude selected)
                (Some (sel_address selected)) (sel_city selected)
                (sel_state selected) (sel_zip selected) busy
                err E1) as (_ & Hc & _).
    eexists. exact Hc.
Qed.

(** *** The script loader *)

Lemma initAutocomplete_fields i s :
  places_available (initAutocomplete i s) = places_available s /\
  isScriptLoaded (initAutocomplete i s) = isScriptLoaded s /\
  isScriptLoading (initAutocomplete i s) = isScriptLoading s /\
  scriptCallbacks (initAutocomplete i s) = scriptCallbacks s /\
  pending_scripts (initAutocomplete i s) = pending_scripts s /\
  isReady (initAutocomplete i s) = isReady s /\
  loader_console (initAutocomplete i s) = loader_console s.
Proof.
  unfold initAutocomplete.
  by destruct (negb (places_available s) || bool_decide (i ∈ autocompleteRef s)).
Qed.

Lemma initAutocomplete_ref i s :
  places_available s = true ->
  autocompleteRef (initAutocomplete i s) = {[i]} ∪ autocompleteRef s.
Proof.
  intros Hp. unfold initAutocomplete. rewrite Hp. cbn [negb orb].
  destruct (bool_decide (i ∈ autocompleteRef s)) eqn:E; [|done].
  apply bool_decide_eq_true in E. set_solver.
Qed.

Lemma release_queue queue : forall s,
  places_available s = true ->
  let s' := fold_left (fun t j => initAutocomplete j (setIsReady j t)) queue s in
  places_available s' = true /\
  isScriptLoaded s' = isScriptLoaded s /\
  isScriptLoading s' = isScriptLoading s /\
  scriptCallbacks s' = scriptCallbacks s /\
  pending_scripts s' = pending_scripts s /\
  loader_console s' = loader_console s /\
  isReady s' = list_to_set queue ∪ isReady s /\
  autocompleteRef s' = list_to_set queue ∪ autocompleteRef s.
Proof.
  induction queue as [|j queue IH]; intros s Hp; cbn [fold_left list_to_set].
  - repeat split; set_solver.
  - destruct (initAutocomplete_fields j (setIsReady j s))
      as (F1 & F2 & F3 & F4 & F5 & F6 & F7).
    destruct (IH (initAutocomplete j (setIsReady j s))) as (G1 & G2 & G3 & G4 & G5 & G6 & G7 & G8).
    { by rewrite F1. }
    rewrite G2, G3, G4, G5, G6, G7, G8, F2, F3, F4, F5, F6, F7.
    rewrite initAutocomplete_ref by done.
    repeat split; try done; cbn; set_solver.
Qed.

Lemma script_onload_fields s i rest :
  pending_scripts s = i :: rest ->
  scriptCallbacks (loader_step s ScriptLoads) = [] /\
  isReady (loader_step s ScriptLoads) =
    {[i]} ∪ list_to_set (scriptCallbacks s) ∪ isReady s /\
  autocompleteRef (loader_step s ScriptLoads) =
    {[i]} ∪ list_to_set (scriptCallbacks s) ∪ autocompleteRef s /\
  pending_scripts (loader_step s ScriptLoads) = rest /\
  isScriptLoaded (loader_step s ScriptLoads) = true /\
  isScriptLoading (loader_step s ScriptLoads) = false /\
  places_available (loader_step s ScriptLoads) = true.
Proof.
  intros Hp. cbn [loader_step]. rewrite Hp. unfold script_onload. cbv zeta.
  set (loaded := {| places_available := true |}).
  destruct (initAutocomplete_fields i (setIsReady i loaded))
    as (F1 & F2 & F3 & F4 & F5 & F6 & F7).
  destruct (release_queue (scriptCallbacks (initAutocomplete i (setIsReady i loaded)))
              (initAutocomplete i (setIsReady i loaded)))
    as (G1 & G2 & G3 & G4 & G5 & G6 & G7 & G8).
  { by rewrite F1. }
  cbn [scriptCallbacks isReady autocompleteRef pending_scripts isScriptLoaded
       isScriptLoading places_available].
  rewrite G1, G2, G3, G5, G7, G8, F2, F3, F4, F5, F6.
  rewrite initAutocomplete_ref by done.
  cbn. rewrite Hp. repeat split; try done; set_solver.
Qed.

(** X19: when the script loads, the component that appended it and every
    component that was waiting in the queue become ready and get their
    widget, next to those that were ready before and nobody else; the
    queue is emptied, and the flags say loaded and not loading. *)
Theorem script_load_releases_waiting s i rest :
  pending_scripts s = i :: rest ->
  let s' := loader_step s ScriptLoads in
  (forall j, j ∈ isReady s' <-> j = i \/ j ∈ scriptCallbacks s \/ j ∈ isReady s) /\
  (forall j, j ∈ autocompleteRef s' <->
             j = i \/ j ∈ scriptCallbacks s \/ j ∈ autocompleteRef s) /\
  scriptCallbacks s' = [] /\
  pending_scripts s' = rest /\
  isScriptLoaded s' = true /\
  isScriptLoading s' = false.
Proof.
  intros Hp s'.
  destruct (script_onload_fields s i rest Hp) as (L1 & L2 & L3 & L4 & L5 & L6 & _).
  fold s' in L1, L2, L3, L4, L5, L6.
  split_and!; try done.
  - intros j. rewrite L2, !elem_of_union, elem_of_singleton, elem_of_list_to_set. tauto.
  - intros j. rewrite L3, !elem_of_union, elem_of_singleton, elem_of_list_to_set. tauto.
Qed.

Lemma loader_step_consistent s e :
  loader_consistent_prop s -> loader_consistent_prop (loader_step s e).
Proof.
  intros Hs. pose proof Hs as (H1 & H2 & H3 & H4 & H5).
  destruct e as [apiKey i| |].
  - cbn [loader_step]. unfold loadGoogleMaps.
    destruct (JS.truthy apiKey); cbn [negb]; [|done].
    destruct (places_available s) eqn:Ep.
    + destruct (initAutocomplete_fields i (setIsReady i s))
        as (F1 & F2 & F3 & F4 & F5 & F6 & F7).
      unfold loader_consistent_prop.
      rewrite F1, F2, F3, F4, F5, F6, initAutocomplete_ref by done.
      cbn. split_and!; rewrite ?Ep; auto; try done. by rewrite H5.
    + destruct (isScriptLoading s) eqn:El.
      * unfold loader_consistent_prop. cbn. split_and!; auto; done.
      * rewrite <- H2. cbn [negb andb].
        unfold loader_consistent_prop. cbn.
        rewrite length_app, H1. split_and!; auto; done.
  - cbn [loader_step]. destruct (pending_scripts s) as [|i rest] eqn:Hp; [exact Hs|].
    assert (rest = []) as ->.
    { destruct (isScriptLoading s); cbn in H1; [|lia]. by destruct rest. }
    assert (Hp' : pending_scripts s = [i]) by done.
    destruct (script_onload_fields s i [] Hp')
      as (L1 & L2 & L3 & L4 & L5 & L6 & L7).
    cbn [loader_step] in L1, L2, L3, L4, L5, L6, L7.
    rewrite Hp' in L1, L2, L3, L4, L5, L6, L7.
    unfold loader_consistent_prop. rewrite L1, L2, L3, L4, L5, L6, L7.
    split_and!; auto; try done; by rewrite H5.
  - cbn [loader_step]. destruct (pending_scripts s) as [|i rest] eqn:Hp; [exact Hs|].
    assert (rest = []) as ->.
    { destruct (isScriptLoading s); cbn in H1; [|lia]. by destruct rest. }
    unfold loader_consistent_prop, script_onerror, drop_script, loader_error. cbn.
    rewrite Hp. split_and!; auto; done.
Qed.

Lemma loader_run_consistent events : forall s,
  loader_consistent_prop s -> loader_consistent_prop (loader_run s events).
Proof.
  induction events as [|e events IH]; intros s Hs; [exact Hs|].
  apply IH. by apply loader_step_consistent.
Qed.

(** X20: however components mount and scripts load or fail, at most one
    script element is waiting, and one is waiting exactly while
    [isScriptLoading] is set: a second script is never requested while one
    is on its way.  The library is there exactly when the script has
    loaded, nobody is queued once it is there, and a component is ready
    exactly when it has its widget. *)
Theorem one_script_in_flight events :
  length (pending_scripts (loader_run loader_initial events)) =
    (if isScriptLoading (loader_run loader_initial events) then 1 else 0)%nat /\
  places_available (loader_run loader_initial events) =
    isScriptLoaded (loader_run loader_initial events) /\
  (places_available (loader_run loader_initial events) = true ->
   scriptCallbacks (loader_run loader_initial events) = []) /\
  (places_available (loader_run loader_initial events) = false ->
   isReady (loader_run loader_initial events) = ∅) /\
  isReady (loader_run loader_initial events) =
    autocompleteRef (loader_run loader_initial events).
Proof.
  apply (loader_run_consistent events loader_initial).
  unfold loader_consistent_prop. cbn. split_and!; auto.
Qed.

Lemma not_mounting_keeps_out i s e :
  (forall apiKey, e <> ComponentMounts apiKey i) ->
  i ∉ isReady s -> i ∉ scriptCallbacks s -> i ∉ pending_scripts s ->
  (i ∉ isReady (loader_step s e)) /\
  (i ∉ scriptCallbacks (loader_step s e)) /\
  (i ∉ pending_scripts (loader_step s e)).
Proof.
  intros He Hr Hq Hp. destruct e as [apiKey j| |].
  - assert (Hij : i <> j) by (intros ->; by eapply He).
    cbn [loader_step]. unfold loadGoogleMaps.
    destruct (JS.truthy apiKey); cbn [negb]; [|done].
    destruct (places_available s) eqn:Ep.
    + destruct (initAutocomplete_fields j (setIsReady j s))
        as (_ & _ & _ & F4 & F5 & F6 & _).
      rewrite F4, F5, F6. cbn. split_and!; auto.
      rewrite elem_of_union, elem_of_singleton. tauto.
    + destruct (isScriptLoading s).
      * cbn. split_and!; auto. rewrite elem_of_app, list_elem_of_singleton. tauto.
      * destruct (negb (isScriptLoaded s) && negb false); [|done].
        cbn. split_and!; auto. rewrite elem_of_app, list_elem_of_singleton. tauto.
  - cbn [loader_step].
    destruct (pending_scripts s) as [|j rest] eqn:Hpe; [split_and!; [done|done|by rewrite Hpe]|].
    destruct (script_onload_fields s j rest Hpe)
      as (L1 & L2 & _ & L4 & _).
    cbn [loader_step] in L1, L2, L4. rewrite Hpe in L1, L2, L4.
    rewrite L1, L2, L4. apply not_elem_of_cons in Hp as [Hij Hp].
    split_and!; [|by apply not_elem_of_nil|done].
    rewrite !elem_of_union, elem_of_singleton, elem_of_list_to_set. tauto.
  - cbn [loader_step].
    destruct (pending_scripts s) as [|j rest] eqn:Hpe; [split_and!; [done|done|by rewrite Hpe]|].
    unfold script_onerror, drop_script, loader_error. cbn. rewrite Hpe.
    apply not_elem_of_cons in Hp as [Hij Hp]. done.
Qed.

(** X21: a failed load strands the component that requested the script:
    the queue is left as it is (its callbacks are neither run nor dropped,
    so a later load still releases the queued components), but the
    requester is in no queue, and as long as it does not mount again
    nothing makes it ready, not even a later script that loads. *)
Theorem failed_load_strands_requester s i rest events :
  pending_scripts s = i :: rest ->
  i ∉ isReady s -> i ∉ scriptCallbacks s -> i ∉ rest ->
  (forall apiKey, ComponentMounts apiKey i ∉ events) ->
  scriptCallbacks (loader_step s ScriptFails) = scriptCallbacks s /\
  isReady (loader_step s ScriptFails) = isReady s /\
  isScriptLoading (loader_step s ScriptFails) = false /\
  (i ∉ isReady (loader_run (loader_step s ScriptFails) events)).
Proof.
  intros Hp Hr Hq Hrest Hev.
  cbn [loader_step]. rewrite Hp.
  unfold script_onerror, drop_script, loader_error.
  cbn [scriptCallbacks isReady isScriptLoading]. split_and!; try done.
  set (s1 := {| places_available := _ |}).
  assert (G : forall events t,
             (forall apiKey, ComponentMounts apiKey i ∉ events) ->
             i ∉ isReady t -> i ∉ scriptCallbacks t -> i ∉ pending_scripts t ->
             i ∉ isReady (loader_run t events)).
  { clear. induction events as [|e events IH]; intros t Hev Hr Hq Hp; [done|].
    destruct (not_mounting_keeps_out i t e) as (K1 & K2 & K3); try done.
    - intros apiKey ->. apply (Hev apiKey). by left.
    - apply IH; try done. intros apiKey Hin. apply (Hev apiKey). by right. }
  apply G; try done. subst s1. cbn. by rewrite Hp.
Qed.

(** *** The theorems at work *)

Lemma place_changed_result_witness :
  selectPlace MoreScenario.place_without_position =
  alert "No details available for this location".
Proof.
  apply (proj1 (place_changed_result _
                  MoreScenario.place_without_position)).
  by left.
Defined.

Lemma searched_place_is_inserted_witness :
  let env := Scenario.store_up "l1" "2024-05-01T11:01:00.000Z" in
  let picked :=
    snd (complete env (selectPlace MoreScenario.city_hall_place) Scenario.onboarded) in
  exists rest row,
    calls (snd (complete env
                  (goLiveWithSearchedLocation "v1" (locationNotes (ui picked))
                     (selectedLocation (ui picked))) picked)) =
    calls Scenario.onboarded ++ InsertLocation row :: rest /\
    ins_city row = Some "Indianapolis" /\ ins_state row = Some "IN" /\
    ins_zip row = None /\ ins_notes row = None.
Proof.
  intros env picked.
  destruct (searched_place_is_inserted env "" "v1"
              MoreScenario.city_hall_place _ 39.7684%float (-86.1581)%float
              Scenario.onboarded eq_refl eq_refl) as [_ [rest H]].
  exists rest. eexists. split; [exact H|]. repeat split.
Defined.

Lemma script_load_releases_waiting_witness :
  pending_scripts MoreScenario.two_waiting = [0%nat] /\
  scriptCallbacks MoreScenario.two_waiting = [1%nat] /\
  (1%nat ∈ isReady (loader_step MoreScenario.two_waiting ScriptLoads)).
Proof.
  split; [reflexivity|]. split; [reflexivity|].
  apply (proj1 (script_load_releases_waiting MoreScenario.two_waiting
                  0%nat [] eq_refl)).
  right. left. apply list_elem_of_singleton. reflexivity.
Defined.

Lemma failed_load_strands_requester_witness :
  scriptCallbacks (loader_step MoreScenario.two_waiting ScriptFails) =
    scriptCallbacks MoreScenario.two_waiting /\
  isReady (loader_step MoreScenario.two_waiting ScriptFails) =
    isReady MoreScenario.two_waiting /\
  isScriptLoading (loader_step MoreScenario.two_waiting ScriptFails) = false /\
  (0%nat ∉ isReady (loader_run (loader_step MoreScenario.two_waiting ScriptFails)
                      [ComponentMounts (Some "key") 2%nat; ScriptLoads])).
Proof.
  apply (failed_load_strands_requester MoreScenario.two_waiting 0%nat []).
  - reflexivity.
  - apply not_elem_of_empty.
  - intros H. apply list_elem_of_singleton in H. discriminate.
  - apply not_elem_of_nil.
  - intros apiKey H. apply elem_of_cons in H as [H|H]; [discriminate|].
    apply list_elem_of_singleton in H. discriminate.
Defined.

End LocationSearchFacts.


(** ** Facts about the onboarding form *)
Module OnboardingFacts.
Import Types Exec Onboarding.

Ltac run_submit :=
  unfold handleSubmit, vendors_insert, vendor_status_insert, profiles_update_role,
    report_and_throw, record_call, setError, setLoading, alert, console_line,
    router_push, with_form, try_catch, try_finally, throw_if, bind, ret, throw,
    get, modify;
  cbn [data Exec.error fst snd vendor_outcome status_outcome profile_outcome
       store_error_instanceof_Error
       form user tables calls alerts console pushed
       loading error businessName description cuisineTypes phone email
       vendors vendor_status profile_role].

(** X22: a submit without a signed-in user, or without a single cuisine
    selected, sends nothing to the store: the tables are as before, the
    form shows the reason, is not busy, and the page is not left. *)
Theorem handleSubmit_validation env w :
  (user w = None ->
   let w' := snd (handleSubmit env w) in
   tables w' = tables w /\ calls w' = calls w /\ pushed w' = pushed w /\
   alerts w' = alerts w /\
   error (form w') = "You must be logged in" /\ loading (form w') = false) /\
  (forall u,
      user w = Some u -> cuisineTypes (form w) = [] ->
      let w' := snd (handleSubmit env w) in
      tables w' = tables w /\ calls w' = calls w /\ pushed w' = pushed w /\
      alerts w' = alerts w /\
      error (form w') = "Please select at least one cuisine type" /\
      loading (form w') = false).
Proof.
  split.
  - intros Hu. run_submit. rewrite Hu. by cbn.
  - intros u Hu Hc. run_submit. rewrite Hu, Hc. by cbn.
Qed.

(** X23: a valid submit sends the vendor insert, then the status insert
    for the id the store gave the vendor, then the role update, and stops
    at the first call that fails.  Only when all three go through is the
    user told so and sent to the dashboard; a failure leaves what the
    earlier calls wrote (a vendor without a status row when the status
    insert fails), shows an error text and does not leave the page.  In
    every case the form ends not busy. *)
Theorem handleSubmit_writes_in_order env w u :
  user w = Some u -> cuisineTypes (form w) <> [] ->
  let w' := snd (handleSubmit env w) in
  loading (form w') = false /\
  match vendor_outcome env with
  | GoLiveButton.Failed e =>
      calls w' = calls w ++ [InsertVendor (vendor_row w u)] /\
      tables w' = tables w /\
      pushed w' = pushed w /\ alerts w' = alerts w /\
      error (form w') = error_text env e
  | GoLiveButton.Done vendor_id =>
      vendors (tables w') = vendors (tables w) ++ [(vendor_id, vendor_row w u)] /\
      match status_outcome env with
      | GoLiveButton.Failed e =>
          calls w' = calls w ++
            [InsertVendor (vendor_row w u); InsertStatus (status_row vendor_id)] /\
          vendor_status (tables w') = vendor_status (tables w) /\
          profile_role (tables w') = profile_role (tables w) /\
          pushed w' = pushed w /\ alerts w' = alerts w /\
          error (form w') = error_text env e
      | GoLiveButton.Done _ =>
          vendor_status (tables w') =
            <[vendor_id := inserted_status (status_row vendor_id)]>
              (vendor_status (tables w)) /\
          calls w' = calls w ++
            [InsertVendor (vendor_row w u); InsertStatus (status_row vendor_id);
             UpdateProfileRole (user_id u) "vendor"] /\
          match profile_outcome env with
          | GoLiveButton.Failed e =>
              profile_role (tables w') = profile_role (tables w) /\
              pushed w' = pushed w /\ alerts w' = alerts w /\
              error (form w') = error_text env e
          | GoLiveButton.Done _ =>
              profile_role (tables w') =
                alter (fun _ => "vendor") (user_id u) (profile_role (tables w)) /\
              pushed w' = pushed w ++ ["/dashboard"] /\
              alerts w' = alerts w ++ ["Vendor profile created successfully!"] /\
              error (form w') = ""
          end
      end
  end.
Proof.
  intros Hu Hc.
  assert (Hlen : (length (cuisineTypes (form w)) =? 0)%nat = false).
  { destruct (cuisineTypes (form w)); [done|reflexivity]. }
  destruct env as [[vendor_id|e1] [u2|e2] [u3|e3] inst];
    run_submit; rewrite Hu; cbn [user form cuisineTypes]; rewrite Hlen;
    cbn; rewrite <- ?app_assoc; repeat split.
Qed.

(** *** The theorems at work *)

Lemma handleSubmit_validation_witness :
  user MoreScenario.signed_out = None /\
  error (form (snd (handleSubmit MoreScenario.store_accepts MoreScenario.signed_out))) =
  "You must be logged in".
Proof.
  split; [reflexivity|].
  exact (proj1 (proj2 (proj2 (proj2 (proj2
           (proj1 (handleSubmit_validation MoreScenario.store_accepts
                     MoreScenario.signed_out) eq_refl)))))).
Defined.

Lemma handleSubmit_writes_in_order_witness :
  pushed (snd (handleSubmit MoreScenario.store_accepts MoreScenario.applicant)) =
  pushed MoreScenario.applicant ++ ["/dashboard"].
Proof.
  assert (Hc : cuisineTypes (form MoreScenario.applicant) <> []) by discriminate.
  pose proof (handleSubmit_writes_in_order MoreScenario.store_accepts
                MoreScenario.applicant _ eq_refl Hc) as [_ H].
  cbn [vendor_outcome status_outcome profile_outcome MoreScenario.store_accepts] in H.
  destruct H as (_ & _ & _ & _ & Hp & _). exact Hp.
Defined.

End OnboardingFacts.

(** ** Facts about the grouping of menu items *)
Module MenuPageFacts.
Import Types Exec MenuPage.

Section Grouping.
Context (inherited : string -> bool).

Lemma itemsByCategory_snoc l x :
  itemsByCategory inherited (l ++ [x]) =
  match itemsByCategory inherited l with
  | Ok acc => group_item inherited acc x
  | Throw e => Throw e
  end.
Proof. unfold itemsByCategory. by rewrite fold_left_app. Qed.

Lemma items_of_snoc c l x :
  items_of c (l ++ [x]) =
  if String.eqb (category_of x) c then items_of c l ++ [x] else items_of c l.
Proof.
  unfold items_of. rewrite List.filter_app. cbn [List.filter].
  destruct (String.eqb (category_of x) c); [done|by rewrite app_nil_r].
Qed.

Lemma itemsByCategory_cases menuItems :
  match itemsByCategory inherited menuItems with
  | Ok groups =>
      Forall (fun item => inherited (category_of item) = false) menuItems /\
      forall c, groups !! c =
                match items_of c menuItems with
                | [] => None
                | items => Some items
                end
  | Throw _ =>
      Exists (fun item => inherited (category_of item) = true) menuItems
  end.
Proof.
  induction menuItems as [|x l IH] using rev_ind.
  - cbn. split; [constructor|]. intros c. by rewrite lookup_empty.
  - rewrite itemsByCategory_snoc.
    destruct (itemsByCategory inherited l) as [acc|e].
    + destruct IH as [Hall Hacc]. unfold group_item. cbv zeta.
      pose proof (Hacc (category_of x)) as Hx.
      destruct (acc !! category_of x) as [items|] eqn:E.
      * assert (Hin : exists y, y ∈ l /\ category_of y = category_of x).
        { destruct (items_of (category_of x) l) as [|y ys] eqn:Ey; [done|].
          exists y. assert (Hy : In y (items_of (category_of x) l))
            by (rewrite Ey; by left).
          apply filter_In in Hy as [Hy1 Hy2]. apply String.eqb_eq in Hy2.
          split; [by apply list_elem_of_In|done]. }
        destruct Hin as (y & Hy & Hcat).
        split.
        -- apply Forall_app. split; [done|]. constructor; [|constructor].
           rewrite <- Hcat. rewrite Forall_forall in Hall. by apply Hall.
        -- intros c. rewrite items_of_snoc.
           destruct (String.eqb (category_of x) c) eqn:Ec.
           ++ apply String.eqb_eq in Ec. subst c. rewrite lookup_insert_eq.
              destruct (items_of (category_of x) l) as [|z zs]; [done|].
              by inversion Hx.
           ++ apply String.eqb_neq in Ec. rewrite lookup_insert_ne by done.
              apply Hacc.
      * destruct (inherited (category_of x)) eqn:Ei.
        -- apply Exists_app. right. by constructor.
        -- split.
           ++ apply Forall_app. split; [done|]. by repeat constructor.
           ++ intros c. rewrite items_of_snoc.
              destruct (String.eqb (category_of x) c) eqn:Ec.
              ** apply String.eqb_eq in Ec. subst c. rewrite lookup_insert_eq.
                 by destruct (items_of (category_of x) l).
              ** apply String.eqb_neq in Ec. rewrite lookup_insert_ne by done.
                 apply Hacc.
    + apply Exists_app. by left.
Qed.

(** X25: when no item has a category that names an inherited object
    property, the grouping succeeds and the group of a category holds
    exactly the items of that category (items without a category under
    "Other"), in the order of the list, with no empty group; when some item
    has such a category (say "constructor"), the grouping throws, and with
    it the rendering of the page. *)
Theorem itemsByCategory_groups menuItems :
  (Forall (fun item => inherited (category_of item) = false) menuItems ->
   exists groups,
     itemsByCategory inherited menuItems = Ok groups /\
     forall c, groups !! c =
               match items_of c menuItems with
               | [] => None
               | items => Some items
               end) /\
  (Exists (fun item => inherited (category_of item) = true) menuItems ->
   exists e, itemsByCategory inherited menuItems = Throw e).
Proof.
  pose proof (itemsByCategory_cases menuItems) as H.
  destruct (itemsByCategory inherited menuItems) as [groups|e]; split.
  - intros _. exists groups. by destruct H.
  - intros Hex. destruct H as [Hall _]. exfalso.
    apply Exists_exists in Hex as (x & Hx & Hi).
    rewrite Forall_forall in Hall. specialize (Hall x Hx). congruence.
  - intros Hall. exfalso.
    apply Exists_exists in H as (x & Hx & Hi).
    rewrite Forall_forall in Hall. specialize (Hall x Hx). congruence.
  - intros _. by exists e.
Qed.

End Grouping.

(** *** The theorem at work *)

Lemma itemsByCategory_groups_witness :
  (exists groups,
      itemsByCategory (Search.includes object_prototype_names)
        MoreScenario.small_menu = Ok groups /\
      forall c, groups !! c =
                match items_of c MoreScenario.small_menu with
                | [] => None
                | items => Some items
                end) /\
  (exists e,
      itemsByCategory (Search.includes object_prototype_names)
        [MoreScenario.menu_item "Soup" (Some "constructor")] = Throw e).
Proof.
  split.
  - apply (proj1 (itemsByCategory_groups (Search.includes object_prototype_names)
                    MoreScenario.small_menu)).
    repeat constructor.
  - apply (proj2 (itemsByCategory_groups (Search.includes object_prototype_names)
                    [MoreScenario.menu_item "Soup" (Some "constructor")])).
    by constructor.
Defined.

End MenuPageFacts.
